(** * littlefoot: the footnote popover engine

    A shallow embedding of [src/dom/element.ts], [src/dom/layout.ts],
    [src/dom/footnote.ts], [src/dom/scroll.ts], the event layer
    ([addListeners]) and the parts of [src/dom/document.ts] that work on
    the page and on text, with the properties of the engine proved over it.

    - JavaScript numbers are IEEE 754 binary64 values: Rocq's primitive
      [float], with the comparison and arithmetic operators of the language.
    - The DOM is a store of elements addressed by node identity; every element
      carries its parent, its ordered children, its attributes, its class list
      and its inline style.  Aliasing between the roles of a footnote (the
      content may be the popover itself) is therefore the store's aliasing.
    - What the rendering engine computes (box metrics, computed styles, the
      viewport) is an oracle [Layout] read off the current document.
    - Code that mutates the DOM runs in a state-and-exception monad that also
      records every write it issues. *)

From Stdlib Require Import ZArith Bool List Ascii String Floats Lia.
From stdpp Require Import base option strings pretty list gmap.

Local Open Scope string_scope.

(* ===================================================================== *)
(** * JavaScript values *)
(* ===================================================================== *)

Module JS.

(** [number] is the language's only numeric type. *)
Abbreviation number := PrimFloat.float.

Definition of_Z (z : Z) : number :=
  SF2Prim (binary_normalize prec emax z 0 false).

(** The relational operators: every comparison with NaN is [false]. *)
Definition num_ge (a b : number) : bool := PrimFloat.leb b a.
Definition num_gt (a b : number) : bool := PrimFloat.ltb b a.
Definition num_le (a b : number) : bool := PrimFloat.leb a b.
Definition num_lt (a b : number) : bool := PrimFloat.ltb a b.
(** [a === b] on numbers. *)
Definition strict_eq (a b : number) : bool := PrimFloat.eqb a b.

Definition neg (a : number) : number := PrimFloat.opp a.

(** [Math.min(a, b)]: NaN if either is NaN, and -0 is below +0. *)
Definition Math_min (a b : number) : number :=
  if PrimFloat.is_nan a then a
  else if PrimFloat.is_nan b then b
  else if PrimFloat.ltb a b then a
  else if PrimFloat.ltb b a then b
  else if PrimFloat.get_sign a then a else b.

(** [Math.round(x)]: the integral number closest to [x], ties towards
    +infinity; the sign of a zero result follows [x]. *)
Definition Math_round (x : number) : number :=
  match Prim2SF x with
  | S754_finite s m e =>
      if (0 <=? e)%Z then x
      else
        let signed := if s then Z.neg m else Z.pos m in
        let r := Z.shiftr (signed + Z.shiftl 1 (- e - 1)) (- e) in
        if (r =? 0)%Z then (if s then PrimFloat.neg_zero else PrimFloat.zero)
        else of_Z r
  | _ => x
  end.

(** ** [Number.parseInt(s, 10)] *)

Definition is_white_space (c : ascii) : bool :=
  let n := nat_of_ascii c in
  (n =? 32)%nat || ((9 <=? n)%nat && (n <=? 13)%nat).

Fixpoint trim_start (s : string) : string :=
  match s with
  | String c rest => if is_white_space c then trim_start rest else s
  | EmptyString => s
  end.

Definition digit_of (c : ascii) : option Z :=
  let n := nat_of_ascii c in
  if (48 <=? n)%nat && (n <=? 57)%nat then Some (Z.of_nat (n - 48)) else None.

(** The longest prefix of decimal digits, as the integer it denotes. *)
Fixpoint leading_digits (acc : option Z) (s : string) : option Z :=
  match s with
  | String c rest =>
      match digit_of c with
      | Some d => leading_digits (Some (10 * default 0%Z acc + d)%Z) rest
      | None => acc
      end
  | EmptyString => acc
  end.

Definition parseInt (s : string) : number :=
  let s := trim_start s in
  let '(negative, s) :=
    match s with
    | String "-" rest => (true, rest)
    | String "+" rest => (false, rest)
    | _ => (false, s)
    end in
  match leading_digits None s with
  | None => PrimFloat.nan
  | Some z => if negative then neg (of_Z z) else of_Z z
  end.

(** A string is truthy when it is not empty; [undefined] is falsy. *)
Definition truthy (s : option string) : bool :=
  match s with
  | Some (String _ _) => true
  | _ => false
  end.

End JS.

Import JS.

(* ===================================================================== *)
(** * The document *)
(* ===================================================================== *)

Module Dom.

(** Node identity: two references denote the same node when they are equal. *)
Abbreviation node := nat.

Record Element := mkElement {
  parentNode : option node;
  childNodes : list node;
  attributes : gmap string string;
  classList : list string;
  style : gmap string string;
}.

(** An element that was created and never touched. *)
Definition blank : Element :=
  mkElement None [] ∅ [] ∅.

Definition set_parentNode (p : option node) (e : Element) : Element :=
  mkElement p (childNodes e) (attributes e) (classList e) (style e).
Definition set_childNodes (l : list node) (e : Element) : Element :=
  mkElement (parentNode e) l (attributes e) (classList e) (style e).
Definition set_attributes (a : gmap string string) (e : Element) : Element :=
  mkElement (parentNode e) (childNodes e) a (classList e) (style e).
Definition set_classList (c : list string) (e : Element) : Element :=
  mkElement (parentNode e) (childNodes e) (attributes e) c (style e).
Definition set_style (s : gmap string string) (e : Element) : Element :=
  mkElement (parentNode e) (childNodes e) (attributes e) (classList e) s.

(** The store of elements, and [document.body]. *)
Record Document := mkDocument {
  nodes : gmap node Element;
  body : node;
}.

Definition element (d : Document) (n : node) : Element :=
  default blank (nodes d !! n).

(** The store holds every node that exists, and no operation of the engine
    creates one: a write goes to an element of the store. *)
Definition update (n : node) (f : Element → Element) (d : Document) : Document :=
  mkDocument (alter f n (nodes d)) (body d).

(** ** [DOMTokenList]: an ordered set of class names *)

Definition token_contains (c : string) (l : list string) : bool :=
  bool_decide (c ∈ l).
Definition token_add (c : string) (l : list string) : list string :=
  if token_contains c l then l else l ++ [c].
Definition token_remove (c : string) (l : list string) : list string :=
  filter (λ x, x ≠ c) l.

(** ** The tree *)

(** The element that follows [n] in a list of siblings. *)
Fixpoint following (n : node) (l : list node) : option node :=
  match l with
  | [] => None
  | x :: rest => if decide (x = n) then head rest else following n rest
  end.

Definition nextSibling (d : Document) (n : node) : option node :=
  match parentNode (element d n) with
  | Some p => following n (childNodes (element d p))
  | None => None
  end.

Fixpoint insert_after (ref new : node) (l : list node) : list node :=
  match l with
  | [] => []
  | x :: rest =>
      if decide (x = ref) then x :: new :: rest
      else x :: insert_after ref new rest
  end.

(** Walks the parent chain from [x]; [fuel] bounds the number of steps. *)
Fixpoint inclusive_ancestor (fuel : nat) (d : Document) (a x : node) : bool :=
  bool_decide (a = x) ||
  match fuel with
  | O => false
  | S fuel' =>
      match parentNode (element d x) with
      | Some p => inclusive_ancestor fuel' d a p
      | None => false
      end
  end.

(** [a.contains(x)]: a chain of parents never revisits a node, so it is no
    longer than the store. *)
Definition contains (d : Document) (a x : node) : bool :=
  inclusive_ancestor (size (nodes d)) d a x.

(** The proper ancestors of [x], the nearest first: the chain of parents
    from [x] to a node that has none. *)
Inductive ancestors (d : Document) : node → list node → Prop :=
| ancestors_root x :
    parentNode (element d x) = None → ancestors d x []
| ancestors_parent x p l :
    parentNode (element d x) = Some p → ancestors d p l → ancestors d x (p :: l).

(** The root of the tree [n] is in. *)
Fixpoint root_from (fuel : nat) (d : Document) (n : node) : node :=
  match fuel with
  | O => n
  | S fuel' =>
      match parentNode (element d n) with
      | Some p => root_from fuel' d p
      | None => n
      end
  end.

(** [document.documentElement]: the root of the tree the body is in. *)
Definition documentElement (d : Document) : node :=
  root_from (size (nodes d)) d (body d).

(** [n.isConnected]: the tree [n] is in is that of the document.  A node
    that was taken off the page, and what it holds, is not. *)
Definition isConnected (d : Document) (n : node) : bool :=
  bool_decide (root_from (size (nodes d)) d n = documentElement d).

(** [n.remove()]: unlinks [n] from its parent; [n] keeps its own subtree. *)
Definition detach (n : node) (d : Document) : Document :=
  match parentNode (element d n) with
  | None => d
  | Some p =>
      update n (set_parentNode None)
        (update p (λ e, set_childNodes (filter (λ x, x ≠ n) (childNodes e)) e) d)
  end.

Inductive Exception :=
| HierarchyRequestError
| TypeError
| UserError (message : string).

(** [ref.insertAdjacentElement('afterend', new)]: nothing happens when [ref]
    has no parent (the call returns null); a node cannot be inserted below
    itself; otherwise [new] leaves its old place and becomes the next sibling
    of [ref].  Inserting a node after itself leaves it where it is. *)
Definition insert_afterend (ref new : node) (d : Document) : Exception + Document :=
  match parentNode (element d ref) with
  | None => inr d
  | Some p =>
      if contains d new p then inl HierarchyRequestError
      else if decide (new = ref) then inr d
      else
        let d1 := detach new d in
        inr (update new (set_parentNode (Some p))
               (update p (λ e, set_childNodes (insert_after ref new (childNodes e)) e) d1))
  end.

(** ** Selectors *)

(** The selectors the engine uses: [[name]] and [.name]. *)
Inductive Selector :=
| HasAttribute (name : string)
| HasClass (name : string).

Definition matches (d : Document) (n : node) (sel : Selector) : bool :=
  match sel with
  | HasAttribute a => bool_decide (is_Some (attributes (element d n) !! a))
  | HasClass c => token_contains c (classList (element d n))
  end.

Fixpoint closest_from (fuel : nat) (d : Document) (sel : Selector) (n : node) : option node :=
  if matches d n sel then Some n
  else
    match fuel with
    | O => None
    | S fuel' =>
        match parentNode (element d n) with
        | Some p => closest_from fuel' d sel p
        | None => None
        end
    end.

(** [n.closest(selector)]: the nearest inclusive ancestor that matches. *)
Definition closest (d : Document) (n : node) (sel : Selector) : option node :=
  closest_from (size (nodes d)) d sel n.

(** The first match in document order among the trees rooted at [ns]. *)
Fixpoint first_match (fuel : nat) (d : Document) (sel : Selector) (ns : list node) : option node :=
  match fuel with
  | O => None
  | S fuel' =>
      match ns with
      | [] => None
      | n :: rest =>
          if matches d n sel then Some n
          else
            match first_match fuel' d sel (childNodes (element d n)) with
            | Some r => Some r
            | None => first_match fuel' d sel rest
            end
      end
  end.

(** [n.querySelector(selector)]: the first matching descendant. *)
Definition querySelector (d : Document) (n : node) (sel : Selector) : option node :=
  first_match (S (size (nodes d))) d sel (childNodes (element d n)).

(** ** What the rendering engine reports *)

Record Layout := mkLayout {
  offsetWidth : node → number;
  offsetHeight : node → number;
  clientWidth : node → number;
  clientHeight : node → number;
  scrollTop : node → number;
  scrollHeight : node → number;
  (** [getBoundingClientRect()] *)
  rect_left : node → number;
  rect_top : node → number;
  (** [getStyle(element, property)], the computed style *)
  getStyle : node → string → string;
  (** [pixels(length, element)]: a CSS length in pixels, in the context of
      an element *)
  pixels : string → node → number;
  (** [window.innerWidth], [window.innerHeight] *)
  innerWidth : number;
  innerHeight : number;
}.

End Dom.

Import Dom.

(* ===================================================================== *)
(** * Code that mutates the document *)
(* ===================================================================== *)

(** [Position] of [layout.ts]. *)
Inductive Position :=
| above
| below.

#[global] Instance Position_eq_dec : EqDecision Position.
Proof. solve_decision. Defined.

Definition Position_to_string (p : Position) : string :=
  match p with
  | above => "above"
  | below => "below"
  end.

(** Every write a piece of code issues, in the order it issues them. *)
Inductive Effect :=
| SetAttribute (n : node) (name value : string)
| RemoveAttribute (n : node) (name : string)
| ClassListAdd (n : node) (class : string)
| ClassListRemove (n : node) (class : string)
| SetStyle (n : node) (property value : string)
| InsertAdjacentAfterEnd (ref new : node)
| RemoveNode (n : node)
| AssignMaxHeight (value : number)
| AssignPosition (value : Position)
| InvokeCallback (popover button : node).

(** The state one [footnoteActions] closure can reach: the document, the
    rendering of any document as the browser would report it now, the two
    variables the closure captures, and the writes issued so far. *)
Record World := mkWorld {
  document : Document;
  render : Document → Layout;
  maxHeight : number;
  position : Position;
  log : list Effect;
}.

(** The layout of the current document. *)
Definition layout (w : World) : Layout :=
  render w (document w).

Inductive Result (A : Type) :=
| Ok (a : A) (w : World)
| Throw (e : Exception) (w : World).
Arguments Ok {A} a w.
Arguments Throw {A} e w.

(** The world a computation leaves behind, thrown or not. *)
Definition world_of {A} (r : Result A) : World :=
  match r with
  | Ok _ w => w
  | Throw _ w => w
  end.

Definition M (A : Type) : Type := World → Result A.

#[global] Instance M_ret : MRet M :=
  λ A a w, Ok a w.
#[global] Instance M_bind : MBind M :=
  λ A B f m w,
    match m w with
    | Ok a w' => f a w'
    | Throw e w' => Throw e w'
    end.

Definition gets {A} (f : World → A) : M A :=
  λ w, Ok (f w) w.

Definition throw {A} (e : Exception) : M A :=
  λ w, Throw e w.

Definition record (e : Effect) : M unit :=
  λ w, Ok tt (mkWorld (document w) (render w) (maxHeight w) (position w) (log w ++ [e])).

Definition put_document (d : Document) : M unit :=
  λ w, Ok tt (mkWorld d (render w) (maxHeight w) (position w) (log w)).

(** The empty statement. *)
Definition skip : M unit :=
  mret tt.

Definition modify (f : Document → Document) : M unit :=
  d ← gets document; put_document (f d).

(** ** DOM methods *)

Definition setAttribute (n : node) (name value : string) : M unit :=
  record (SetAttribute n name value);;
  modify (update n (λ e, set_attributes (<[name := value]> (attributes e)) e)).

Definition removeAttribute (n : node) (name : string) : M unit :=
  record (RemoveAttribute n name);;
  modify (update n (λ e, set_attributes (delete name (attributes e)) e)).

(** [n.style[property] = value]; the store keeps the text assigned. *)
Definition setStyle (n : node) (property value : string) : M unit :=
  record (SetStyle n property value);;
  modify (update n (λ e, set_style (<[property := value]> (style e)) e)).

Definition insertAdjacentElement_afterend (ref new : node) : M unit :=
  record (InsertAdjacentAfterEnd ref new);;
  d ← gets document;
  match insert_afterend ref new d with
  | inl e => throw e
  | inr d' => put_document d'
  end.

Definition removeNode (n : node) : M unit :=
  record (RemoveNode n);;
  modify (detach n).

(** ** [element.ts] *)

Definition addClass (element : node) (className : string) : M unit :=
  record (ClassListAdd element className);;
  modify (update element (λ e, set_classList (token_add className (classList e)) e)).

Definition removeClass (element : node) (className : string) : M unit :=
  record (ClassListRemove element className);;
  modify (update element (λ e, set_classList (token_remove className (classList e)) e)).

Definition hasClass (element : node) (className : string) : M bool :=
  gets (λ w, token_contains className (classList (Dom.element (document w) element))).

(* ===================================================================== *)
(** * The engine *)
(* ===================================================================== *)

(** Two built-ins of the language are taken as they are: the parser of
    decimal literals ([Number.parseFloat]) and the conversion of a number to
    text (the one [number + 'px'] applies). *)
Class Builtins := {
  parseFloat : string → number;
  toString : number → string;
}.

Section Engine.

Context {builtins : Builtins}.

Local Open Scope float_scope.

(** ** [layout.ts] *)

Definition CLASS_TOOLTIP : string := "littlefoot__tooltip".

Definition getLeftRelative (L : Layout) (element : node) : number :=
  let marginLeft := parseFloat (getStyle L element "marginLeft") in
  let width := offsetWidth L element - marginLeft in
  let left := rect_left L element + width / 2 in
  left / innerWidth L.

Definition getLeftInPixels (L : Layout) (content button : node) : number :=
  let maxWidth := offsetWidth L content in
  let leftRelative := getLeftRelative L button in
  let buttonMarginLeft := parseInt (getStyle L button "marginLeft") in
  - leftRelative * maxWidth + buttonMarginLeft + offsetWidth L button / 2.

Definition getMaxHeight (L : Layout) (element : node) : number :=
  Math_round (pixels L (getStyle L element "maxHeight") element).

Definition getFootnotePosition (L : Layout) (button popover : node) : Position * number :=
  let marginSize := parseInt (getStyle L popover "marginTop") in
  let popoverHeight := 2 * marginSize + offsetHeight L popover in
  let roomAbove := rect_top L button + offsetHeight L button / 2 in
  let roomBelow := innerHeight L - roomAbove in
  if num_ge roomBelow popoverHeight || num_ge roomBelow roomAbove
  then (below, roomBelow - marginSize - 15)
  else (above, roomAbove - marginSize - 15).

Definition repositionPopover (popover button : node) (current : Position) : M (Position * number) :=
  '(next, room) ← gets (λ w, getFootnotePosition (layout w) button popover);
  (if decide (current ≠ next) then
     removeClass popover ("is-" +:+ Position_to_string current);;
     addClass popover ("is-" +:+ Position_to_string next);;
     transformX ← gets (λ w, toString (getLeftRelative (layout w) button * 100) +:+ "%");
     let transformY := match next with above => "100%" | below => "0" end in
     setStyle popover "transformOrigin" (transformX +:+ " " +:+ transformY)
   else skip);;
  mret (next, room).

Definition repositionTooltip (popover button : node) : M unit :=
  tooltip ← gets (λ w, querySelector (document w) popover (HasClass CLASS_TOOLTIP));
  match tooltip with
  | Some t =>
      left ← gets (λ w, toString (getLeftRelative (layout w) button * 100) +:+ "%");
      setStyle t "left" left
  | None => skip
  end.

(** ** [footnote.ts] *)

Definition CLASS_ACTIVE : string := "is-active".
Definition CLASS_CHANGING : string := "is-changing".
Definition CLASS_SCROLLABLE : string := "is-scrollable".

Record FootnoteElements := mkFootnoteElements {
  id : string;
  host : node;
  button : node;
  popover : node;
  content : node;
  wrapper : node;
}.

(** The elements a [footnoteActions] closure captures are found by type. *)
Existing Class FootnoteElements.

(** [onActivate], [onDismiss]: code of the caller, run on (popover, button). *)
Definition Callback : Type := node → node → M unit.

(** [callback?.(popover, button)] *)
Definition invoke (callback : option Callback) (popover button : node) : M unit :=
  match callback with
  | Some f => record (InvokeCallback popover button);; f popover button
  | None => skip
  end.

Definition assignMaxHeight (value : number) : M unit :=
  λ w, Ok tt (mkWorld (document w) (render w) value (position w)
                (log w ++ [AssignMaxHeight value])).

Definition assignPosition (value : Position) : M unit :=
  λ w, Ok tt (mkWorld (document w) (render w) (maxHeight w) value
                (log w ++ [AssignPosition value])).

Section footnoteActions.

Context {elements : FootnoteElements}.

Definition isMounted : M bool :=
  gets (λ w, contains (document w) (body (document w)) (popover elements)).

Definition activate (onActivate : option Callback) : M unit :=
  setAttribute (button elements) "aria-expanded" "true";;
  addClass (button elements) CLASS_CHANGING;;
  addClass (button elements) CLASS_ACTIVE;;
  insertAdjacentElement_afterend (button elements) (popover elements);;
  bodyWidth ← gets (λ w, clientWidth (layout w) (body (document w)));
  setStyle (popover elements) "maxWidth" (toString bodyWidth +:+ "px");;
  height ← gets (λ w, getMaxHeight (layout w) (content elements));
  assignMaxHeight height;;
  invoke onActivate (popover elements) (button elements).

Definition dismiss (onDismiss : option Callback) : M unit :=
  setAttribute (button elements) "aria-expanded" "false";;
  addClass (button elements) CLASS_CHANGING;;
  removeClass (button elements) CLASS_ACTIVE;;
  removeClass (popover elements) CLASS_ACTIVE;;
  invoke onDismiss (popover elements) (button elements).

Definition isActive : M bool :=
  hasClass (button elements) CLASS_ACTIVE.

Definition isReady : M bool :=
  changing ← hasClass (button elements) CLASS_CHANGING;
  mret (negb changing).

Definition ready : M unit :=
  addClass (popover elements) CLASS_ACTIVE;;
  removeClass (button elements) CLASS_CHANGING.

Definition remove : M unit :=
  removeNode (popover elements);;
  removeClass (button elements) CLASS_CHANGING.

Definition reposition : M unit :=
  mounted ← isMounted;
  if (mounted : bool) then
    current ← gets position;
    '(next, height) ← repositionPopover (popover elements) (button elements) current;
    assignPosition next;;
    limit ← gets maxHeight;
    setStyle (content elements) "maxHeight" (toString (Math_min limit height) +:+ "px");;
    popoverHeight ← gets (λ w, offsetHeight (layout w) (popover elements));
    contentHeight ← gets (λ w, scrollHeight (layout w) (content elements));
    if num_lt popoverHeight contentHeight then
      addClass (popover elements) CLASS_SCROLLABLE;;
      setAttribute (content elements) "tabindex" "0"
    else
      removeClass (popover elements) CLASS_SCROLLABLE;;
      removeAttribute (content elements) "tabindex"
  else skip.

Definition resize : M unit :=
  mounted ← isMounted;
  if (mounted : bool) then
    left ← gets (λ w, getLeftInPixels (layout w) (content elements) (button elements));
    setStyle (popover elements) "left" (toString left +:+ "px");;
    width ← gets (λ w, offsetWidth (layout w) (content elements));
    setStyle (wrapper elements) "maxWidth" (toString width +:+ "px");;
    repositionTooltip (popover elements) (button elements)
  else skip.

Definition destroy : M unit :=
  removeNode (host elements).

End footnoteActions.

End Engine.

(** The closure variables as [footnoteActions] initialises them. *)
Definition initial_world (d : Document) (r : Document → Layout) : World :=
  mkWorld d r 0%float above [].

(** ** [scroll.ts] *)

Definition CLASS_FULLY_SCROLLED : string := "is-fully-scrolled".

Record WheelEvent := mkWheelEvent {
  currentTarget : option node;
  deltaY : number;
}.

Definition scrollHandler (popover : node) (event : WheelEvent) : M unit :=
  let content := currentTarget event in
  let delta := (- deltaY event)%float in
  (if num_gt delta 0%float then removeClass popover CLASS_FULLY_SCROLLED else skip);;
  match content with
  | Some content =>
      L ← gets layout;
      if num_le delta 0%float &&
         num_lt delta (clientHeight L content + scrollTop L content - scrollHeight L content)%float
      then addClass popover CLASS_FULLY_SCROLLED
      else skip
  | None => skip
  end.

(* ===================================================================== *)
(** * The event layer *)
(* ===================================================================== *)

Module Events.

(** The operations of the [UseCases] registry the listeners invoke. *)
Inductive Action :=
| toggle (id : string)
| hover (id : string)
| unhover (id : string)
| dismissAll
| touchOutside
| repositionAll
| resizeAll.

(** What a listener does that the outside can see. *)
Inductive Signal :=
| PreventDefault
| Invoke (a : Action)
| Uncaught (e : Exception).

(** Where an event is dispatched. *)
Inductive EventTarget :=
| AtWindow
| AtDocument
| AtElement (n : node).

Record Event := mkEvent {
  type : string;
  target : EventTarget;
  bubbles : bool;
  keyCode : option Z;
  key : option string;
}.

Definition SELECTOR_FOOTNOTE : Selector := HasAttribute "data-footnote-id".
Definition SELECTOR_BUTTON : Selector := HasAttribute "data-footnote-button".
Definition SELECTOR_POPOVER : Selector := HasAttribute "data-footnote-popover".

(** What a listener leaves: the signals it emitted, and the exception that
    ended it, if one did. *)
Definition Outcome : Type := list Signal * option Exception.

(** [(event.target as HTMLElement).closest(selector)]: only an element has
    the method. *)
Definition closestTarget (d : Document) (event : Event) (selector : Selector)
  : Exception + option node :=
  match target event with
  | AtElement n => inr (closest d n selector)
  | _ => inl TypeError
  end.

(** [element?.dataset.footnoteId] *)
Definition getFootnoteId (d : Document) (element : option node) : option string :=
  match element with
  | Some n => attributes (Dom.element d n) !! "data-footnote-id"
  | None => None
  end.

(** [if (id)]: the identifier, when it is one the test lets through. *)
Definition when_truthy (id : option string) : option string :=
  if truthy id then id else None.

Definition hoverHandler (action : string → Action) (d : Document) (event : Event) : Outcome :=
  match closestTarget d event SELECTOR_FOOTNOTE with
  | inl e => ([PreventDefault], Some e)
  | inr element =>
      match when_truthy (getFootnoteId d element) with
      | Some id => ([PreventDefault; Invoke (action id)], None)
      | None => ([PreventDefault], None)
      end
  end.

(** The listener [delegate] registers on the document. *)
Definition delegate (selector : Selector) (listener : Document → Event → Outcome)
    (d : Document) (event : Event) : Outcome :=
  match target event with
  | AtElement n =>
      match closest d n selector with
      | Some _ => listener d event
      | None => ([], None)
      end
  | _ => ([], Some TypeError)
  end.

Definition toggleOnTouch (d : Document) (event : Event) : Outcome :=
  match closestTarget d event SELECTOR_BUTTON with
  | inl e => ([], Some e)
  | inr element =>
      match when_truthy (getFootnoteId d element) with
      | Some id => ([PreventDefault; Invoke (toggle id)], None)
      | None =>
          match closestTarget d event SELECTOR_POPOVER with
          | inl e => ([], Some e)
          | inr None => ([Invoke touchOutside], None)
          | inr (Some _) => ([], None)
          end
      end
  end.

Definition dismissOnEscape (event : Event) : Outcome :=
  if bool_decide (keyCode event = Some 27%Z)
     || bool_decide (key event = Some "Escape")
     || bool_decide (key event = Some "Esc")
  then ([Invoke dismissAll], None)
  else ([], None).

(** ** The throttle *)

(** Modelled from the spec: the throttle primitive ([throttle] of the
    package the engine imports; its code is not part of the repository).  At
    most one invocation per [delay] milliseconds: a call outside the window
    is handled at once; a call inside the window replaces the pending one,
    which is handled when the window ends (the trailing invocation). *)
Record Throttle := mkThrottle {
  lastCalled : Z;
  timer : option Z;
}.

(** A call at time [now]: the new state, and whether the function ran. *)
Definition throttle_call (delay now : Z) (t : Throttle) : Throttle * bool :=
  let elapsed := (now - lastCalled t)%Z in
  if (delay <=? elapsed)%Z then (mkThrottle now None, true)
  else (mkThrottle (lastCalled t) (Some (lastCalled t + delay)%Z), false).

(** The pending call, if it is due at time [now]. *)
Definition throttle_fire (now : Z) (t : Throttle) : Throttle * bool :=
  match timer t with
  | Some due => if (due <=? now)%Z then (mkThrottle now None, true) else (t, false)
  | None => (t, false)
  end.

(** ** Listeners *)

(** The function of the source a listener is registered with: [onDocument]
    is [document.addEventListener], [onWindow] is [window.addEventListener]. *)
Inductive ListenerTarget :=
| OnDocument
| OnWindow.

Inductive Handler :=
| ToggleOnTouch
| DismissOnEscape
| ThrottledReposition
| ThrottledResize
| ShowOnHover
| HideOnHover.

Record Listener := mkListener {
  on : ListenerTarget;
  event_type : string;
  handler : Handler;
}.

(** One registration group: its listeners (all bound to the signal of one
    [AbortController]), the two throttles it created, the clock, and the
    signals emitted so far. *)
Record State := mkState {
  listeners : list Listener;
  aborted : bool;
  repositionThrottle : Throttle;
  resizeThrottle : Throttle;
  now : Z;
  emitted : list Signal;
}.

(** [addListeners(useCases)] at time [t]; nothing was throttled before
    ([lastCalled] starts at 0). *)
Definition addListeners (t : Z) : State :=
  mkState
    [ mkListener OnDocument "touchend" ToggleOnTouch;
      mkListener OnDocument "click" ToggleOnTouch;
      mkListener OnDocument "keyup" DismissOnEscape;
      mkListener OnDocument "gestureend" ThrottledReposition;
      mkListener OnWindow "scroll" ThrottledReposition;
      mkListener OnWindow "resize" ThrottledResize;
      mkListener OnDocument "mouseover" ShowOnHover;
      mkListener OnDocument "mouseout" HideOnHover ]
    false (mkThrottle 0 None) (mkThrottle 0 None) t [].

(** The function [addListeners] returns: [controller.abort()], which
    removes every listener bound to the signal. *)
Definition teardown (s : State) : State :=
  mkState [] true (repositionThrottle s) (resizeThrottle s) (now s) (emitted s).

Definition emit (out : Outcome) (s : State) : State :=
  mkState (listeners s) (aborted s) (repositionThrottle s) (resizeThrottle s) (now s)
    (emitted s ++ fst out ++ match snd out with Some e => [Uncaught e] | None => [] end).

Definition run_handler (h : Handler) (d : Document) (event : Event) (s : State) : State :=
  match h with
  | ToggleOnTouch => emit (toggleOnTouch d event) s
  | DismissOnEscape => emit (dismissOnEscape event) s
  | ShowOnHover => emit (delegate SELECTOR_FOOTNOTE (hoverHandler hover) d event) s
  | HideOnHover => emit (delegate SELECTOR_FOOTNOTE (hoverHandler unhover) d event) s
  | ThrottledReposition =>
      let '(t, ran) := throttle_call 16 (now s) (repositionThrottle s) in
      emit (if ran then [Invoke repositionAll] else [], None)
        (mkState (listeners s) (aborted s) t (resizeThrottle s) (now s) (emitted s))
  | ThrottledResize =>
      let '(t, ran) := throttle_call 16 (now s) (resizeThrottle s) in
      emit (if ran then [Invoke resizeAll] else [], None)
        (mkState (listeners s) (aborted s) (repositionThrottle s) t (now s) (emitted s))
  end.

(** Whether an event reaches the listeners of the group.  [onDocument] and
    [onWindow] are [addEventListener] taken off [document] and off [window]
    and called as plain functions; a method of the DOM called without a
    receiver acts on the global object, so the one as the other registers on
    the window.  A listener there is reached by an event dispatched at the
    window, and by an event that bubbles from the document or from an
    element of the document [d]; the path of an event dispatched on an
    element outside the document ends at the root of that element's tree
    and never gets to the window. *)
Definition reaches (d : Document) (event : Event) : bool :=
  match target event with
  | AtWindow => true
  | AtDocument => bubbles event
  | AtElement n => bubbles event && isConnected d n
  end.

Definition listens (d : Document) (event : Event) (l : Listener) : bool :=
  String.eqb (event_type l) (type event) && reaches d event.

(** Dispatching [event] while the document is [d]: the listeners of the
    group that the event reaches run in registration order. *)
Definition dispatch (d : Document) (event : Event) (s : State) : State :=
  fold_left (λ s l, run_handler (handler l) d event s)
    (List.filter (listens d event) (listeners s)) s.

(** Time passes until [t]: the pending throttled calls that are due run. *)
Definition advance (t : Z) (s : State) : State :=
  let '(t1, ran1) := throttle_fire t (repositionThrottle s) in
  let '(t2, ran2) := throttle_fire t (resizeThrottle s) in
  mkState (listeners s) (aborted s) t1 t2 (Z.max t (now s))
    (emitted s ++ (if ran1 then [Invoke repositionAll] else [])
               ++ (if ran2 then [Invoke resizeAll] else [])).

Inductive Step :=
| Dispatch (d : Document) (event : Event)
| Advance (t : Z)
| Teardown.

Definition step (s : State) (x : Step) : State :=
  match x with
  | Dispatch d event => dispatch d event s
  | Advance t => advance t s
  | Teardown => teardown s
  end.

Definition run (xs : list Step) (s : State) : State :=
  fold_left step xs s.

End Events.

(* ===================================================================== *)
(** * Setting the page up *)
(* ===================================================================== *)

(** The parts of [document.ts] that read and mark the page, number the
    footnotes and fill the templates in.  The parts that parse HTML
    ([createElementFromHTML], [prepareTemplateData], [createElements]) and
    the one that applies a regular expression of the settings
    ([findFootnoteLinks]) are not modelled. *)
Module Setup.

Definition CLASS_PRINT_ONLY : string := "littlefoot--print".

(** [array.forEach(f)] *)
Fixpoint forEach {A : Type} (f : A → M unit) (l : list A) : M unit :=
  match l with
  | [] => skip
  | x :: rest => f x;; forEach f rest
  end.

Definition setAllPrintOnly (elements : list node) : M unit :=
  forEach (λ e, addClass e CLASS_PRINT_ONLY) elements.

(** ** Queries *)




(** ** Hiding the containers of the footnotes *)

Section Hiding.

(** [el.tagName]: an element keeps the tag it was created with. *)
Variable tagName : node → string.

(** [:not(.littlefoot--print)] *)
Definition visible (d : Document) (n : node) : bool :=
  negb (token_contains CLASS_PRINT_ONLY (classList (element d n))).

(** The children of [container] that [:scope > :not(.littlefoot--print)]
    selects, and the [HR] elements among them. *)
Definition visibleElements (d : Document) (container : node) : list node :=
  List.filter (visible d) (childNodes (element d container)).
Definition visibleSeparators (d : Document) (container : node) : list node :=
  List.filter (λ el, String.eqb (tagName el) "HR") (visibleElements d container).

(** The recursion goes up one parent at a time; [fuel] bounds the number of
    steps.  An element without a parent element has a null [container], on
    which [querySelectorAll] cannot be called. *)
Fixpoint hide_from (fuel : nat) (element : node) : M unit :=
  d ← gets document;
  match parentNode (Dom.element d element) with
  | None => throw TypeError
  | Some container =>
      if (length (visibleElements d container)
          =? length (visibleSeparators d container))%nat
      then
        setAllPrintOnly (visibleSeparators d container ++ [container]);;
        match fuel with
        | O => skip
        | S fuel' => hide_from fuel' container
        end
      else skip
  end.

(** A chain of parents is no longer than the store. *)
Definition recursiveHideFootnoteContainer (element : node) : M unit :=
  d ← gets document;
  hide_from (size (nodes d)) element.

End Hiding.

(** ** Taking the footnotes off the page *)


(** ** Templates *)

(** [TemplateValues]; [number] counts footnotes, from 1. *)
Record TemplateValues := mkTemplateValues {
  number : nat;
  id : string;
  content : string;
  reference : string;
}.

Definition set_number (n : nat) (v : TemplateValues) : TemplateValues :=
  mkTemplateValues n (id v) (content v) (reference v).

(** [\w] *)
Definition is_word (c : ascii) : bool :=
  let n := nat_of_ascii c in
  (((48 <=? n) && (n <=? 57)) || ((65 <=? n) && (n <=? 90))
   || ((97 <=? n) && (n <=? 122)) || (n =? 95))%nat.

(** The white space of [\s] beyond U+00A0, in the three bytes of its UTF-8
    form: U+1680, U+2000 to U+200A, U+2028, U+2029, U+202F, U+205F, U+3000
    and U+FEFF. *)
Definition wide_space (c1 c2 c3 : ascii) : bool :=
  let '(a, b, c) := (nat_of_ascii c1, nat_of_ascii c2, nat_of_ascii c3) in
  (((a =? 225) && (b =? 154) && (c =? 128))
   || ((a =? 226) && (b =? 128)
       && (((128 <=? c) && (c <=? 138)) || (c =? 168) || (c =? 169) || (c =? 175)))
   || ((a =? 226) && (b =? 129) && (c =? 159))
   || ((a =? 227) && (b =? 128) && (c =? 128))
   || ((a =? 239) && (b =? 187) && (c =? 191)))%nat.

(** [\s*]: what follows the white space a string starts with.  A string is
    the UTF-8 form of the text; U+00A0 takes two bytes. *)
Fixpoint skip_white_space (s : string) : string :=
  match s with
  | String c1 rest1 =>
      if is_white_space c1 then skip_white_space rest1
      else if (nat_of_ascii c1 <? 194)%nat then s
      else
        match rest1 with
        | String c2 rest2 =>
            if (nat_of_ascii c1 =? 194)%nat && (nat_of_ascii c2 =? 160)%nat
            then skip_white_space rest2
            else
              match rest2 with
              | String c3 rest3 =>
                  if wide_space c1 c2 c3 then skip_white_space rest3 else s
              | EmptyString => s
              end
        | EmptyString => s
        end
  | EmptyString => s
  end.

(** [\w*]: the longest run of word characters a string starts with, and what
    follows it. *)
Fixpoint take_word (s : string) : string * string :=
  match s with
  | String c rest =>
      if is_word c
      then let '(word, after) := take_word rest in (String c word, after)
      else (EmptyString, s)
  | EmptyString => (EmptyString, EmptyString)
  end.

(** What follows [prefix] in [s], when [s] starts with it. *)
Fixpoint strip_prefix (prefix s : string) : option string :=
  match prefix, s with
  | EmptyString, _ => Some s
  | String p prefix', String c rest =>
      if Ascii.eqb p c then strip_prefix prefix' rest else None
  | String _ _, EmptyString => None
  end.

(** A match of [/<%=?\s*(\w+?)\s*%>/] at the head of [s]: the key, and what
    follows the match.  A key ends where the word characters end, since only
    white space or the closing mark may follow it. *)
Definition match_tag (s : string) : option (string * string) :=
  match strip_prefix "<%" s with
  | None => None
  | Some s1 =>
      let s2 := default s1 (strip_prefix "=" s1) in
      match take_word (skip_white_space s2) with
      | (EmptyString, _) => None
      | (key, s3) =>
          match strip_prefix "%>" (skip_white_space s3) with
          | Some after => Some (key, after)
          | None => None
          end
      end
  end.

(** [template.replace(/.../g, f)]: the matches are replaced from left to
    right, and the text a match was replaced with is not searched again.  A
    match is not empty, so that the length of the template bounds the number
    of steps. *)
Fixpoint replace_tags (fuel : nat) (f : string → string) (s : string) : string :=
  match fuel with
  | O => s
  | S fuel' =>
      match s with
      | EmptyString => EmptyString
      | String c rest =>
          match match_tag s with
          | Some (key, after) => f key +:+ replace_tags fuel' f after
          | None => String c (replace_tags fuel' f rest)
          end
      end
  end.

Section Templates.

(** [String(Object.prototype[key])] for the names every object inherits
    ([constructor], [toString], ...): text of the engine's choosing. *)
Variable inherited : string → option string.

(** [String(replacement[key] ?? '')] *)
Definition lookup (replacement : TemplateValues) (key : string) : string :=
  if String.eqb key "number" then pretty (number replacement)
  else if String.eqb key "id" then id replacement
  else if String.eqb key "content" then content replacement
  else if String.eqb key "reference" then reference replacement
  else default "" (inherited key).

Definition interpolate (template : string) (replacement : TemplateValues) : string :=
  replace_tags (String.length template) (lookup replacement) template.

End Templates.

(** ** Backlinks *)

Section Backlinks.

(** [parent.innerHTML]: the children of an element as the browser writes
    them out. *)
Variable innerHTML : Document → node → string.

(** Whether [html.replace(/(\[\]|&nbsp;|\s)/g, '')] is empty: [html] is made
    of [[]], [&nbsp;] and white space only.  Each step takes one of these
    off the head; the length of the text bounds the number of steps. *)
Fixpoint is_blank_from (fuel : nat) (html : string) : bool :=
  match html with
  | EmptyString => true
  | String _ _ =>
      match fuel with
      | O => false
      | S fuel' =>
          match strip_prefix "[]" html with
          | Some rest => is_blank_from fuel' rest
          | None =>
              match strip_prefix "&nbsp;" html with
              | Some rest => is_blank_from fuel' rest
              | None =>
                  let rest := skip_white_space html in
                  if (String.length rest <? String.length html)%nat
                  then is_blank_from fuel' rest
                  else false
              end
          end
      end
  end.

Definition is_blank (html : string) : bool :=
  is_blank_from (String.length html) html.

(** The recursion goes up one parent at a time; [fuel] bounds the number of
    steps. *)
Fixpoint unmount_from (fuel : nat) (element stopElement : node) : M unit :=
  parent ← gets (λ w, parentNode (Dom.element (document w) element));
  removeNode element;;
  match parent with
  | Some parent =>
      html ← gets (λ w, innerHTML (document w) parent);
      if negb (bool_decide (parent = stopElement)) && is_blank html
      then
        match fuel with
        | O => skip
        | S fuel' => unmount_from fuel' parent stopElement
        end
      else skip
  | None => skip
  end.

Definition recursiveUnmount (element stopElement : node) : M unit :=
  d ← gets document;
  unmount_from (size (nodes d)) element stopElement.

End Backlinks.

(** ** Numbering and references *)

Section Page.

(** [element.closest(selector)] on the page as it is while the footnotes are
    collected, for the selectors of the settings. *)
Variable closest_by : string → node → option node.

(** An entry of the list [setup] builds: the reference, the body, the values. *)
Definition Prepared : Type := node * node * TemplateValues.

(** The variables [resetNumbers] closes over: [number] and [previousParent]. *)
Record Numbering := mkNumbering {
  count : nat;
  previousParent : option node;
}.

(** The function [resetNumbers(resetSelector)] returns, from the state it
    finds to the state it leaves. *)
Definition resetNumbers (resetSelector : string) (st : Numbering) (item : Prepared)
  : Numbering * Prepared :=
  let '(reference, body, values) := item in
  let parent := closest_by resetSelector reference in
  let number := if decide (previousParent st = parent) then S (count st) else 1%nat in
  (mkNumbering number parent, (reference, body, set_number number values)).

(** [items.map(f)] for a function [f] that keeps a state between calls. *)
Fixpoint map_with {S A B : Type} (f : S → A → S * B) (st : S) (items : list A) : list B :=
  match items with
  | [] => []
  | x :: rest => let '(st', y) := f st x in y :: map_with f st' rest
  end.

(** [.map(numberResetSelector ? resetNumbers(numberResetSelector) : (i) => i)] *)
Definition number_footnotes (numberResetSelector : string) (items : list Prepared)
  : list Prepared :=
  if truthy (Some numberResetSelector)
  then map_with (resetNumbers numberResetSelector) (mkNumbering 0 None) items
  else items.

(** [link.href] and [element.id]. *)
Variable href : node → string.
Variable element_id : node → string.
(** [queryAll(document, '#' + CSS.escape(fragment))]: the elements with that
    identifier, in document order. *)
Variable by_id : string → list node.

Fixpoint before_hash (s : string) : string :=
  match s with
  | String c rest => if Ascii.eqb c "#" then EmptyString else String c (before_hash rest)
  | EmptyString => EmptyString
  end.

Fixpoint after_hash (s : string) : option string :=
  match s with
  | String c rest => if Ascii.eqb c "#" then Some rest else after_hash rest
  | EmptyString => None
  end.

(** [href.split('#')[1]] *)
Definition fragment_of (href : string) : option string :=
  before_hash <$> after_hash href.

(** The function [findReference(...)] returns, with the list [processed] it
    finds and the one it leaves. *)
Definition findReference (allowDuplicates : bool)
    (anchorParentSelector footnoteSelector : string)
    (processed : list node) (link : node)
  : list node * option (string * node * node) :=
  match fragment_of (href link) with
  | None => (processed, None)
  | Some fragment =>
      if negb (truthy (Some fragment)) then (processed, None)
      else
        match List.find
                (λ footnote, allowDuplicates || negb (bool_decide (footnote ∈ processed)))
                (by_id fragment) with
        | None => (processed, None)
        | Some footnote =>
            match closest_by footnoteSelector footnote with
            | None => (processed, None)
            | Some body =>
                let reference := default link (closest_by anchorParentSelector link) in
                ((processed ++ [body])%list,
                 Some (if truthy (Some (element_id reference))
                       then element_id reference else element_id link,
                       reference, body))
            end
        end
  end.

(** [links.map(findReference(...)).filter(isDefined)] *)
Definition references (allowDuplicates : bool)
    (anchorParentSelector footnoteSelector : string) (links : list node)
  : list (string * node * node) :=
  omap (λ x, x)
    (map_with (findReference allowDuplicates anchorParentSelector footnoteSelector) [] links).

End Page.

End Setup.


(* ===================================================================== *)
(** * The vocabulary of the properties *)
(* ===================================================================== *)

Section Vocabulary.

Context {builtins : Builtins} {elements : FootnoteElements}.

Local Open Scope float_scope.

(** The decision as the specification words it, over the five numbers it
    names: the top and the height of the button's rectangle, the rendered
    height of the popover, its vertical margin, and the height of the
    viewport. *)
Definition required_height (popoverHeight margin : number) : number :=
  popoverHeight + 2 * margin.
Definition room_above (buttonTop buttonHeight : number) : number :=
  buttonTop + buttonHeight / 2.
Definition room_below (buttonTop buttonHeight viewportHeight : number) : number :=
  viewportHeight - room_above buttonTop buttonHeight.
Definition placement (buttonTop buttonHeight popoverHeight margin viewportHeight : number)
  : Position :=
  if num_ge (room_below buttonTop buttonHeight viewportHeight)
            (required_height popoverHeight margin)
     || num_ge (room_below buttonTop buttonHeight viewportHeight)
               (room_above buttonTop buttonHeight)
  then below else above.

(** The document after the placement classes of [popover] were swapped. *)
Definition swap_placement (popover : node) (current next : Position) (d : Document) : Document :=
  update popover
    (λ e, set_classList (token_add ("is-" +:+ Position_to_string next) (classList e)) e)
    (update popover
       (λ e, set_classList (token_remove ("is-" +:+ Position_to_string current) (classList e)) e)
       d).

(** The transform origin [repositionPopover] computes once the classes are
    swapped. *)
Definition transform_origin (L : Layout) (button : node) (next : Position) : string :=
  (toString (getLeftRelative L button * 100) +:+ "%") +:+ " " +:+
  match next with above => "100%" | below => "0" end.

(** Whether the popover is attached to the document, as [isMounted] reads it. *)
Definition mounted (w : World) : bool :=
  contains (document w) (body (document w)) (popover elements).

(** Whether the button carries a class. *)
Definition button_has (class : string) (w : World) : bool :=
  token_contains class (classList (element (document w) (button elements))).

(** The document [remove] leaves. *)
Definition removed (d : Document) : Document :=
  update (button elements)
    (λ e, set_classList (token_remove CLASS_CHANGING (classList e)) e)
    (detach (popover elements) d).

(** [hoare P m Q]: from a world in [P], [m] leaves a world in [Q], whether it
    returns or throws. *)
Definition hoare {A} (P : World → Prop) (m : M A) (Q : World → Prop) : Prop :=
  ∀ w, P w → Q (world_of (m w)).

(** A property of the document alone. *)
Definition on_document (P : Document → Prop) : World → Prop :=
  λ w, P (document w).

Definition keeps {A} (P : Document → Prop) (m : M A) : Prop :=
  hoare (on_document P) m (on_document P).

(** The button exists and carries, or not, the "active" class. *)
Definition active_is (b : bool) (d : Document) : Prop :=
  is_Some (nodes d !! button elements)
  ∧ token_contains CLASS_ACTIVE (classList (element d (button elements))) = b.

(** A computation that always returns. *)
Definition returns {A} (m : M A) : Prop :=
  ∀ w, ∃ a w', m w = Ok a w'.

(** The calls a collaborator can make on a footnote, and what the browser
    does in between: render the page anew. *)
Inductive Call :=
| Activate
| Dismiss
| Ready
| Remove
| Reposition
| Resize
| Destroy
| Rerender (r : Document → Layout).

Definition call (c : Call) : M unit :=
  match c with
  | Activate => activate None
  | Dismiss => dismiss None
  | Ready => ready
  | Remove => remove
  | Reposition => reposition
  | Resize => resize
  | Destroy => destroy
  | Rerender r => λ w, Ok tt (mkWorld (document w) r (maxHeight w) (position w) (log w))
  end.

(** The world after a sequence of calls, made one after another; a call that
    throws leaves the world it reached. *)
Definition after_calls (cs : list Call) (w : World) : World :=
  fold_left (λ w c, world_of (call c w)) cs w.

(** The most recent of [activate] and [dismiss] in a sequence of calls:
    [Some true] for [activate], [Some false] for [dismiss], [None] when the
    sequence has neither. *)
Definition last_toggle (cs : list Call) : option bool :=
  fold_left
    (λ acc c, match c with Activate => Some true | Dismiss => Some false | _ => acc end)
    cs None.

(** [d'] has the nodes of [d], the same body, and the same parent for every
    node but [c]. *)
Definition same_but (c : node) (d d' : Document) : Prop :=
  body d' = body d
  ∧ size (nodes d') = size (nodes d)
  ∧ (∀ n, is_Some (nodes d' !! n) ↔ is_Some (nodes d !! n))
  ∧ (∀ n, n ≠ c → parentNode (element d' n) = parentNode (element d n)).

(** The document [dismiss] leaves. *)
Definition dismissed (d : Document) : Document :=
  update (popover elements)
    (λ e, set_classList (token_remove CLASS_ACTIVE (classList e)) e)
    (update (button elements)
       (λ e, set_classList (token_remove CLASS_ACTIVE (classList e)) e)
       (update (button elements)
          (λ e, set_classList (token_add CLASS_CHANGING (classList e)) e)
          (update (button elements)
             (λ e, set_attributes (<["aria-expanded" := "false"]> (attributes e)) e)
             d))).

(** The document [activate] has built when it inserts the popover. *)
Definition marked (d : Document) : Document :=
  update (button elements)
    (λ e, set_classList (token_add CLASS_ACTIVE (classList e)) e)
    (update (button elements)
       (λ e, set_classList (token_add CLASS_CHANGING (classList e)) e)
       (update (button elements)
          (λ e, set_attributes (<["aria-expanded" := "true"]> (attributes e)) e)
          d)).

(** The world [activate] has reached when it invokes the callback, given the
    document [dI] the insertion produced. *)
Definition activated (w : World) (dI : Document) : World :=
  let bodyWidth := clientWidth (render w dI) (body dI) in
  let d5 :=
    update (popover elements)
      (λ e, set_style (<["maxWidth" := toString bodyWidth +:+ "px"]> (style e)) e) dI in
  let height := getMaxHeight (render w d5) (content elements) in
  mkWorld d5 (render w) height (position w)
    (log w ++ [ SetAttribute (button elements) "aria-expanded" "true";
                ClassListAdd (button elements) CLASS_CHANGING;
                ClassListAdd (button elements) CLASS_ACTIVE;
                InsertAdjacentAfterEnd (button elements) (popover elements);
                SetStyle (popover elements) "maxWidth" (toString bodyWidth +:+ "px");
                AssignMaxHeight height ])%list.

(** Whether the popover carries the "fully scrolled" class. *)
Definition fully_scrolled (popover : node) (w : World) : bool :=
  token_contains CLASS_FULLY_SCROLLED (classList (element (document w) popover)).

(** The writes issued between two worlds. *)
Definition issued (w w' : World) : list Effect :=
  drop (length (log w)) (log w').

(** The test of the handler on the content region [content]. *)
Definition reached_bottom (L : Layout) (delta : number) (content : node) : bool :=
  num_le delta 0
  && num_lt delta (clientHeight L content + scrollTop L content - scrollHeight L content).

(** C4 as it is worded, for a wheel event the detector of [popover] handles
    on the content region [content]: scrolling towards the top removes the
    class, and the class is added exactly when the two tests hold for the
    region. *)
Definition scroll_claim (popover content : node) (event : WheelEvent) (w : World) : Prop :=
  let delta := - deltaY event in
  let w' := world_of (scrollHandler popover event w) in
  (num_gt delta 0 = true → ClassListRemove popover CLASS_FULLY_SCROLLED ∈ issued w w')
  ∧ (ClassListAdd popover CLASS_FULLY_SCROLLED ∈ issued w w'
     ↔ reached_bottom (layout w) delta content = true).

(** The maximum height the style sheets give the content: the one measured
    on the page when the content carries no inline [max-height]. *)
Definition natural_maxHeight (w : World) : number :=
  let d :=
    update (content elements) (λ e, set_style (delete "maxHeight" (style e)) e)
      (document w) in
  let L := render w d in
  Math_round (pixels L (getStyle L (content elements) "maxHeight") (content elements)).


End Vocabulary.

Section EventVocabulary.

Import Events.

(** C8 as it is worded, for an event dispatched on the element [n] while
    the group set up at time [t] listens: a target inside an element that
    carries the button marker and an identifier [id] toggles [id] and
    nothing else, with the default action suppressed; a target inside
    neither a button nor a popover signals a touch outside; any other target
    invokes nothing. *)
Definition toggle_claim (t : Z) (d : Document) (event : Event) (n : node) : Prop :=
  let inside_button := closest d n SELECTOR_BUTTON in
  let inside_popover := closest d n SELECTOR_POPOVER in
  let signals := emitted (dispatch d event (addListeners t)) in
  (∀ b id, inside_button = Some b →
           attributes (element d b) !! "data-footnote-id" = Some id →
           signals = [PreventDefault; Invoke (toggle id)])
  ∧ (inside_button = None → inside_popover = None →
     signals = [Invoke touchOutside])
  ∧ ((∀ b, inside_button = Some b → attributes (element d b) !! "data-footnote-id" = None) →
     is_Some inside_button ∨ is_Some inside_popover →
     ∀ a, Invoke a ∉ signals).

(** The identifier the handler acts on: that of the nearest element with the
    button marker, when it has one that is not empty. *)
Definition button_id (d : Document) (n : node) : option string :=
  when_truthy (getFootnoteId d (closest d n SELECTOR_BUTTON)).

(** C3 as it is worded, for a run of the group set up at time [t]:
    whatever happened [before] the teardown, nothing that happens [after] it
    makes the group emit anything. *)
Definition quiet_after_teardown (t : Z) (before after : list Step) : Prop :=
  let s := teardown (run before (addListeners t)) in
  emitted (run after s) = emitted s.

(** The pending throttled calls that are due at time [t]. *)
Definition due_calls (t : Z) (s : State) : list Signal :=
  ((if snd (throttle_fire t (repositionThrottle s)) then [Invoke repositionAll] else [])
   ++ (if snd (throttle_fire t (resizeThrottle s)) then [Invoke resizeAll] else []))%list.

(** Nothing is registered and nothing is pending. *)
Definition silent (s : State) : Prop :=
  listeners s = [] ∧ timer (repositionThrottle s) = None ∧ timer (resizeThrottle s) = None.

End EventVocabulary.

(** ** More vocabulary: the lifecycle *)

Section LifecycleVocabulary.

Context {builtins : Builtins} {elements : FootnoteElements}.

(** The button exists and carries, or not, the class [c]. *)
Definition class_is (c : string) (b : bool) (d : Document) : Prop :=
  is_Some (nodes d !! button elements)
  ∧ token_contains c (classList (element d (button elements))) = b.

(** The most recent call in a sequence that sets or clears the "changing"
    class: [Some false] after [activate] or [dismiss], which set it,
    [Some true] after [ready] or [remove], which clear it. *)
Definition last_transition (cs : list Call) : option bool :=
  fold_left
    (λ acc c, match c with
              | Activate | Dismiss => Some false
              | Ready | Remove => Some true
              | _ => acc
              end)
    cs None.

(** Two documents with the same tree, the same classes and the same
    attributes: they differ in inline styles at most. *)
Definition same_but_styles (d d' : Document) : Prop :=
  body d' = body d
  ∧ ∀ n, (is_Some (nodes d' !! n) ↔ is_Some (nodes d !! n))
         ∧ parentNode (element d' n) = parentNode (element d n)
         ∧ childNodes (element d' n) = childNodes (element d n)
         ∧ classList (element d' n) = classList (element d n)
         ∧ attributes (element d' n) = attributes (element d n).

(** The writes [repositionPopover] issues for the footnote in the world
    [w]: none when the decision is the stored position. *)
Definition placement_writes (w : World) : list Effect :=
  let next := fst (getFootnotePosition (layout w) (button elements) (popover elements)) in
  if decide (position w ≠ next)
  then [ ClassListRemove (popover elements) ("is-" +:+ Position_to_string (position w));
         ClassListAdd (popover elements) ("is-" +:+ Position_to_string next);
         SetStyle (popover elements) "transformOrigin"
           (transform_origin
              (render w (swap_placement (popover elements) (position w) next (document w)))
              (button elements) next) ]
  else [].

(** The document these writes leave. *)
Definition placed (w : World) : Document :=
  let next := fst (getFootnotePosition (layout w) (button elements) (popover elements)) in
  if decide (position w ≠ next)
  then
    let swapped := swap_placement (popover elements) (position w) next (document w) in
    update (popover elements)
      (λ e, set_style
              (<["transformOrigin" :=
                   transform_origin (render w swapped) (button elements) next]> (style e)) e)
      swapped
  else document w.

(** The document [d] with the content clipped to [value]. *)
Definition clipped (value : string) (d : Document) : Document :=
  update (content elements) (λ e, set_style (<["maxHeight" := value]> (style e)) e) d.

End LifecycleVocabulary.

(** ** More vocabulary: the page *)

Section SetupVocabulary.

Import Setup.

(** [d'] is [d] with the print-only class added to some elements, and
    nothing else changed. *)
Definition only_hidden (d d' : Document) : Prop :=
  body d' = body d
  ∧ size (nodes d') = size (nodes d)
  ∧ ∀ n, (is_Some (nodes d' !! n) ↔ is_Some (nodes d !! n))
         ∧ parentNode (element d' n) = parentNode (element d n)
         ∧ childNodes (element d' n) = childNodes (element d n)
         ∧ attributes (element d' n) = attributes (element d n)
         ∧ style (element d' n) = style (element d n)
         ∧ (∀ c, c ≠ CLASS_PRINT_ONLY →
                 token_contains c (classList (element d' n))
                 = token_contains c (classList (element d n)))
         ∧ (visible d' n = true → visible d n = true).

(** Every write is the addition of the print-only class to an element. *)
Definition marks_only (l : list Effect) : Prop :=
  ∀ e, e ∈ l → ∃ n, e = ClassListAdd n CLASS_PRINT_ONLY.



(** [d'] is [d] with some nodes other than [stop] taken off their parents:
    a node keeps its parent or has none, [stop] keeps its own, and classes,
    attributes and styles are as they were. *)
Definition only_removed (stop : node) (d d' : Document) : Prop :=
  body d' = body d
  ∧ size (nodes d') = size (nodes d)
  ∧ parentNode (element d' stop) = parentNode (element d stop)
  ∧ ∀ n, (is_Some (nodes d' !! n) ↔ is_Some (nodes d !! n))
         ∧ (parentNode (element d' n) = parentNode (element d n)
            ∨ parentNode (element d' n) = None)
         ∧ classList (element d' n) = classList (element d n)
         ∧ attributes (element d' n) = attributes (element d n)
         ∧ style (element d' n) = style (element d n).

(** Every character of [s] satisfies [p]. *)
Fixpoint all_chars (p : ascii → bool) (s : string) : bool :=
  match s with
  | String c rest => p c && all_chars p rest
  | EmptyString => true
  end.

End SetupVocabulary.


(* ===================================================================== *)
(** * A sample page *)
(* ===================================================================== *)

(** The two built-ins on the values the examples use. *)

(** The leading decimal digits of [s]: their value, their number, the rest. *)
Fixpoint take_digits (value : Z) (count : nat) (s : string) : Z * nat * string :=
  match s with
  | String c rest =>
      match digit_of c with
      | Some d => take_digits (10 * value + d)%Z (S count) rest
      | None => (value, count, s)
      end
  | EmptyString => (value, count, s)
  end.

(** A decimal literal without exponent, and whatever follows it. *)
Definition sample_parseFloat (s : string) : number :=
  let s := trim_start s in
  let '(negative, s) :=
    match s with
    | String "-" rest => (true, rest)
    | String "+" rest => (false, rest)
    | _ => (false, s)
    end in
  let '(whole, n1, rest) := take_digits 0 0 s in
  let '(fraction, n2, _) :=
    match rest with
    | String "." rest' => take_digits 0 0 rest'
    | _ => (0%Z, 0%nat, rest)
    end in
  if (n1 + n2 =? 0)%nat then PrimFloat.nan
  else
    let v := (of_Z (whole * 10 ^ Z.of_nat n2 + fraction) / of_Z (10 ^ Z.of_nat n2))%float in
    if negative then neg v else v.

Fixpoint zeros (n : nat) : string :=
  match n with
  | O => ""
  | S n' => String "0" (zeros n')
  end.

(** [s] without the zeros it ends in. *)
Fixpoint strip_zeros (s : string) : string :=
  match s with
  | EmptyString => ""
  | String c rest =>
      match strip_zeros rest with
      | EmptyString => if Ascii.eqb c "0" then "" else String c ""
      | rest' => String c rest'
      end
  end.

(** The exact decimal expansion of a number: what the language prints for
    the numbers whose shortest decimal form is exact. *)
Definition sample_toString (x : number) : string :=
  match Prim2SF x with
  | S754_zero _ => "0"
  | S754_infinity s => if s then "-Infinity" else "Infinity"
  | S754_nan => "NaN"
  | S754_finite s m e =>
      (if s then "-" else "") +:+
      if (0 <=? e)%Z then pretty (Z.pos m * 2 ^ e)%Z
      else
        let k := Z.to_nat (- e) in
        let scaled := (Z.pos m * 5 ^ Z.of_nat k)%Z in
        let whole := (scaled / 10 ^ Z.of_nat k)%Z in
        let fraction := pretty (scaled mod 10 ^ Z.of_nat k)%Z in
        match strip_zeros (zeros (k - String.length fraction) +:+ fraction) with
        | EmptyString => pretty whole
        | digits => pretty whole +:+ "." +:+ digits
        end
  end.

Definition sample_builtins : Builtins :=
  {| parseFloat := sample_parseFloat; toString := sample_toString |}.

(** One footnote: the host [1] holds the button [2]; the popover [3] holds
    the wrapper [4], which holds the content [5]. *)
Definition sample_elements : FootnoteElements :=
  mkFootnoteElements "1" 1 2 3 5 4.

Definition button_attributes : gmap string string :=
  list_to_map [("data-footnote-button", ""); ("data-footnote-id", "1");
               ("aria-expanded", "false")].

Definition popover_attributes : gmap string string :=
  list_to_map [("data-footnote-popover", ""); ("data-footnote-id", "1")].

(** The page before the footnote is activated: the popover is not in the
    document. *)
Definition sample_page : Document :=
  mkDocument
    (list_to_map
       [ (0, mkElement None [1] ∅ [] ∅);
         (1, mkElement (Some 0) [2] ∅ ["littlefoot"] ∅);
         (2, mkElement (Some 1) [] button_attributes [] ∅);
         (3, mkElement None [4] popover_attributes [] ∅);
         (4, mkElement (Some 3) [5] ∅ ["littlefoot__wrapper"] ∅);
         (5, mkElement (Some 4) [] ∅ ["littlefoot__content"] ∅) ])
    0.

(** The page while the footnote is open: the popover follows the button. *)
Definition sample_page_open : Document :=
  mkDocument
    (list_to_map
       [ (0, mkElement None [1] ∅ [] ∅);
         (1, mkElement (Some 0) [2; 3] ∅ ["littlefoot"] ∅);
         (2, mkElement (Some 1) [] (<["aria-expanded" := "true"]> button_attributes)
               ["is-active"] ∅);
         (3, mkElement (Some 1) [4] popover_attributes ["is-active"] ∅);
         (4, mkElement (Some 3) [5] ∅ ["littlefoot__wrapper"] ∅);
         (5, mkElement (Some 4) [] ∅ ["littlefoot__content"] ∅) ])
    0.

(** A viewport of 800 by 600; the button, 20 by 20, at (100, 300); a popover
    150 high with a margin of 10; a content region 200 high holding 300. *)
Definition sample_layout (d : Document) : Layout :=
  mkLayout
    (λ n, if decide (n = 2) then 20%float else 300%float)
    (λ n, if decide (n = 2) then 20%float else 150%float)
    (λ _, 800%float)
    (λ _, 200%float)
    (λ _, 0%float)
    (λ _, 300%float)
    (λ _, 100%float)
    (λ _, 300%float)
    (λ n property,
       if String.eqb property "marginTop" then "10px"
       else if String.eqb property "maxHeight" then "240px"
       else "0px")
    (λ length _, sample_parseFloat length)
    800%float
    600%float.

Definition sample_world : World :=
  initial_world sample_page sample_layout.

(** The same rendering with the content region scrolled to its end:
    [scrollTop = 100]. *)
Definition scrolled_layout (d : Document) : Layout :=
  mkLayout
    (λ n, if decide (n = 2) then 20%float else 300%float)
    (λ n, if decide (n = 2) then 20%float else 150%float)
    (λ _, 800%float)
    (λ _, 200%float)
    (λ _, 100%float)
    (λ _, 300%float)
    (λ _, 100%float)
    (λ _, 300%float)
    (λ n property,
       if String.eqb property "marginTop" then "10px"
       else if String.eqb property "maxHeight" then "240px"
       else "0px")
    (λ length _, sample_parseFloat length)
    800%float
    600%float.

(** A rendering in a viewport 500 high that computes the [max-height] of an
    element as the cascade does: the inline value when the element has one,
    the 240px of the style sheet when it has none. *)
Definition cascading_layout (d : Document) : Layout :=
  mkLayout
    (λ n, if decide (n = 2) then 20%float else 300%float)
    (λ n, if decide (n = 2) then 20%float else 150%float)
    (λ _, 800%float)
    (λ _, 200%float)
    (λ _, 0%float)
    (λ _, 300%float)
    (λ _, 100%float)
    (λ _, 300%float)
    (λ n property,
       if String.eqb property "marginTop" then "10px"
       else if String.eqb property "maxHeight"
            then default "240px" (style (element d n) !! "maxHeight")
       else "0px")
    (λ length _, sample_parseFloat length)
    800%float
    500%float.

Definition sample_world_open : World :=
  mkWorld sample_page_open sample_layout 240%float below [].

Definition sample_world_scrolled : World :=
  mkWorld sample_page_open scrolled_layout 240%float below [].

Definition click (n : node) : Events.Event :=
  Events.mkEvent "click" (Events.AtElement n) true None None.

(** A click made with [new Event('click')], which does not bubble unless
    the caller asks for it. *)
Definition plain_click (n : node) : Events.Event :=
  Events.mkEvent "click" (Events.AtElement n) false None None.

Definition scroll : Events.Event :=
  Events.mkEvent "scroll" Events.AtWindow false None None.

(** The footnote of the sample page with the content region taken for its
    button: a button inside its own popover. *)
Definition nested_elements : FootnoteElements :=
  mkFootnoteElements "1" 1 5 3 5 4.

(** The sample rendering of a page whose computed styles are not lengths. *)
Definition unstyled_layout (d : Document) : Layout :=
  mkLayout
    (λ n, if decide (n = 2) then 20%float else 300%float)
    (λ n, if decide (n = 2) then 20%float else 150%float)
    (λ _, 800%float)
    (λ _, 200%float)
    (λ _, 0%float)
    (λ _, 300%float)
    (λ _, 100%float)
    (λ _, 300%float)
    (λ _ _, "auto")
    (λ length _, sample_parseFloat length)
    800%float
    600%float.




(** Two links [10] and [11] to the one note of that page. *)
Definition notes_href (n : node) : string :=
  if decide (n = 10) then "http://example.org/page#fn1"
  else if decide (n = 11) then "http://example.org/page#fn1"
  else "http://example.org/page".

Definition notes_element_id (n : node) : string :=
  if decide (n = 10) then "fnref1"
  else if decide (n = 5) then "fn1"
  else "".

Definition notes_by_id (identifier : string) : list node :=
  if String.eqb identifier "fn1" then [5] else [].

Definition notes_closest_by (selector : string) (n : node) : option node :=
  if String.eqb selector "li" then (if decide (n = 5) then Some 5 else None)
  else None.

(** The body of a note: the content [0] holds a paragraph [1], which holds
    text and a superscript [2] around the backlink [3].  The markup of the
    superscript is that of the backlink while it holds it. *)
Definition note_body : Document :=
  mkDocument
    (list_to_map
       [ (0, mkElement None [1] ∅ [] ∅);
         (1, mkElement (Some 0) [2] ∅ [] ∅);
         (2, mkElement (Some 1) [3] ∅ [] ∅);
         (3, mkElement (Some 2) [] ∅ [] ∅) ])
    0.

Definition note_innerHTML (d : Document) (n : node) : string :=
  if decide (n = 2)
  then (if bool_decide (3 ∈ childNodes (element d 2)) then "<a>back</a>" else " ")
  else "A note.".

(* ===================================================================== *)
(** * The built-ins on sample values *)
(* ===================================================================== *)

Example parseInt_px : parseInt "10px" = 10%float.
Proof. reflexivity. Qed.
Example parseInt_neg : parseInt "  -7.5em" = (-7)%float.
Proof. reflexivity. Qed.
Example parseInt_empty : PrimFloat.is_nan (parseInt "") = true.
Proof. reflexivity. Qed.
Example parseInt_auto : PrimFloat.is_nan (parseInt "auto") = true.
Proof. reflexivity. Qed.
Example round_half : Math_round 2.5%float = 3%float.
Proof. reflexivity. Qed.
Example round_neg_half : Math_round (-2.5)%float = (-2)%float.
Proof. reflexivity. Qed.
Example round_neg_small : Prim2SF (Math_round (-0.25)%float) = S754_zero true.
Proof. reflexivity. Qed.
Example round_third : Math_round 7.25%float = 7%float.
Proof. reflexivity. Qed.
Example min_nan : PrimFloat.is_nan (Math_min 3%float PrimFloat.nan) = true.
Proof. reflexivity. Qed.
Example min_zero : Prim2SF (Math_min 0%float (-0)%float) = S754_zero true.
Proof. reflexivity. Qed.
Example parseFloat_px : sample_parseFloat "12.5px" = 12.5%float.
Proof. reflexivity. Qed.
Example parseFloat_none : PrimFloat.is_nan (sample_parseFloat "none") = true.
Proof. reflexivity. Qed.
Example toString_integral : sample_toString 800%float = "800".
Proof. vm_compute. reflexivity. Qed.
Example toString_fraction : sample_toString 12.5%float = "12.5".
Proof. vm_compute. reflexivity. Qed.
Example toString_negative : sample_toString (-0.25)%float = "-0.25".
Proof. vm_compute. reflexivity. Qed.

(* ===================================================================== *)
(** * Numbers *)
(* ===================================================================== *)

Section Numbers.

Local Open Scope float_scope.

Lemma SFcompare_Eq_sym (x y : spec_float) :
  SFcompare x y = Some Eq → SFcompare y x = Some Eq.
Proof.
  destruct x as [sx|sx| |sx mx ex], y as [sy|sy| |sy my ey]; simpl;
    try discriminate; try reflexivity;
    try (destruct sx; discriminate); try (destruct sy; discriminate).
  - destruct sx, sy; simpl; congruence.
  - destruct sx, sy; try discriminate;
      (destruct (Z.compare ex ey) eqn:E; try discriminate);
      apply Z.compare_eq in E; subst; rewrite Z.compare_refl;
      intro H; injection H as H.
    + destruct (Pos.compare_cont Eq mx my) eqn:E2; try discriminate.
      apply Pos.compare_eq in E2. subst. now rewrite Pos.compare_cont_refl.
    + apply Pos.compare_eq in H. subst. now rewrite Pos.compare_cont_refl.
Qed.

(** Two numbers that are [===] are [>=] each other. *)
Lemma strict_eq_ge (a b : number) : strict_eq a b = true → num_ge a b = true.
Proof.
  unfold strict_eq, num_ge.
  rewrite FloatAxioms.eqb_spec, FloatAxioms.leb_spec. unfold SFeqb, SFleb.
  destruct (SFcompare (Prim2SF a) (Prim2SF b)) as [[]|] eqn:E; try discriminate.
  intros _. apply SFcompare_Eq_sym in E. now rewrite E.
Qed.

Lemma SFadd_comm (p e : Z) (x y : spec_float) : SFadd p e x y = SFadd p e y x.
Proof.
  destruct x as [sx|sx| |sx mx ex], y as [sy|sy| |sy my ey]; simpl;
    try reflexivity; try (destruct sx, sy; reflexivity).
  rewrite (Z.min_comm ex ey). f_equal. apply Z.add_comm.
Qed.

Lemma add_comm (a b : number) : a + b = b + a.
Proof.
  apply Prim2SF_inj. rewrite !FloatAxioms.add_spec. apply SFadd_comm.
Qed.

End Numbers.

(* ===================================================================== *)
(** * The vertical placement decision *)
(* ===================================================================== *)

Section VerticalPlacement.

Local Open Scope float_scope.

(** C1. The position [getFootnotePosition] returns is [placement] of the
    button's rectangle, the popover's height and margin and the viewport's
    height, and of nothing else: [below] when the room below is at least the
    required height or at least the room above, [above] otherwise.  A tie
    between the room below and the room above, or between the room below and
    the required height, gives [below]. *)
Theorem vertical_placement_decision (L : Layout) (button popover : node) :
  let buttonTop := rect_top L button in
  let buttonHeight := offsetHeight L button in
  let popoverHeight := offsetHeight L popover in
  let margin := parseInt (getStyle L popover "marginTop") in
  let viewportHeight := innerHeight L in
  let roomAbove := room_above buttonTop buttonHeight in
  let roomBelow := room_below buttonTop buttonHeight viewportHeight in
  let required := required_height popoverHeight margin in
  let decision := fst (getFootnotePosition L button popover) in
  decision = placement buttonTop buttonHeight popoverHeight margin viewportHeight
  ∧ (num_ge roomBelow required = true ∨ num_ge roomBelow roomAbove = true → decision = below)
  ∧ (num_ge roomBelow required = false → num_ge roomBelow roomAbove = false → decision = above)
  ∧ (strict_eq roomBelow roomAbove = true → decision = below)
  ∧ (strict_eq roomBelow required = true → decision = below).
Proof.
  intros buttonTop buttonHeight popoverHeight margin viewportHeight
    roomAbove roomBelow required decision.
  assert (Hdec : decision
                 = if num_ge roomBelow required || num_ge roomBelow roomAbove
                   then below else above).
  { subst decision. unfold getFootnotePosition.
    fold buttonTop buttonHeight popoverHeight margin viewportHeight.
    fold (room_above buttonTop buttonHeight). fold roomAbove.
    replace (viewportHeight - roomAbove) with roomBelow by reflexivity.
    replace (2 * margin + popoverHeight) with required
      by (unfold required, required_height; apply add_comm).
    now destruct (num_ge roomBelow required || num_ge roomBelow roomAbove). }
  split; [exact Hdec|].
  rewrite Hdec. repeat split.
  - intros [-> | ->]; [reflexivity | now rewrite orb_true_r].
  - now intros -> ->.
  - intros H%strict_eq_ge. now rewrite H, orb_true_r.
  - intros H%strict_eq_ge. now rewrite H.
Qed.

End VerticalPlacement.

(* ===================================================================== *)
(** * Running code *)
(* ===================================================================== *)

(** Unfolds the monad and the DOM methods down to the world they produce. *)
Ltac run :=
  cbv beta iota delta
    [mbind M_bind mret M_ret gets record put_document modify skip throw
     setAttribute removeAttribute setStyle removeNode addClass removeClass hasClass
     assignMaxHeight assignPosition];
  cbn [document render maxHeight position log world_of].

(* ===================================================================== *)
(** * Repositioning the popover *)
(* ===================================================================== *)

Section Repositioning.

Context {builtins : Builtins}.

Local Open Scope float_scope.

(** C2. [repositionPopover] returns the decision of [getFootnotePosition]
    and the room on the chosen side less the margin and 15 pixels.  When the
    decision is the previous position the world is left as it was: no write
    is issued.  When it differs, the writes are exactly the removal of the
    old placement class, the addition of the new one and the assignment of
    the transform origin, in that order. *)
Theorem repositionPopover_transition (w : World) (popover button : node) (current : Position) :
  let L := layout w in
  let next := fst (getFootnotePosition L button popover) in
  let room := snd (getFootnotePosition L button popover) in
  let margin := parseInt (getStyle L popover "marginTop") in
  let chosen :=
    match next with
    | below => room_below (rect_top L button) (offsetHeight L button) (innerHeight L)
    | above => room_above (rect_top L button) (offsetHeight L button)
    end in
  room = chosen - margin - 15
  ∧ (current = next →
     repositionPopover popover button current w = Ok (next, room) w)
  ∧ (current ≠ next →
     ∃ w', repositionPopover popover button current w = Ok (next, room) w'
       ∧ log w' = (log w ++
           [ ClassListRemove popover ("is-" +:+ Position_to_string current);
             ClassListAdd popover ("is-" +:+ Position_to_string next);
             SetStyle popover "transformOrigin"
               (transform_origin (render w (swap_placement popover current next (document w)))
                  button next) ])%list
       ∧ document w' =
           update popover
             (λ e, set_style
                     (<["transformOrigin" :=
                          transform_origin
                            (render w (swap_placement popover current next (document w)))
                            button next]> (style e)) e)
             (swap_placement popover current next (document w))
       ∧ render w' = render w ∧ maxHeight w' = maxHeight w ∧ position w' = position w).
Proof.
  intros L next room margin chosen.
  split; [|split].
  - subst room chosen next L margin. unfold getFootnotePosition, room_below, room_above.
    now destruct (_ || _).
  - intros Heq. unfold repositionPopover. run. fold L.
    destruct (getFootnotePosition L button popover) as [n r] eqn:E.
    subst next room. cbn [fst snd] in *. subst n.
    destruct (decide (current ≠ current)) as [Hne|_]; [now destruct Hne|].
    run. now destruct w.
  - intros Hne. unfold repositionPopover. run. fold L.
    destruct (getFootnotePosition L button popover) as [n r] eqn:E.
    subst next room. cbn [fst snd] in *.
    destruct (decide (current ≠ n)) as [_|Heq]; [|now destruct Heq].
    run. eexists. split; [reflexivity|]. cbn [document render maxHeight position log].
    unfold layout. cbn [document render].
    rewrite <- !app_assoc. repeat split.
Qed.

End Repositioning.

(* ===================================================================== *)
(** * The document: facts *)
(* ===================================================================== *)

Section DocumentFacts.

Implicit Types (d : Document) (n m a x p : node) (f : Element → Element).

Lemma body_update n f d : body (update n f d) = body d.
Proof. reflexivity. Qed.

Lemma size_update n f d : size (nodes (update n f d)) = size (nodes d).
Proof.
  unfold update. cbn [nodes].
  rewrite <- !(size_dom (D := gset node)). now rewrite dom_alter_L.
Qed.

Lemma exists_update n f d m :
  is_Some (nodes (update n f d) !! m) ↔ is_Some (nodes d !! m).
Proof. apply lookup_alter_is_Some. Qed.

Lemma element_update_ne n f d m : n ≠ m → element (update n f d) m = element d m.
Proof.
  intros Hne. unfold element, update. cbn [nodes]. now rewrite lookup_alter_ne.
Qed.

Lemma element_update_eq n f d :
  is_Some (nodes d !! n) → element (update n f d) n = f (element d n).
Proof.
  intros [e He]. unfold element, update. cbn [nodes].
  now rewrite lookup_alter_eq, He.
Qed.

(** A projection that [f] leaves alone is left alone by the update. *)
Lemma project_update {A} (π : Element → A) n f d m :
  (∀ e, π (f e) = π e) → π (element (update n f d) m) = π (element d m).
Proof.
  intros Hf. unfold element, update. cbn [nodes]. rewrite lookup_alter.
  destruct (decide (n = m)) as [->|]; [|reflexivity].
  destruct (nodes d !! m); cbn; [apply Hf | reflexivity].
Qed.

Lemma update_id n f d : (∀ e, nodes d !! n = Some e → f e = e) → update n f d = d.
Proof.
  intros Hf. unfold update. rewrite alter_id by exact Hf. now destruct d.
Qed.

(** ** Class lists *)

Lemma token_contains_add c c' (l : list string) :
  token_contains c (token_add c' l) = bool_decide (c = c') || token_contains c l.
Proof.
  unfold token_add, token_contains.
  destruct (bool_decide (c' ∈ l)) eqn:E.
  - apply bool_decide_eq_true in E.
    destruct (bool_decide (c = c')) eqn:E'; [|reflexivity].
    apply bool_decide_eq_true in E'. subst. now apply bool_decide_eq_true.
  - rewrite <- bool_decide_or. apply bool_decide_ext.
    rewrite elem_of_app, list_elem_of_singleton. tauto.
Qed.

Lemma token_contains_remove c c' (l : list string) :
  token_contains c (token_remove c' l) = negb (bool_decide (c = c')) && token_contains c l.
Proof.
  unfold token_remove, token_contains.
  rewrite <- bool_decide_not, <- bool_decide_and. apply bool_decide_ext.
  now rewrite list_elem_of_filter.
Qed.

Lemma token_remove_idemp c (l : list string) :
  token_remove c (token_remove c l) = token_remove c l.
Proof. unfold token_remove. now apply list_filter_filter_l. Qed.

Lemma token_remove_absent c (l : list string) :
  token_contains c l = false → token_remove c l = l.
Proof.
  unfold token_contains, token_remove. intros H. apply bool_decide_eq_false in H.
  induction l as [|y l IH]; [reflexivity|].
  rewrite filter_cons_True.
  - f_equal. apply IH. intros Hin. apply H. apply elem_of_cons. now right.
  - intros ->. apply H. apply elem_of_cons. now left.
Qed.

(** ** Siblings *)

Lemma following_insert_after (ref new : node) (l : list node) :
  ref ∈ l → following ref (insert_after ref new l) = Some new.
Proof.
  induction l as [|y l IH]; intros Hin; [now apply elem_of_nil in Hin|].
  cbn. destruct (decide (y = ref)) as [->|Hne]; cbn.
  - now rewrite decide_True.
  - rewrite decide_False by exact Hne. apply IH.
    apply elem_of_cons in Hin as [->|]; [now destruct Hne | assumption].
Qed.

(** ** Ancestors *)

Lemma inclusive_ancestor_mono (k k' : nat) d a x :
  (k ≤ k')%nat → inclusive_ancestor k d a x = true → inclusive_ancestor k' d a x = true.
Proof.
  revert k' x. induction k as [|k IH]; intros k' x Hle; cbn.
  - rewrite orb_false_r. intros H. destruct k'; cbn; now rewrite H.
  - destruct k' as [|k']; [lia|]. cbn.
    destruct (bool_decide (a = x)); [reflexivity|]. cbn.
    destruct (parentNode (element d x)); [|discriminate].
    apply IH. lia.
Qed.

(** *** The walks reach the end of the chain

    In a document where the chain of parents from [x] ends, the chain has no
    more nodes than the store, so that [contains] and [closest] walk all of
    it. *)

Lemma ancestors_functional d x l l' : ancestors d x l → ancestors d x l' → l = l'.
Proof.
  intros H. revert l'. induction H as [x Hx|x p l Hx _ IH]; intros l' H'.
  - destruct H' as [|x p' l' Hx']; [reflexivity | congruence].
  - destruct H' as [x Hx'|x p' l' Hx' H']; [congruence|].
    assert (p' = p) as -> by congruence. f_equal. now apply IH.
Qed.

Lemma ancestors_suffix d x l y :
  ancestors d x l → y ∈ l → ∃ l', ancestors d y l' ∧ (length l' < length l)%nat.
Proof.
  intros H. induction H as [x Hx|x p l Hx H IH]; intros Hin.
  - now apply elem_of_nil in Hin.
  - apply elem_of_cons in Hin as [->|Hin].
    + exists l. split; [exact H | cbn; lia].
    + destruct (IH Hin) as (l' & Hl' & Hlen). exists l'. split; [exact Hl' | cbn; lia].
Qed.

Lemma ancestors_not_in d x l : ancestors d x l → x ∉ l.
Proof.
  intros H Hin. destruct (ancestors_suffix _ _ _ _ H Hin) as (l' & Hl' & Hlen).
  rewrite (ancestors_functional _ _ _ _ Hl' H) in Hlen. lia.
Qed.

Lemma ancestors_length d x l (visited : gset node) :
  ancestors d x l →
  visited ⊆ dom (nodes d) →
  (∀ y, y ∈ visited → y ∉ x :: l) →
  (length l + size visited ≤ size (nodes d))%nat.
Proof.
  intros H. revert visited. induction H as [x Hx|x p l Hx H IH]; intros visited Hsub Hfresh.
  - cbn. rewrite <- (size_dom (D := gset node)). now apply subseteq_size.
  - assert (Hex : x ∈ dom (nodes d)).
    { apply elem_of_dom. unfold element in Hx.
      destruct (nodes d !! x); [eauto | discriminate]. }
    assert (Hx_new : x ∉ visited).
    { intros Hv. apply (Hfresh x Hv). apply elem_of_cons. now left. }
    specialize (IH ({[x]} ∪ visited)).
    rewrite size_union, size_singleton in IH by set_solver.
    cbn [length]. enough (length l + (1 + size visited) ≤ size (nodes d))%nat by lia.
    apply IH.
    { apply union_subseteq. split; [now apply singleton_subseteq_l | exact Hsub]. }
    intros y Hy. apply elem_of_union in Hy as [Hy|Hy].
    + apply elem_of_singleton in Hy as ->.
      apply (ancestors_not_in d x (p :: l)). now apply ancestors_parent.
    + intros Hin. apply (Hfresh y Hy). apply elem_of_cons. now right.
Qed.

Lemma inclusive_ancestor_complete (k : nat) d a x l :
  ancestors d x l → (length l ≤ k)%nat →
  inclusive_ancestor k d a x = bool_decide (a ∈ x :: l).
Proof.
  intros H. revert k. induction H as [x Hx|x p l Hx H IH]; intros k Hk.
  - destruct k; cbn; rewrite ?Hx, orb_false_r; apply bool_decide_ext;
      now rewrite list_elem_of_singleton.
  - destruct k as [|k]; [cbn in Hk; lia|]. cbn [inclusive_ancestor]. rewrite Hx.
    rewrite IH by (cbn in Hk; lia). rewrite <- bool_decide_or.
    apply bool_decide_ext. now rewrite (elem_of_cons (p :: l)).
Qed.

(** [a.contains(x)] holds exactly when [a] is [x] or one of its ancestors. *)
Lemma contains_complete d a x l :
  ancestors d x l → contains d a x = bool_decide (a ∈ x :: l).
Proof.
  intros H. apply inclusive_ancestor_complete; [exact H|].
  pose proof (ancestors_length d x l ∅ H) as Hlen.
  rewrite size_empty in Hlen. rewrite Nat.add_0_r in Hlen.
  apply Hlen; set_solver.
Qed.

Lemma closest_from_complete (k : nat) d sel x l :
  ancestors d x l → (length l ≤ k)%nat →
  closest_from k d sel x = List.find (λ n, matches d n sel) (x :: l).
Proof.
  intros H. revert k. induction H as [x Hx|x p l Hx H IH]; intros k Hk.
  - destruct k; cbn; rewrite ?Hx; now destruct (matches d x sel).
  - destruct k as [|k]; [cbn in Hk; lia|]. cbn [closest_from List.find]. rewrite Hx.
    rewrite IH by (cbn in Hk; lia). reflexivity.
Qed.

(** [x.closest(selector)] is the first of [x] and its ancestors, the nearest
    first, that matches. *)
Lemma closest_complete d sel x l :
  ancestors d x l → closest d x sel = List.find (λ n, matches d n sel) (x :: l).
Proof.
  intros H. apply closest_from_complete; [exact H|].
  pose proof (ancestors_length d x l ∅ H) as Hlen.
  rewrite size_empty in Hlen. rewrite Nat.add_0_r in Hlen.
  apply Hlen; set_solver.
Qed.

(** The walk from [x] sees the parents of the nodes it visits only: two
    documents that agree on those give the same answer.  When [x] has no
    inclusive ancestor [c] within [k] steps, the walk does not visit [c]. *)
Lemma inclusive_ancestor_frame (k : nat) d d' c a x :
  (∀ n, n ≠ c → parentNode (element d' n) = parentNode (element d n)) →
  inclusive_ancestor k d c x = false →
  inclusive_ancestor k d' a x = inclusive_ancestor k d a x.
Proof.
  intros Hsame. revert x. induction k as [|k IH]; intros x; cbn; [reflexivity|].
  destruct (bool_decide (c = x)) eqn:Ecx; [discriminate|]. cbn.
  apply bool_decide_eq_false in Ecx.
  rewrite Hsame by congruence.
  destruct (parentNode (element d x)) as [q|]; [|reflexivity].
  intros Hq. now rewrite IH.
Qed.

(** Writes that leave every parent alone leave [contains] alone. *)
Lemma inclusive_ancestor_same_parents (k : nat) d d' a x :
  (∀ n, parentNode (element d' n) = parentNode (element d n)) →
  inclusive_ancestor k d' a x = inclusive_ancestor k d a x.
Proof.
  intros Hsame. revert x. induction k as [|k IH]; intros x; cbn; [reflexivity|].
  rewrite Hsame. destruct (parentNode (element d x)); [|reflexivity]. now rewrite IH.
Qed.

Lemma contains_update n f d a x :
  (∀ e, parentNode (f e) = parentNode e) →
  contains (update n f d) a x = contains d a x.
Proof.
  intros Hf. unfold contains. rewrite size_update.
  apply inclusive_ancestor_same_parents. intros m. now apply project_update.
Qed.

(** ** Detaching *)

Lemma size_detach n d : size (nodes (detach n d)) = size (nodes d).
Proof.
  unfold detach. destruct (parentNode (element d n)); [|reflexivity].
  now rewrite !size_update.
Qed.

Lemma body_detach n d : body (detach n d) = body d.
Proof. unfold detach. now destruct (parentNode (element d n)). Qed.

Lemma parentNode_detach_eq n d : parentNode (element (detach n d) n) = None.
Proof.
  unfold detach. destruct (parentNode (element d n)) as [p|] eqn:E; [|exact E].
  assert (Hn : is_Some (nodes d !! n)).
  { unfold element in E. destruct (nodes d !! n); [eauto | discriminate]. }
  rewrite element_update_eq; [reflexivity|]. now apply exists_update.
Qed.

Lemma parentNode_detach_ne n d m :
  m ≠ n → parentNode (element (detach n d) m) = parentNode (element d m).
Proof.
  intros Hne. unfold detach. destruct (parentNode (element d n)) as [p|]; [|reflexivity].
  rewrite element_update_ne by congruence. now apply project_update.
Qed.

Lemma detach_detached n d : parentNode (element d n) = None → detach n d = d.
Proof. intros H. unfold detach. now rewrite H. Qed.

(** A node without a parent is contained in no other node. *)
Lemma contains_detached d a x :
  parentNode (element d x) = None → a ≠ x → contains d a x = false.
Proof.
  intros Hp Hne. unfold contains.
  destruct (size (nodes d)); cbn; rewrite bool_decide_eq_false_2 by exact Hne;
    [reflexivity | now rewrite Hp].
Qed.

Lemma exists_detach n d m :
  is_Some (nodes (detach n d) !! m) ↔ is_Some (nodes d !! m).
Proof.
  unfold detach. destruct (parentNode (element d n)); [|reflexivity].
  now rewrite !exists_update.
Qed.

Lemma classList_detach n d m : classList (element (detach n d) m) = classList (element d m).
Proof.
  unfold detach. destruct (parentNode (element d n)); [|reflexivity].
  now rewrite !(project_update classList).
Qed.

End DocumentFacts.

(* ===================================================================== *)
(** * The lifecycle of a footnote *)
(* ===================================================================== *)

Lemma issued_app (w w' : World) (l : list Effect) :
  log w' = (log w ++ l)%list → issued w w' = l.
Proof. intros H. unfold issued. rewrite H. apply drop_app_length. Qed.

Section Lifecycle.

Context {builtins : Builtins} {elements : FootnoteElements}.

Lemma isMounted_reads (w : World) : isMounted w = Ok (mounted w) w.
Proof. reflexivity. Qed.

Lemma isActive_reads (w : World) : isActive w = Ok (button_has CLASS_ACTIVE w) w.
Proof. reflexivity. Qed.

Lemma isReady_reads (w : World) :
  isReady w = Ok (negb (button_has CLASS_CHANGING w)) w.
Proof. reflexivity. Qed.

(** C7. While the popover is not attached to the document, [reposition] and
    [resize] return normally and leave the world exactly as it was: the
    document, the closure's [position] and [maxHeight], and the record of
    writes, to which nothing is added. *)
Theorem detached_reposition_resize_noop (w : World) :
  mounted w = false →
  reposition w = Ok tt w
  ∧ resize w = Ok tt w.
Proof.
  intros H. unfold mounted in H. unfold reposition, resize, isMounted. run.
  now rewrite H.
Qed.

Lemma remove_runs (w : World) :
  remove w
  = Ok tt (mkWorld (removed (document w)) (render w) (maxHeight w) (position w)
             (log w ++ [RemoveNode (popover elements);
                        ClassListRemove (button elements) CLASS_CHANGING])%list).
Proof. unfold remove. run. now rewrite <- app_assoc. Qed.

Lemma removed_popover_detached (d : Document) :
  parentNode (element (removed d) (popover elements)) = None.
Proof.
  unfold removed. rewrite (project_update parentNode) by reflexivity.
  apply parentNode_detach_eq.
Qed.

Lemma removed_not_changing (d : Document) :
  token_contains CLASS_CHANGING (classList (element (removed d) (button elements))) = false.
Proof.
  unfold removed, element, update. cbn [nodes]. rewrite lookup_alter_eq.
  destruct (nodes (detach (popover elements) d) !! button elements); cbn; [|reflexivity].
  rewrite token_contains_remove. now rewrite bool_decide_eq_true_2.
Qed.

Lemma removed_idemp (d : Document) : removed (removed d) = removed d.
Proof.
  unfold removed at 1.
  rewrite detach_detached by apply removed_popover_detached.
  apply update_id. intros e He.
  assert (Hc : classList e = token_remove CLASS_CHANGING (classList e)).
  { unfold removed, update in He. cbn [nodes] in He. rewrite lookup_alter_eq in He.
    destruct (nodes (detach (popover elements) d) !! button elements) as [e0|];
      [|discriminate].
    injection He as <-. cbn [classList set_classList]. now rewrite token_remove_idemp. }
  destruct e as [pn cn at_ cl st]. cbn in *. now rewrite <- Hc.
Qed.

(** C10. [remove] is idempotent: it never throws, and a second [remove]
    leaves the document and the closure's variables exactly as the first one
    left them, with the popover detached and the button without the
    "changing" class; so does a [remove] of a popover that was never
    attached. *)
Theorem remove_idempotent (w : World) :
  ∃ w1 w2,
    remove w = Ok tt w1
    ∧ remove w1 = Ok tt w2
    ∧ document w2 = document w1
    ∧ maxHeight w2 = maxHeight w1 ∧ position w2 = position w1 ∧ render w2 = render w1
    ∧ parentNode (element (document w1) (popover elements)) = None
    ∧ button_has CLASS_CHANGING w1 = false
    ∧ (popover elements ≠ body (document w) → mounted w1 = false)
    ∧ (parentNode (element (document w) (popover elements)) = None →
       button_has CLASS_CHANGING w = false →
       document w1 = document w).
Proof.
  eexists _, _. split; [apply remove_runs|]. split; [apply remove_runs|].
  cbn [document maxHeight position render]. unfold button_has, mounted.
  cbn [document].
  split; [apply removed_idemp|]. do 3 (split; [reflexivity|]).
  split; [apply removed_popover_detached|].
  split; [apply removed_not_changing|].
  split.
  - intros Hne. apply contains_detached; [apply removed_popover_detached|].
    unfold removed. rewrite body_update, body_detach. congruence.
  - intros Hp Hc. unfold removed. rewrite detach_detached by exact Hp.
    apply update_id. intros e He.
    unfold element in Hc. rewrite He in Hc. cbn in Hc.
    assert (Hl : token_remove CLASS_CHANGING (classList e) = classList e)
      by now apply token_remove_absent.
    destruct e as [pn cn at_ cl st]. cbn in *. now rewrite Hl.
Qed.

(** ** What a sequence of calls leaves *)

Lemma hoare_bind {A B} (P R Q : World → Prop) (m : M A) (k : A → M B) :
  hoare P m R → (∀ a, hoare R (k a) Q) → (∀ w, R w → Q w) → hoare P (m ≫= k) Q.
Proof.
  intros Hm Hk HRQ w Hw. unfold mbind, M_bind.
  specialize (Hm w Hw). destruct (m w) as [a w'|e w']; cbn in *.
  - now apply Hk.
  - now apply HRQ.
Qed.

Lemma keeps_bind {A B} P (m : M A) (k : A → M B) :
  keeps P m → (∀ a, keeps P (k a)) → keeps P (m ≫= k).
Proof. intros Hm Hk. eapply hoare_bind; eauto. Qed.

Lemma keeps_gets {A} P (f : World → A) : keeps P (gets f).
Proof. now intros w Hw. Qed.

Lemma keeps_mret {A} P (a : A) : keeps P (mret a).
Proof. now intros w Hw. Qed.

Lemma keeps_skip P : keeps P skip.
Proof. now intros w Hw. Qed.

Lemma keeps_throw {A} P e : keeps P (throw e : M A).
Proof. now intros w Hw. Qed.

Lemma keeps_record P e : keeps P (record e).
Proof. now intros w Hw. Qed.

Lemma keeps_assignMaxHeight P v : keeps P (assignMaxHeight v).
Proof. now intros w Hw. Qed.

Lemma keeps_assignPosition P v : keeps P (assignPosition v).
Proof. now intros w Hw. Qed.

Lemma keeps_modify P (f : Document → Document) :
  (∀ d, P d → P (f d)) → keeps P (modify f).
Proof. intros Hf w Hw. now apply Hf. Qed.

Lemma active_is_update b n f d :
  (∀ e, classList (f e) = classList e) → active_is b d → active_is b (update n f d).
Proof.
  intros Hf [Hex Hb]. split; [now apply exists_update|].
  now rewrite (project_update classList).
Qed.

Lemma active_is_detach b n d : active_is b d → active_is b (detach n d).
Proof.
  intros [Hex Hb]. split; [now apply exists_detach | now rewrite classList_detach].
Qed.

Lemma active_is_update_class b n (g : list string → list string) d :
  (n = button elements →
   ∀ l, token_contains CLASS_ACTIVE (g l) = token_contains CLASS_ACTIVE l) →
  active_is b d →
  active_is b (update n (λ e, set_classList (g (classList e)) e) d).
Proof.
  intros Hg [Hex Hb]. split; [now apply exists_update|].
  destruct (decide (n = button elements)) as [->|Hne].
  - rewrite element_update_eq by exact Hex. cbn. now rewrite Hg.
  - now rewrite element_update_ne.
Qed.

Lemma keeps_setAttribute b n k v : keeps (active_is b) (setAttribute n k v).
Proof.
  apply keeps_bind; [apply keeps_record | intros _].
  apply keeps_modify. intros d. now apply active_is_update.
Qed.

Lemma keeps_removeAttribute b n k : keeps (active_is b) (removeAttribute n k).
Proof.
  apply keeps_bind; [apply keeps_record | intros _].
  apply keeps_modify. intros d. now apply active_is_update.
Qed.

Lemma keeps_setStyle b n k v : keeps (active_is b) (setStyle n k v).
Proof.
  apply keeps_bind; [apply keeps_record | intros _].
  apply keeps_modify. intros d. now apply active_is_update.
Qed.

Lemma keeps_removeNode b n : keeps (active_is b) (removeNode n).
Proof.
  apply keeps_bind; [apply keeps_record | intros _].
  apply keeps_modify. intros d. now apply active_is_detach.
Qed.

Lemma keeps_insertAdjacentElement b ref new :
  keeps (active_is b) (insertAdjacentElement_afterend ref new).
Proof.
  apply keeps_bind; [apply keeps_record | intros _].
  intros w Hw. unfold mbind, M_bind, gets. unfold insert_afterend.
  destruct (parentNode (element (document w) ref)) as [p|]; [|exact Hw].
  destruct (contains (document w) new p); [exact Hw|].
  destruct (decide (new = ref)); [exact Hw|].
  cbn. unfold on_document. cbn.
  apply active_is_update; [reflexivity|].
  apply active_is_update; [reflexivity|].
  now apply active_is_detach.
Qed.

Lemma keeps_addClass b n c :
  n ≠ button elements ∨ c ≠ CLASS_ACTIVE → keeps (active_is b) (addClass n c).
Proof.
  intros Hnc. apply keeps_bind; [apply keeps_record | intros _].
  apply keeps_modify. intros d. apply active_is_update_class.
  intros -> l. rewrite token_contains_add.
  destruct Hnc as [Hn|Hc]; [now destruct Hn|].
  now rewrite bool_decide_eq_false_2 by congruence.
Qed.

Lemma keeps_removeClass b n c :
  n ≠ button elements ∨ c ≠ CLASS_ACTIVE → keeps (active_is b) (removeClass n c).
Proof.
  intros Hnc. apply keeps_bind; [apply keeps_record | intros _].
  apply keeps_modify. intros d. apply active_is_update_class.
  intros -> l. rewrite token_contains_remove.
  destruct Hnc as [Hn|Hc]; [now destruct Hn|].
  now rewrite bool_decide_eq_false_2 by congruence.
Qed.

Ltac keeps_step :=
  lazymatch goal with
  | |- keeps _ (gets _) => apply keeps_gets
  | |- keeps _ (mret _) => apply keeps_mret
  | |- keeps _ skip => apply keeps_skip
  | |- keeps _ (record _) => apply keeps_record
  | |- keeps _ (assignMaxHeight _) => apply keeps_assignMaxHeight
  | |- keeps _ (assignPosition _) => apply keeps_assignPosition
  | |- keeps _ (setAttribute _ _ _) => apply keeps_setAttribute
  | |- keeps _ (removeAttribute _ _) => apply keeps_removeAttribute
  | |- keeps _ (setStyle _ _ _) => apply keeps_setStyle
  | |- keeps _ (removeNode _) => apply keeps_removeNode
  | |- keeps _ (insertAdjacentElement_afterend _ _) => apply keeps_insertAdjacentElement
  | |- keeps _ (addClass _ _) => apply keeps_addClass
  | |- keeps _ (removeClass _ _) => apply keeps_removeClass
  | |- keeps _ (mbind _ _) => apply keeps_bind; [ | intros ]
  | |- keeps _ (if ?b then _ else _) => destruct b
  | |- keeps _ (match ?x with _ => _ end) => destruct x
  end.

Ltac as_keeps :=
  cbv beta;
  lazymatch goal with
  | |- hoare (on_document ?P) ?m (on_document ?P) => change (keeps P m)
  end.

Hypothesis distinct : button elements ≠ popover elements.

Lemma keeps_ready b : keeps (active_is b) ready.
Proof.
  unfold ready. repeat keeps_step; [left; congruence | right; discriminate].
Qed.

Lemma keeps_remove b : keeps (active_is b) remove.
Proof. unfold remove. repeat keeps_step. right; discriminate. Qed.

Lemma keeps_destroy b : keeps (active_is b) destroy.
Proof. unfold destroy. repeat keeps_step. Qed.

Lemma keeps_repositionPopover b current :
  keeps (active_is b)
    (repositionPopover (popover elements) (button elements) current).
Proof.
  unfold repositionPopover. repeat keeps_step; left; congruence.
Qed.

Lemma keeps_reposition b : keeps (active_is b) reposition.
Proof.
  unfold reposition, isMounted.
  repeat first [apply keeps_repositionPopover | keeps_step]; left; congruence.
Qed.

Lemma keeps_resize b : keeps (active_is b) resize.
Proof.
  unfold resize, isMounted, repositionTooltip. repeat keeps_step.
Qed.

Lemma hoare_seq {A B} (P R Q : World → Prop) (m : M A) (k : A → M B) :
  returns m → hoare P m R → (∀ a, hoare R (k a) Q) → hoare P (m ≫= k) Q.
Proof.
  intros Hret Hm Hk w Hw. unfold mbind, M_bind.
  specialize (Hm w Hw). destruct (Hret w) as (a & w' & E). rewrite E in *. cbn in *.
  now apply Hk.
Qed.

Lemma returns_setAttribute n k v : returns (setAttribute n k v).
Proof. intros w. now eexists _, _. Qed.

Lemma returns_addClass n c : returns (addClass n c).
Proof. intros w. now eexists _, _. Qed.

Lemma returns_removeClass n c : returns (removeClass n c).
Proof. intros w. now eexists _, _. Qed.

Lemma addClass_active b :
  hoare (on_document (active_is b)) (addClass (button elements) CLASS_ACTIVE)
    (on_document (active_is true)).
Proof.
  intros w [Hex _]. unfold on_document. run. split; [now apply exists_update|].
  rewrite element_update_eq by exact Hex. cbn [classList set_classList].
  rewrite token_contains_add. now rewrite bool_decide_eq_true_2.
Qed.

Lemma removeClass_active b :
  hoare (on_document (active_is b)) (removeClass (button elements) CLASS_ACTIVE)
    (on_document (active_is false)).
Proof.
  intros w [Hex _]. unfold on_document. run. split; [now apply exists_update|].
  rewrite element_update_eq by exact Hex. cbn [classList set_classList].
  rewrite token_contains_remove. now rewrite bool_decide_eq_true_2.
Qed.

Lemma activate_sets b :
  hoare (on_document (active_is b)) (activate None)
    (on_document (active_is true)).
Proof.
  unfold activate.
  eapply hoare_seq; [apply returns_setAttribute | apply keeps_setAttribute | intros _].
  eapply hoare_seq; [apply returns_addClass | apply keeps_addClass | intros _].
  { right; discriminate. }
  eapply hoare_seq; [apply returns_addClass | apply addClass_active | intros _].
  as_keeps. unfold invoke. repeat keeps_step.
Qed.

Lemma dismiss_clears b :
  hoare (on_document (active_is b)) (dismiss None)
    (on_document (active_is false)).
Proof.
  unfold dismiss.
  eapply hoare_seq; [apply returns_setAttribute | apply keeps_setAttribute | intros _].
  eapply hoare_seq; [apply returns_addClass | apply keeps_addClass | intros _].
  { right; discriminate. }
  eapply hoare_seq; [apply returns_removeClass | apply removeClass_active | intros _].
  as_keeps. unfold invoke. repeat keeps_step. left; congruence.
Qed.

Lemma call_active (c : Call) (b : bool) :
  hoare (on_document (active_is b)) (call c)
    (on_document (active_is
       match c with Activate => true | Dismiss => false | _ => b end)).
Proof.
  destruct c; cbn [call].
  - apply activate_sets.
  - apply dismiss_clears.
  - apply keeps_ready.
  - apply keeps_remove.
  - apply keeps_reposition.
  - apply keeps_resize.
  - apply keeps_destroy.
  - now intros w Hw.
Qed.

(** C6. [isActive] reads the "active" class of the button.  [ready] does
    not change what it returns, and after any sequence of calls on the
    footnote it returns whether the most recent of [activate] and [dismiss]
    was [activate]; the other calls, [ready] among them, do not count. *)
Theorem isActive_follows_last_toggle (w : World) :
  is_Some (nodes (document w) !! button elements) →
  (isActive (world_of (ready w))
   = Ok (button_has CLASS_ACTIVE w) (world_of (ready w)))
  ∧ ∀ cs : list Call,
      isActive (after_calls cs w)
      = Ok (default (button_has CLASS_ACTIVE w) (last_toggle cs)) (after_calls cs w).
Proof.
  intros Hex.
  assert (Hw : on_document (active_is (button_has CLASS_ACTIVE w)) w) by now split.
  split.
  - rewrite isActive_reads. f_equal. now apply (keeps_ready _ w Hw).
  - intros cs. rewrite isActive_reads. f_equal.
    enough (on_document
              (active_is (default (button_has CLASS_ACTIVE w) (last_toggle cs)))
              (after_calls cs w)) as [_ H] by exact H.
    induction cs as [|c cs IH] using rev_ind; [exact Hw|].
    unfold after_calls, last_toggle in *. rewrite !fold_left_app. cbn [fold_left].
    apply (call_active c) in IH. now destruct c.
Qed.

(** ** Attaching and detaching the popover *)

Lemma same_but_refl c d : same_but c d d.
Proof. now repeat split. Qed.

Lemma same_but_trans c d1 d2 d3 : same_but c d1 d2 → same_but c d2 d3 → same_but c d1 d3.
Proof.
  intros (B1 & S1 & E1 & P1) (B2 & S2 & E2 & P2). repeat split.
  - congruence.
  - congruence.
  - intros H. now apply E1, E2.
  - intros H. now apply E2, E1.
  - intros n Hn. rewrite P2, P1; auto.
Qed.

Lemma same_but_update c n f d :
  (∀ e, parentNode (f e) = parentNode e) → same_but c d (update n f d).
Proof.
  intros Hf. repeat split.
  - apply size_update.
  - now apply exists_update.
  - now apply exists_update.
  - intros m _. now apply project_update.
Qed.

Lemma same_but_detach c d : same_but c d (detach c d).
Proof.
  repeat split.
  - apply body_detach.
  - apply size_detach.
  - now apply exists_detach.
  - now apply exists_detach.
  - intros n Hn. now apply parentNode_detach_ne.
Qed.

Lemma same_but_insert_afterend ref c d d' :
  insert_afterend ref c d = inr d' → same_but c d d'.
Proof.
  unfold insert_afterend.
  destruct (parentNode (element d ref)) as [p|]; [|intros [= <-]; apply same_but_refl].
  destruct (contains d c p); [discriminate|].
  destruct (decide (c = ref)) as [|Hcr]; intros [= <-]; [apply same_but_refl|].
  eapply same_but_trans; [apply same_but_detach|].
  eapply same_but_trans.
  { apply (same_but_update c p
             (λ e, set_childNodes (insert_after ref c (childNodes e)) e)).
    reflexivity. }
  repeat split.
  - apply size_update.
  - now apply exists_update.
  - now apply exists_update.
  - intros n Hn. now rewrite element_update_ne by congruence.
Qed.

Lemma contains_same_but c d d' a x :
  same_but c d d' → contains d c x = false → contains d' a x = contains d a x.
Proof.
  intros (_ & S & _ & P) H. unfold contains in *. rewrite S.
  now apply inclusive_ancestor_frame with (c := c).
Qed.

Lemma childNodes_detach_keeps n d p x :
  x ≠ n → x ∈ childNodes (element d p) → x ∈ childNodes (element (detach n d) p).
Proof.
  intros Hne Hin. unfold detach.
  destruct (parentNode (element d n)) as [q|]; [|exact Hin].
  rewrite (project_update childNodes) by reflexivity.
  destruct (decide (q = p)) as [->|Hqp]; [|now rewrite element_update_ne].
  assert (Hex : is_Some (nodes d !! p)).
  { unfold element in Hin. destruct (nodes d !! p); [eauto|].
    now apply elem_of_nil in Hin. }
  rewrite element_update_eq by exact Hex. cbn [childNodes set_childNodes].
  now apply list_elem_of_filter.
Qed.

Lemma contains_false_ne d a x : contains d a x = false → a ≠ x.
Proof.
  unfold contains. intros H ->.
  destruct (size (nodes d)); cbn in H; now rewrite bool_decide_eq_true_2 in H.
Qed.

(** Inserted after [ref], [new] is its next sibling and has its parent. *)
Lemma insert_afterend_next d d' ref new p :
  insert_afterend ref new d = inr d' →
  parentNode (element d ref) = Some p →
  ref ∈ childNodes (element d p) →
  new ≠ ref →
  is_Some (nodes d !! new) →
  nextSibling d' ref = Some new ∧ parentNode (element d' new) = Some p.
Proof.
  intros H Hp Hin Hne Hex. unfold insert_afterend in H. rewrite Hp in H.
  destruct (contains d new p) eqn:Hc; [discriminate|].
  apply contains_false_ne in Hc.
  rewrite decide_False in H by exact Hne. injection H as <-.
  assert (Hexp : is_Some (nodes d !! p)).
  { unfold element in Hin. destruct (nodes d !! p); [eauto|].
    now apply elem_of_nil in Hin. }
  split.
  - unfold nextSibling.
    rewrite element_update_ne by exact Hne.
    rewrite (project_update parentNode) by reflexivity.
    rewrite parentNode_detach_ne by congruence. rewrite Hp.
    rewrite element_update_ne by exact Hc.
    rewrite element_update_eq by now apply exists_detach.
    cbn [childNodes set_childNodes].
    apply following_insert_after. apply childNodes_detach_keeps; [congruence | exact Hin].
  - rewrite element_update_eq; [reflexivity|].
    now apply exists_update, exists_detach.
Qed.

Lemma dismiss_runs (onDismiss : option Callback) (w : World) :
  let w1 :=
    mkWorld (dismissed (document w)) (render w) (maxHeight w) (position w)
      (log w ++ [ SetAttribute (button elements) "aria-expanded" "false";
                  ClassListAdd (button elements) CLASS_CHANGING;
                  ClassListRemove (button elements) CLASS_ACTIVE;
                  ClassListRemove (popover elements) CLASS_ACTIVE ])%list in
  dismiss onDismiss w
  = invoke onDismiss (popover elements) (button elements) w1.
Proof. unfold dismiss. run. now rewrite <- !app_assoc. Qed.

Lemma activate_runs (onActivate : option Callback) (w : World) (dI : Document) :
  insert_afterend (button elements) (popover elements) (marked (document w)) = inr dI →
  activate onActivate w
  = invoke onActivate (popover elements) (button elements) (activated w dI).
Proof.
  intros H. unfold activate, insertAdjacentElement_afterend. run.
  fold (marked (document w)). rewrite H. run.
  unfold activated, layout. cbn [document render]. now rewrite <- !app_assoc.
Qed.

Lemma activate_throws (onActivate : option Callback) (w : World) (e : Exception) :
  insert_afterend (button elements) (popover elements) (marked (document w)) = inl e →
  ∃ w', activate onActivate w = Throw e w'
        ∧ log w' = (log w ++ [ SetAttribute (button elements) "aria-expanded" "true";
                               ClassListAdd (button elements) CLASS_CHANGING;
                               ClassListAdd (button elements) CLASS_ACTIVE;
                               InsertAdjacentAfterEnd (button elements) (popover elements) ])%list.
Proof.
  intros H. unfold activate, insertAdjacentElement_afterend. run.
  fold (marked (document w)). rewrite H. run.
  eexists. split; [reflexivity|]. cbn [log]. now rewrite <- !app_assoc.
Qed.

Lemma same_but_marked c d : same_but c d (marked d).
Proof.
  unfold marked.
  repeat (eapply same_but_trans; [|apply same_but_update; reflexivity]).
  apply same_but_refl.
Qed.

Lemma same_but_dismissed c d : same_but c d (dismissed d).
Proof.
  unfold dismissed.
  repeat (eapply same_but_trans; [|apply same_but_update; reflexivity]).
  apply same_but_refl.
Qed.

Lemma same_but_removed d : same_but (popover elements) d (removed d).
Proof.
  unfold removed.
  eapply same_but_trans; [apply same_but_detach | apply same_but_update; reflexivity].
Qed.

Lemma contains_marked d a x : contains (marked d) a x = contains d a x.
Proof. unfold marked. now rewrite !contains_update by reflexivity. Qed.

Lemma contains_dismissed d a x : contains (dismissed d) a x = contains d a x.
Proof. unfold dismissed. now rewrite !contains_update by reflexivity. Qed.

Lemma childNodes_marked d n : childNodes (element (marked d) n) = childNodes (element d n).
Proof. unfold marked. now rewrite !(project_update childNodes) by reflexivity. Qed.

Lemma childNodes_dismissed d n :
  childNodes (element (dismissed d) n) = childNodes (element d n).
Proof. unfold dismissed. now rewrite !(project_update childNodes) by reflexivity. Qed.

Lemma parentNode_marked d n : parentNode (element (marked d) n) = parentNode (element d n).
Proof. unfold marked. now rewrite !(project_update parentNode) by reflexivity. Qed.

Lemma parentNode_dismissed d n :
  parentNode (element (dismissed d) n) = parentNode (element d n).
Proof. unfold dismissed. now rewrite !(project_update parentNode) by reflexivity. Qed.

(** The insertion [activate] makes is legal when the popover does not
    contain the parent of the button. *)
Lemma insertion_legal (d : Document) (p : node) :
  parentNode (element d (button elements)) = Some p →
  contains d (popover elements) p = false →
  ∃ dI, insert_afterend (button elements) (popover elements) (marked d) = inr dI.
Proof.
  intros Hp Hc. unfold insert_afterend.
  rewrite parentNode_marked, Hp, contains_marked, Hc.
  destruct (decide (popover elements = button elements)); eauto.
Qed.


Lemma inclusive_ancestor_false_le (k k' : nat) d a x :
  (k ≤ k')%nat → inclusive_ancestor k' d a x = false → inclusive_ancestor k d a x = false.
Proof.
  intros Hle H. destruct (inclusive_ancestor k d a x) eqn:E; [|reflexivity].
  apply (inclusive_ancestor_mono k k') in E; [congruence | exact Hle].
Qed.

(** A node that has just been attached under [p] is in the document exactly
    when a sibling that was there before is. *)
Lemma contains_attached (d d' : Document) (new sibling p a : node) :
  same_but new d d' →
  is_Some (nodes d !! new) →
  parentNode (element d' new) = Some p →
  parentNode (element d sibling) = Some p →
  contains d new p = false →
  a ≠ new → a ≠ sibling →
  contains d' a new = contains d a sibling.
Proof.
  intros HS Hex Hnew Hsib Hc Ha1 Ha2.
  pose proof HS as (_ & Hsize & _ & Hpar).
  unfold contains in *. rewrite Hsize.
  destruct (size (nodes d)) as [|k] eqn:Ek.
  { apply map_size_empty_inv in Ek. rewrite Ek, lookup_empty in Hex.
    now destruct Hex. }
  cbn [inclusive_ancestor]. rewrite Hnew, Hsib.
  rewrite !bool_decide_eq_false_2 by assumption. cbn [orb].
  apply inclusive_ancestor_frame with (c := new); [exact Hpar|].
  apply inclusive_ancestor_false_le with (k' := S k); [lia | exact Hc].
Qed.

(** C5. [dismiss] leaves the popover where it is; [remove] then detaches it
    and clears the "changing" class, so that the popover is not in the
    document and [isReady] returns true; [activate] then puts that same node
    back as the next sibling of the button, under the button's parent: it is
    in the document exactly when the button is, and no node was created. *)
Theorem dismiss_remove_activate (w : World) (p : node) :
  popover elements ≠ body (document w) →
  button elements ≠ body (document w) →
  is_Some (nodes (document w) !! popover elements) →
  parentNode (element (document w) (button elements)) = Some p →
  button elements ∈ childNodes (element (document w) p) →
  contains (document w) (popover elements) p = false →
  ∃ w1 w2 w3 : World,
    dismiss None w = Ok tt w1
    ∧ parentNode (element (document w1) (popover elements))
      = parentNode (element (document w) (popover elements))
    ∧ mounted w1 = mounted w
    ∧ remove w1 = Ok tt w2
    ∧ mounted w2 = false
    ∧ isReady w2 = Ok true w2
    ∧ activate None w2 = Ok tt w3
    ∧ nextSibling (document w3) (button elements) = Some (popover elements)
    ∧ parentNode (element (document w3) (popover elements)) = Some p
    ∧ mounted w3 = contains (document w) (body (document w)) (button elements)
    ∧ (∀ n, is_Some (nodes (document w3) !! n) ↔ is_Some (nodes (document w) !! n)).
Proof.
  intros Hpb Hbb Hex Hp Hin Hc.
  set (d0 := document w) in *.
  set (d2 := removed (dismissed d0)).
  assert (S2 : same_but (popover elements) d0 d2).
  { eapply same_but_trans; [apply same_but_dismissed | apply same_but_removed]. }
  assert (Hp2 : parentNode (element d2 (button elements)) = Some p).
  { destruct S2 as (_ & _ & _ & P). now rewrite P. }
  assert (Hin2 : button elements ∈ childNodes (element d2 p)).
  { unfold d2, removed. rewrite (project_update childNodes) by reflexivity.
    apply childNodes_detach_keeps; [exact distinct|]. now rewrite childNodes_dismissed. }
  assert (Hc2 : contains d2 (popover elements) p = false).
  { now rewrite (contains_same_but _ _ _ _ _ S2 Hc). }
  assert (Hex2 : is_Some (nodes d2 !! popover elements)).
  { destruct S2 as (_ & _ & E & _). now apply E. }
  destruct (insertion_legal d2 p Hp2 Hc2) as [dI HdI].
  eexists _, _, _.
  split; [rewrite dismiss_runs; reflexivity|]. cbn [document].
  split; [apply parentNode_dismissed|].
  split; [unfold mounted; cbn [document];
          change (body (dismissed d0)) with (body d0); apply contains_dismissed|].
  split; [apply remove_runs|]. cbn [document].
  fold d2.
  assert (Hbody2 : body d2 = body d0) by now destruct S2.
  split.
  { unfold mounted. cbn [document]. apply contains_detached.
    - apply removed_popover_detached.
    - change (body d2 ≠ popover elements). rewrite Hbody2. congruence. }
  split.
  { rewrite isReady_reads. unfold button_has. cbn [document].
    unfold d2. now rewrite removed_not_changing. }
  split.
  { erewrite activate_runs; [reflexivity|]. cbn [document]. exact HdI. }
  destruct (insert_afterend_next _ _ _ _ p HdI) as [Hnext Hpar].
  { now rewrite parentNode_marked. }
  { now rewrite childNodes_marked. }
  { congruence. }
  { now apply (same_but_marked (popover elements)). }
  unfold mounted, activated. cbn [document render].
  match goal with
  | |- context [update (popover elements) ?f dI] =>
      set (d3 := update (popover elements) f dI)
  end.
  assert (S3 : same_but (popover elements) d0 d3).
  { eapply same_but_trans; [exact S2|].
    eapply same_but_trans; [apply same_but_marked|].
    eapply same_but_trans; [apply (same_but_insert_afterend _ _ _ _ HdI)|].
    apply same_but_update. reflexivity. }
  assert (Hpar3 : parentNode (element d3 (popover elements)) = Some p).
  { unfold d3. now rewrite (project_update parentNode) by reflexivity. }
  split.
  { unfold d3, nextSibling in *. rewrite (project_update parentNode) by reflexivity.
    destruct (parentNode (element dI (button elements))); [|discriminate].
    now rewrite (project_update childNodes) by reflexivity. }
  split; [exact Hpar3|].
  split.
  { replace (body d3) with (body d0) by now destruct S3.
    apply contains_attached with (p := p); try assumption; congruence. }
  { now destruct S3 as (_ & _ & E & _). }
Qed.

(** ** The other transitions *)

(** X2. [dismiss] issues exactly these writes, in this order:
    [aria-expanded="false"] on the button, the "changing" class on the
    button, the removal of the "active" class from the button and from the
    popover.  The popover stays where it is, [isActive] is false from then
    on, and the callback, if there is one, runs last and within the call on
    (popover, button). *)
Theorem dismiss_effects_in_order (onDismiss : option Callback) (w : World) :
  ∃ w1 : World,
    issued w w1 = [ SetAttribute (button elements) "aria-expanded" "false";
                    ClassListAdd (button elements) CLASS_CHANGING;
                    ClassListRemove (button elements) CLASS_ACTIVE;
                    ClassListRemove (popover elements) CLASS_ACTIVE ]
    ∧ button_has CLASS_ACTIVE w1 = false
    ∧ token_contains CLASS_ACTIVE (classList (element (document w1) (popover elements))) = false
    ∧ mounted w1 = mounted w
    ∧ nextSibling (document w1) (button elements) = nextSibling (document w) (button elements)
    ∧ maxHeight w1 = maxHeight w ∧ position w1 = position w
    ∧ dismiss onDismiss w =
        match onDismiss with
        | None => Ok tt w1
        | Some f =>
            f (popover elements) (button elements)
              (mkWorld (document w1) (render w1) (maxHeight w1) (position w1)
                 (log w1 ++ [InvokeCallback (popover elements) (button elements)]))
        end.
Proof.
  eexists. split; [|split; [|split; [|split; [|split; [|split; [|split]]]]]].
  8: { rewrite dismiss_runs. cbn zeta. destruct onDismiss; reflexivity. }
  - now apply issued_app.
  - unfold button_has. cbn [document]. unfold dismissed.
    destruct (decide (popover elements = button elements)) as [->|Hne].
    + unfold element, update. cbn [nodes]. rewrite lookup_alter_eq.
      destruct (alter _ _ _ !! button elements); cbn; [|reflexivity].
      rewrite token_contains_remove. now rewrite bool_decide_eq_true_2.
    + rewrite element_update_ne by exact Hne.
      unfold element, update. cbn [nodes]. rewrite lookup_alter_eq.
      destruct (alter _ _ _ !! button elements); cbn; [|reflexivity].
      rewrite token_contains_remove. now rewrite bool_decide_eq_true_2.
  - cbn [document]. unfold dismissed.
    unfold element, update. cbn [nodes]. rewrite lookup_alter_eq.
    destruct (alter _ _ _ !! popover elements); cbn; [|reflexivity].
    rewrite token_contains_remove. now rewrite bool_decide_eq_true_2.
  - unfold mounted. cbn [document].
    change (body (dismissed (document w))) with (body (document w)).
    apply contains_dismissed.
  - cbn [document]. unfold nextSibling. rewrite parentNode_dismissed.
    destruct (parentNode (element (document w) (button elements))); [|reflexivity].
    now rewrite childNodes_dismissed.
  - reflexivity.
  - reflexivity.
Qed.

(** X3. [ready] adds the "active" class to the popover and then removes the
    "changing" class from the button, and nothing else: [isReady] is true
    from then on, the popover is where it was. *)
Theorem ready_settles (w : World) :
  ∃ w1 : World,
    ready w = Ok tt w1
    ∧ issued w w1 = [ ClassListAdd (popover elements) CLASS_ACTIVE;
                      ClassListRemove (button elements) CLASS_CHANGING ]
    ∧ isReady w1 = Ok true w1
    ∧ (is_Some (nodes (document w) !! popover elements) →
       token_contains CLASS_ACTIVE (classList (element (document w1) (popover elements)))
       = true)
    ∧ mounted w1 = mounted w
    ∧ maxHeight w1 = maxHeight w ∧ position w1 = position w.
Proof.
  clear distinct.
  unfold ready. run. eexists. split; [reflexivity|].
  split; [apply issued_app; cbn [log]; now rewrite <- app_assoc|].
  split.
  { rewrite isReady_reads. unfold button_has. cbn [document]. f_equal.
    unfold element, update. cbn [nodes]. rewrite lookup_alter_eq.
    destruct (alter _ _ _ !! button elements); cbn; [|reflexivity].
    rewrite token_contains_remove. now rewrite bool_decide_eq_true_2. }
  split.
  { intros Hex. cbn [document].
    destruct (decide (button elements = popover elements)) as [Heq|Hne].
    - rewrite Heq. rewrite element_update_eq by now apply exists_update.
      rewrite element_update_eq by exact Hex. cbn [classList set_classList].
      rewrite token_contains_remove, token_contains_add.
      now rewrite bool_decide_eq_false_2, bool_decide_eq_true_2.
    - rewrite element_update_ne by exact Hne.
      rewrite element_update_eq by exact Hex. cbn [classList set_classList].
      rewrite token_contains_add. now rewrite bool_decide_eq_true_2. }
  split; [|split; reflexivity].
  unfold mounted. cbn [document body update].
  now rewrite !contains_update by reflexivity.
Qed.

Lemma repositionPopover_placed (w : World) :
  repositionPopover (popover elements) (button elements) (position w) w
  = Ok (getFootnotePosition (layout w) (button elements) (popover elements))
      (mkWorld (placed w) (render w) (maxHeight w) (position w)
         (log w ++ placement_writes w)).
Proof.
  unfold repositionPopover, placed, placement_writes. run.
  destruct (getFootnotePosition (layout w) (button elements) (popover elements))
    as [next room]. cbn [fst].
  destruct (decide (position w ≠ next)); run.
  - unfold layout, swap_placement, transform_origin. cbn [document render].
    now rewrite <- !app_assoc.
  - rewrite app_nil_r. now destruct w.
Qed.

Lemma exists_placed (w : World) (n : node) :
  is_Some (nodes (placed w) !! n) ↔ is_Some (nodes (document w) !! n).
Proof.
  unfold placed, swap_placement. destruct (decide _); [|reflexivity].
  now rewrite !exists_update.
Qed.

(** X4. While the popover is in the document, [reposition] makes the
    writes of [repositionPopover], stores the decision of
    [getFootnotePosition] and clips the content to the smaller of the stored
    maximum height and the room.  It then reads the height of the popover
    and the scroll height of the content off the page as rendered with
    these writes made, and marks the popover "scrollable" and gives the
    content [tabindex="0"] when the first is less than the second, and
    removes the class and the attribute when it is not.  The writes and the
    document it leaves are exactly these. *)
Theorem reposition_marks_overflow (w : World) :
  mounted w = true →
  let decision := getFootnotePosition (layout w) (button elements) (popover elements) in
  let clip := toString (Math_min (maxHeight w) (snd decision)) +:+ "px" in
  let dm := clipped clip (placed w) in
  let overflows :=
    num_lt (offsetHeight (render w dm) (popover elements))
           (scrollHeight (render w dm) (content elements)) in
  ∃ w1 : World,
    reposition w = Ok tt w1
    ∧ position w1 = fst decision
    ∧ maxHeight w1 = maxHeight w
    ∧ render w1 = render w
    ∧ issued w w1 =
        (placement_writes w
         ++ [ AssignPosition (fst decision); SetStyle (content elements) "maxHeight" clip ]
         ++ (if overflows
             then [ ClassListAdd (popover elements) CLASS_SCROLLABLE;
                    SetAttribute (content elements) "tabindex" "0" ]
             else [ ClassListRemove (popover elements) CLASS_SCROLLABLE;
                    RemoveAttribute (content elements) "tabindex" ]))%list
    ∧ document w1 =
        (if overflows
         then update (content elements)
                (λ e, set_attributes (<["tabindex" := "0"]> (attributes e)) e)
                (update (popover elements)
                   (λ e, set_classList (token_add CLASS_SCROLLABLE (classList e)) e) dm)
         else update (content elements)
                (λ e, set_attributes (delete "tabindex" (attributes e)) e)
                (update (popover elements)
                   (λ e, set_classList (token_remove CLASS_SCROLLABLE (classList e)) e) dm))
    ∧ (is_Some (nodes (document w) !! content elements) →
       attributes (element (document w1) (content elements)) !! "tabindex"
       = if overflows then Some "0" else None).
Proof.
  intros Hm decision clip dm overflows. unfold mounted in Hm.
  unfold reposition, isMounted. run. rewrite Hm.
  rewrite repositionPopover_placed. fold decision.
  destruct decision as [next room] eqn:Ed. run. unfold layout. cbn [document render].
  cbn [snd] in clip. fold clip. fold (clipped clip (placed w)). fold dm. fold overflows.
  assert (Hex : is_Some (nodes (document w) !! content elements) →
                is_Some (nodes dm !! content elements)).
  { intros H. unfold dm, clipped. rewrite exists_update. now apply exists_placed. }
  destruct overflows; run; eexists; (split; [reflexivity|]);
    cbn [position maxHeight document log render fst snd];
    (split; [reflexivity|]); (split; [reflexivity|]); (split; [reflexivity|]);
    (split; [apply issued_app; rewrite <- !app_assoc; reflexivity|]);
    (split; [reflexivity|]); intros Hc.
  - rewrite element_update_eq by (rewrite exists_update; auto).
    cbn [attributes set_attributes]. apply lookup_insert_eq.
  - rewrite element_update_eq by (rewrite exists_update; auto).
    cbn [attributes set_attributes]. apply lookup_delete_eq.
Qed.

End Lifecycle.

(* ===================================================================== *)
(** * The scroll boundary detector *)
(* ===================================================================== *)

Section ScrollBoundary.

Local Open Scope float_scope.

Lemma Prim2SF_zero : Prim2SF 0 = S754_zero false.
Proof. reflexivity. Qed.

Lemma num_gt_zero_not_le (a : number) : num_gt a 0 = true → num_le a 0 = false.
Proof.
  unfold num_gt, num_le. rewrite FloatAxioms.ltb_spec, FloatAxioms.leb_spec, Prim2SF_zero.
  unfold SFltb, SFleb.
  destruct (Prim2SF a) as [s|s| |s m e]; cbn; try discriminate; now destruct s.
Qed.

Lemma num_lt_zero_neg_gt (a : number) : num_lt a 0 = true → num_gt (neg a) 0 = true.
Proof.
  unfold num_gt, num_lt, neg.
  rewrite !FloatAxioms.ltb_spec, FloatAxioms.opp_spec, Prim2SF_zero.
  unfold SFltb, SFopp.
  destruct (Prim2SF a) as [s|s| |s m e]; cbn; try discriminate; now destruct s.
Qed.

(** C4, amended.  With [delta = -deltaY]: when [delta > 0] the handler
    removes the "fully scrolled" class from the popover, whatever the scroll
    position and the current target; it adds the class exactly when the
    event has a current target, the content region, and [delta <= 0] and
    [delta < clientHeight + scrollTop - scrollHeight] hold for it; otherwise
    it does nothing.  So a handler run on an event that has no current
    target, as an event has none once its dispatch is over, never adds the
    class.  On a region with [scrollHeight = 300] and [clientHeight = 200]
    that is the current target, [deltaY = 50] leaves the class alone at
    [scrollTop = 0] and sets it at [scrollTop = 100]; any event with
    [deltaY < 0] clears it. *)
Theorem scroll_boundary_detector (popover : node) (event : WheelEvent) (w : World) :
  let delta := - deltaY event in
  let L := layout w in
  ∃ w' : World,
    scrollHandler popover event w = Ok tt w'
    ∧ (num_gt delta 0 = true →
       issued w w' = [ClassListRemove popover CLASS_FULLY_SCROLLED]
       ∧ fully_scrolled popover w' = false)
    ∧ (ClassListAdd popover CLASS_FULLY_SCROLLED ∈ issued w w'
       ↔ ∃ content, currentTarget event = Some content
                    ∧ num_le delta 0 = true
                    ∧ num_lt delta (clientHeight L content + scrollTop L content
                                    - scrollHeight L content) = true)
    ∧ (ClassListAdd popover CLASS_FULLY_SCROLLED ∈ issued w w' →
       issued w w' = [ClassListAdd popover CLASS_FULLY_SCROLLED]
       ∧ (is_Some (nodes (document w) !! popover) → fully_scrolled popover w' = true))
    ∧ (num_gt delta 0 = false →
       ClassListAdd popover CLASS_FULLY_SCROLLED ∉ issued w w' → w' = w)
    ∧ (∀ content,
         currentTarget event = Some content → deltaY event = 50 →
         scrollHeight L content = 300 → clientHeight L content = 200 →
         (scrollTop L content = 0 → w' = w)
         ∧ (scrollTop L content = 100 →
            issued w w' = [ClassListAdd popover CLASS_FULLY_SCROLLED]))
    ∧ (num_lt (deltaY event) 0 = true → fully_scrolled popover w' = false).
Proof.
  intros delta L.
  assert (Hremoved : ∀ d, token_contains CLASS_FULLY_SCROLLED
            (classList (element
               (update popover
                  (λ e, set_classList (token_remove CLASS_FULLY_SCROLLED (classList e)) e) d)
               popover)) = false).
  { intros d. unfold element, update. cbn [nodes]. rewrite lookup_alter_eq.
    destruct (nodes d !! popover); cbn; [|reflexivity].
    rewrite token_contains_remove. now rewrite bool_decide_eq_true_2. }
  unfold scrollHandler. fold delta.
  destruct (num_gt delta 0) eqn:Egt.
  - (* scrolling towards the top *)
    pose proof (num_gt_zero_not_le _ Egt) as Ele.
    run. unfold layout. cbn [document render]. rewrite Ele. cbn [andb].
    eexists. split.
    { destruct (currentTarget event); reflexivity. }
    assert (Hiss : issued w
              (mkWorld (update popover
                          (λ e, set_classList
                                  (token_remove CLASS_FULLY_SCROLLED (classList e)) e)
                          (document w))
                 (render w) (maxHeight w) (position w)
                 (log w ++ [ClassListRemove popover CLASS_FULLY_SCROLLED]))
              = [ClassListRemove popover CLASS_FULLY_SCROLLED])
      by now apply issued_app.
    rewrite Hiss. unfold fully_scrolled. cbn [document].
    split; [intros _; split; [reflexivity | apply Hremoved]|].
    split.
    { split.
      - intros Hin. apply list_elem_of_singleton in Hin. discriminate.
      - intros (c & _ & Hle & _). congruence. }
    split; [intros Hin; apply list_elem_of_singleton in Hin; discriminate|].
    split; [discriminate|].
    split; [|intros _; apply Hremoved].
    intros c Hc Hd. subst delta. rewrite Hd in Egt. discriminate.
  - run. fold L.
    destruct (currentTarget event) as [content|] eqn:Ect.
    + run. fold L. fold (reached_bottom L delta content).
      destruct (reached_bottom L delta content) eqn:Er.
      * run. eexists. split; [reflexivity|].
        rewrite (issued_app _ _ [ClassListAdd popover CLASS_FULLY_SCROLLED]) by reflexivity.
        unfold reached_bottom in Er. apply andb_true_iff in Er as [Hle Hlt].
        split; [discriminate|].
        split.
        { split; [intros _; exists content; auto | intros _; now apply list_elem_of_singleton]. }
        split.
        { intros _. split; [reflexivity|]. intros Hex. unfold fully_scrolled. cbn [document].
          rewrite element_update_eq by exact Hex. cbn [classList set_classList].
          rewrite token_contains_add. now rewrite bool_decide_eq_true_2. }
        split.
        { intros _ Hn. destruct Hn. now apply list_elem_of_singleton. }
        split.
        { intros c [= <-] Hd Hsh Hch. split; [|reflexivity].
          intros Hst. subst delta. rewrite Hd, Hsh, Hch, Hst in Hlt. discriminate. }
        { intros Hneg. apply num_lt_zero_neg_gt in Hneg.
          change (num_gt delta 0 = true) in Hneg. congruence. }
      * eexists. split; [reflexivity|].
        rewrite (issued_app _ _ []) by now rewrite app_nil_r.
        unfold reached_bottom in Er.
        split; [discriminate|].
        split.
        { split; [intros Hin; now apply elem_of_nil in Hin|].
          intros (c & [= <-] & Hle & Hlt). rewrite Hle, Hlt in Er. discriminate. }
        split; [intros Hin; now apply elem_of_nil in Hin|].
        split; [reflexivity|].
        split.
        { intros c [= <-] Hd Hsh Hch. split; [reflexivity|].
          intros Hst. subst delta. rewrite Hd, Hsh, Hch, Hst in Er. discriminate. }
        { intros Hneg. apply num_lt_zero_neg_gt in Hneg.
          change (num_gt delta 0 = true) in Hneg. congruence. }
    + eexists. split; [reflexivity|].
      rewrite (issued_app _ _ []) by now rewrite app_nil_r.
      split; [discriminate|].
      split.
      { split; [intros Hin; now apply elem_of_nil in Hin|].
        intros (c & Hc & _). discriminate. }
      split; [intros Hin; now apply elem_of_nil in Hin|].
      split; [reflexivity|].
      split; [discriminate|].
      intros Hneg. apply num_lt_zero_neg_gt in Hneg.
          change (num_gt delta 0 = true) in Hneg. congruence.
Qed.

End ScrollBoundary.

(* ===================================================================== *)
(** * The event layer: facts *)
(* ===================================================================== *)

Section EventLayer.

Import Events.

Lemma when_truthy_Some (o : option string) (id : string) :
  when_truthy o = Some id ↔ o = Some id ∧ id ≠ "".
Proof.
  unfold when_truthy, truthy. destruct o as [[|c s]|]; split.
  - discriminate.
  - now intros [[= <-] H].
  - intros [= <-]. now split.
  - now intros [-> _].
  - discriminate.
  - now intros [[=] _].
Qed.

Lemma when_truthy_None (o : option string) :
  when_truthy o = None ↔ o = None ∨ o = Some "".
Proof.
  unfold when_truthy, truthy.
  destruct o as [[|c s]|]; split; intros H; auto; try discriminate.
  destruct H as [H|H]; discriminate.
Qed.

(** What [toggleOnTouch] does on an element. *)
Lemma toggleOnTouch_cases (d : Document) (event : Event) (n : node) :
  target event = AtElement n →
  toggleOnTouch d event =
    match button_id d n with
    | Some id => ([PreventDefault; Invoke (toggle id)], None)
    | None =>
        match closest d n SELECTOR_POPOVER with
        | None => ([Invoke touchOutside], None)
        | Some _ => ([], None)
        end
    end.
Proof.
  intros Ht. unfold toggleOnTouch, closestTarget, button_id. rewrite Ht. reflexivity.
Qed.

(** The listeners a "click" or a "touchend" reaches. *)
Lemma dispatch_touch (t : Z) (d : Document) (event : Event) :
  type event = "click" ∨ type event = "touchend" →
  reaches d event = true →
  dispatch d event (addListeners t)
  = emit (toggleOnTouch d event) (addListeners t).
Proof.
  intros Hty Hre. unfold dispatch, addListeners, listens.
  cbn [listeners event_type on List.filter].
  destruct Hty as [Hty|Hty]; rewrite Hty, Hre; reflexivity.
Qed.

(** An event that does not reach the listeners leaves the group as it is. *)
Lemma dispatch_unreached (d : Document) (event : Event) (s : State) :
  reaches d event = false → dispatch d event s = s.
Proof.
  intros Hre. unfold dispatch.
  assert (E : List.filter (listens d event) (listeners s) = []).
  { induction (listeners s) as [|l ls IH]; [reflexivity|].
    cbn [List.filter]. unfold listens at 1. rewrite Hre, andb_false_r. exact IH. }
  now rewrite E.
Qed.

(** An event on an element reaches the listeners exactly when it bubbles
    and the element is in the document. *)
Lemma reaches_element (d : Document) (event : Event) (n : node) :
  target event = AtElement n →
  reaches d event = bubbles event && isConnected d n.
Proof. intros Ht. unfold reaches. now rewrite Ht. Qed.

(** C8, amended.  For a "touchend" or a "click" that bubbles from an element
    of the document, the group of listeners emits: when the nearest
    enclosing element with the button marker has a non-empty identifier
    [id], the suppression of the default action and then [toggle id], and
    nothing else; otherwise (no element with the marker encloses the target,
    or the nearest one has no identifier or an empty one) [touchOutside]
    when no popover encloses the target, and nothing when one does.  A
    "touchend" or a "click" that does not bubble, or whose target is an
    element outside the document, does not reach the listeners: the group
    emits nothing, whatever the target is inside of. *)
Theorem toggle_resolution (t : Z) (d : Document) (event : Event) (n : node) :
  target event = AtElement n →
  type event = "click" ∨ type event = "touchend" →
  let id := getFootnoteId d (closest d n SELECTOR_BUTTON) in
  let signals := emitted (dispatch d event (addListeners t)) in
  (bubbles event = true → isConnected d n = true →
   (∀ s, id = Some s → s ≠ "" → signals = [PreventDefault; Invoke (toggle s)])
   ∧ (id = None ∨ id = Some "" →
      closest d n SELECTOR_POPOVER = None → signals = [Invoke touchOutside])
   ∧ (id = None ∨ id = Some "" →
      is_Some (closest d n SELECTOR_POPOVER) → signals = []))
  ∧ (bubbles event = false ∨ isConnected d n = false → signals = []).
Proof.
  intros Ht Hty id signals. split.
  - intros Hb Hc.
    assert (Hs : signals = fst (toggleOnTouch d event)).
    { subst signals.
      rewrite dispatch_touch;
        [|exact Hty|rewrite (reaches_element _ _ _ Ht), Hb, Hc; reflexivity].
      rewrite (toggleOnTouch_cases _ _ _ Ht).
      destruct (button_id d n); [reflexivity|].
      now destruct (closest d n SELECTOR_POPOVER). }
    rewrite Hs, (toggleOnTouch_cases _ _ _ Ht). unfold button_id. fold id.
    repeat split.
    + intros s Hid Hne.
      assert (H : when_truthy id = Some s) by now apply when_truthy_Some.
      now rewrite H.
    + intros Hid Hpop. apply when_truthy_None in Hid. now rewrite Hid, Hpop.
    + intros Hid [q Hpop]. apply when_truthy_None in Hid. now rewrite Hid, Hpop.
  - intros Hno. subst signals. rewrite dispatch_unreached; [reflexivity|].
    rewrite (reaches_element _ _ _ Ht).
    destruct Hno as [-> | ->]; [reflexivity | apply andb_false_r].
Qed.

(** X1. The key-up handler fires [dismissAll] exactly on the Escape key:
    the key code 27, or the key named "Escape" or "Esc". *)
Theorem escape_dismisses_all (t : Z) (d : Document) (event : Event) :
  let escape :=
    bool_decide (keyCode event = Some 27%Z)
    || bool_decide (key event = Some "Escape")
    || bool_decide (key event = Some "Esc") in
  dismissOnEscape event = (if escape then [Invoke dismissAll] else [], None)
  ∧ (escape = true
     ↔ keyCode event = Some 27%Z ∨ key event = Some "Escape" ∨ key event = Some "Esc")
  ∧ (type event = "keyup" → reaches d event = true →
     emitted (dispatch d event (addListeners t))
     = if escape then [Invoke dismissAll] else []).
Proof.
  intros escape. split; [|split].
  - unfold dismissOnEscape. fold escape. now destruct escape.
  - subst escape. rewrite !orb_true_iff, !bool_decide_eq_true. tauto.
  - intros Hty Hre. unfold dispatch, addListeners, listens.
    cbn [listeners event_type List.filter]. rewrite Hty, Hre.
    cbn. unfold dismissOnEscape. fold escape. now destruct escape.
Qed.

(** ** Teardown *)

Lemma dispatch_no_listeners (d : Document) (event : Event) (s : State) :
  listeners s = [] → dispatch d event s = s.
Proof. intros H. unfold dispatch. now rewrite H. Qed.

Lemma advance_emitted (t : Z) (s : State) :
  emitted (advance t s) = (emitted s ++ due_calls t s)%list.
Proof.
  unfold advance, due_calls.
  destruct (throttle_fire t (repositionThrottle s)) as [t1 r1].
  destruct (throttle_fire t (resizeThrottle s)) as [t2 r2]. cbn. now rewrite app_assoc.
Qed.

Lemma silent_step (s : State) (x : Step) :
  silent s → silent (step s x) ∧ emitted (step s x) = emitted s.
Proof.
  intros (Hl & H1 & H2). destruct x as [d event|t|]; cbn [step].
  - rewrite dispatch_no_listeners by exact Hl. now repeat split.
  - unfold advance, throttle_fire. rewrite H1, H2. cbn.
    repeat split; try assumption. now rewrite !app_nil_r.
  - now repeat split.
Qed.

Lemma silent_run (xs : list Step) (s : State) :
  silent s → emitted (run xs s) = emitted s.
Proof.
  revert s. induction xs as [|x xs IH]; intros s Hs; [reflexivity|].
  destruct (silent_step s x Hs) as [Hs' He].
  unfold run in *. cbn [fold_left]. now rewrite IH.
Qed.

(** C3, amended.  Once the teardown has run, no listener of the group runs
    for any event: a dispatch leaves the group as it is.  The teardown does
    not touch the throttles: a trailing call that was pending is still
    pending, and it invokes the registry when its time comes; the group
    emits nothing more only if no call was pending. *)
Theorem teardown_stops_listeners (s : State) :
  let s' := teardown s in
  (∀ d event, dispatch d event s' = s')
  ∧ (∀ events : list (Document * Event),
       run (map (λ de, Dispatch (fst de) (snd de)) events) s' = s')
  ∧ repositionThrottle s' = repositionThrottle s
  ∧ resizeThrottle s' = resizeThrottle s
  ∧ (∀ t, emitted (advance t s') = (emitted s ++ due_calls t s)%list)
  ∧ (∀ t due, timer (repositionThrottle s) = Some due → (due ≤ t)%Z →
       Invoke repositionAll ∈ due_calls t s)
  ∧ (∀ t due, timer (resizeThrottle s) = Some due → (due ≤ t)%Z →
       Invoke resizeAll ∈ due_calls t s)
  ∧ (timer (repositionThrottle s) = None → timer (resizeThrottle s) = None →
     ∀ xs, emitted (run xs s') = emitted s).
Proof.
  intros s'. split; [intros d event; now apply dispatch_no_listeners|].
  split.
  { intros events. induction events as [|[d event] events IH]; [reflexivity|].
    cbn [map fst snd]. unfold run in *. cbn [fold_left step].
    rewrite dispatch_no_listeners by reflexivity. exact IH. }
  split; [reflexivity|]. split; [reflexivity|].
  split; [intros t; now rewrite advance_emitted|].
  split.
  { intros t due Hd Hle. unfold due_calls, throttle_fire. rewrite Hd.
    rewrite (proj2 (Z.leb_le due t) Hle). cbn. apply elem_of_cons. now left. }
  split.
  { intros t due Hd Hle. unfold due_calls, throttle_fire. rewrite Hd.
    rewrite (proj2 (Z.leb_le due t) Hle). cbn. apply elem_of_app. right.
    apply elem_of_cons. now left. }
  intros H1 H2 xs. now rewrite silent_run.
Qed.

End EventLayer.

(* ===================================================================== *)
(** * Resizing *)
(* ===================================================================== *)

Section Resizing.
Context {builtins : Builtins} {elements : FootnoteElements}.
Local Open Scope float_scope.

Lemma same_but_styles_refl d : same_but_styles d d.
Proof. split; [reflexivity|]. intros n. now repeat split. Qed.

Lemma same_but_styles_setStyle d d' n k v :
  same_but_styles d d' →
  same_but_styles d (update n (λ e, set_style (<[k := v]> (style e)) e) d').
Proof.
  intros [Hb H]. split; [exact Hb|]. intros m.
  destruct (H m) as (E & P & C & L & A).
  rewrite exists_update.
  rewrite (project_update parentNode), (project_update childNodes),
    (project_update classList), (project_update attributes) by reflexivity.
  split; [exact E|]. auto.
Qed.

Lemma first_match_same (fuel : nat) d d' sel (ns : list node) :
  (∀ n, childNodes (element d' n) = childNodes (element d n)
        ∧ classList (element d' n) = classList (element d n)
        ∧ attributes (element d' n) = attributes (element d n)) →
  first_match fuel d' sel ns = first_match fuel d sel ns.
Proof.
  intros H. revert ns. induction fuel as [|k IH]; intros ns; [reflexivity|].
  cbn [first_match]. destruct ns as [|n rest]; [reflexivity|].
  destruct (H n) as (C & L & A).
  assert (Hm : matches d' n sel = matches d n sel).
  { destruct sel; cbn; now rewrite ?A, ?L. }
  rewrite Hm, C, !IH. reflexivity.
Qed.

Lemma querySelector_same_but_styles d d' n sel :
  same_but_styles d d' → querySelector d' n sel = querySelector d n sel.
Proof.
  intros [_ H]. unfold querySelector.
  assert (Hsize : size (nodes d') = size (nodes d)).
  { rewrite <- !(size_dom (D := gset node)). f_equal. apply set_eq. intros m.
    rewrite !elem_of_dom. apply H. }
  rewrite Hsize. destruct (H n) as (_ & _ & C & _). rewrite C.
  apply first_match_same. intros m. destruct (H m) as (_ & _ & C' & L & A). auto.
Qed.

Lemma contains_same_but_styles d d' a x :
  same_but_styles d d' → contains d' a x = contains d a x.
Proof.
  intros [_ H]. unfold contains.
  assert (Hsize : size (nodes d') = size (nodes d)).
  { rewrite <- !(size_dom (D := gset node)). f_equal. apply set_eq. intros m.
    rewrite !elem_of_dom. apply H. }
  rewrite Hsize. apply inclusive_ancestor_same_parents. intros n. apply H.
Qed.

(** X5. While the popover is in the document, [resize] issues these writes
    and no other, in this order: the popover's [left], from
    [getLeftInPixels] on the page as it is rendered before the call; the
    wrapper's [max-width], the width of the content read off the page as
    rendered with the first write made; and, when the popover holds an
    element with the tooltip class, the [left] of the first such element,
    from the position of the button on the page as rendered with the two
    writes made.  The document it leaves is the one these writes give: only
    inline styles change, the tree, the classes, the attributes and the
    closure's variables are as they were, and the popover stays mounted. *)
Theorem resize_writes_styles_only (w : World) :
  mounted w = true →
  let left :=
    toString (getLeftInPixels (layout w) (content elements) (button elements)) +:+ "px" in
  let d1 :=
    update (popover elements) (λ e, set_style (<["left" := left]> (style e)) e)
      (document w) in
  let width := toString (offsetWidth (render w d1) (content elements)) +:+ "px" in
  let d2 :=
    update (wrapper elements) (λ e, set_style (<["maxWidth" := width]> (style e)) e) d1 in
  let tooltip := querySelector (document w) (popover elements) (HasClass CLASS_TOOLTIP) in
  let tooltipLeft := toString (getLeftRelative (render w d2) (button elements) * 100) +:+ "%" in
  ∃ w3 : World,
    resize w = Ok tt w3
    ∧ issued w w3 =
        ([ SetStyle (popover elements) "left" left;
           SetStyle (wrapper elements) "maxWidth" width ]
         ++ match tooltip with
            | Some t => [ SetStyle t "left" tooltipLeft ]
            | None => []
            end)%list
    ∧ document w3 =
        match tooltip with
        | Some t => update t (λ e, set_style (<["left" := tooltipLeft]> (style e)) e) d2
        | None => d2
        end
    ∧ querySelector d2 (popover elements) (HasClass CLASS_TOOLTIP) = tooltip
    ∧ same_but_styles (document w) (document w3)
    ∧ render w3 = render w
    ∧ maxHeight w3 = maxHeight w ∧ position w3 = position w
    ∧ mounted w3 = true.
Proof.
  intros Hm left d1 width d2 tooltip tooltipLeft.
  pose proof Hm as Hm'. unfold mounted in Hm'.
  unfold resize, isMounted, repositionTooltip. run. rewrite Hm'. run.
  assert (S1 : same_but_styles (document w) d1)
    by apply same_but_styles_setStyle, same_but_styles_refl.
  assert (S2 : same_but_styles (document w) d2)
    by apply same_but_styles_setStyle, S1.
  pose proof (querySelector_same_but_styles _ _ (popover elements)
                (HasClass CLASS_TOOLTIP) S2) as Hq.
  match goal with |- context [querySelector ?d _ _] => change d with d2 end.
  rewrite Hq. fold tooltip in Hq |- *. clearbody tooltip.
  destruct tooltip as [t|]; run; eexists; (split; [reflexivity|]);
    (split; [apply issued_app; cbn [log]; rewrite <- ?app_assoc, ?app_nil_r; reflexivity|]);
    cbn [document render maxHeight position]; (split; [reflexivity|]);
    (split; [reflexivity|]).
  - split; [now apply same_but_styles_setStyle|]. repeat split.
    rewrite <- Hm. unfold mounted. cbn [document].
    apply contains_same_but_styles. now apply same_but_styles_setStyle.
  - split; [exact S2|]. repeat split.
    rewrite <- Hm. unfold mounted. cbn [document].
    now apply contains_same_but_styles.
Qed.
End Resizing.

(* ===================================================================== *)
(** * Destroying *)
(* ===================================================================== *)

Section Destroying.
Context {builtins : Builtins} {elements : FootnoteElements}.

(** Once [h] is detached, what it held is held by no node that [h] did not
    hold. *)
Lemma inclusive_ancestor_detach (k K k' : nat) (d : Document) (h a x : node) :
  inclusive_ancestor k d h x = true →
  (k ≤ K)%nat →
  inclusive_ancestor K d h a = false →
  inclusive_ancestor k' (detach h d) a x = false.
Proof.
  intros Hx Hk Ha. revert k x Hx Hk. induction k' as [|k' IH]; intros k x Hx Hk.
  - cbn. rewrite orb_false_r. apply bool_decide_eq_false_2. intros ->.
    apply (inclusive_ancestor_mono k K) in Hx; [congruence | exact Hk].
  - cbn [inclusive_ancestor].
    rewrite bool_decide_eq_false_2; cycle 1.
    { intros ->. apply (inclusive_ancestor_mono k K) in Hx; [congruence | exact Hk]. }
    cbn [orb].
    destruct (decide (x = h)) as [->|Hne].
    + now rewrite parentNode_detach_eq.
    + rewrite parentNode_detach_ne by exact Hne.
      destruct k as [|k]; cbn in Hx.
      * rewrite orb_false_r in Hx. apply bool_decide_eq_true in Hx. congruence.
      * rewrite bool_decide_eq_false_2 in Hx by congruence. cbn in Hx.
        destruct (parentNode (element d x)) as [p|]; [|discriminate].
        apply (IH k); [exact Hx | lia].
Qed.

Lemma contains_detach (d : Document) (h a x : node) :
  contains d h x = true → contains d h a = false → contains (detach h d) a x = false.
Proof.
  intros Hx Ha. unfold contains in *.
  now apply (inclusive_ancestor_detach (size (nodes d)) (size (nodes d))).
Qed.

(** Detaching a node adds no ancestor to any node. *)
Lemma inclusive_ancestor_detach_false (k : nat) (d : Document) (h a x : node) :
  inclusive_ancestor k d a x = false → inclusive_ancestor k (detach h d) a x = false.
Proof.
  revert x. induction k as [|k IH]; intros x; cbn; [trivial|].
  destruct (bool_decide (a = x)); [discriminate|]. cbn.
  destruct (decide (x = h)) as [->|Hne].
  - now rewrite parentNode_detach_eq.
  - rewrite parentNode_detach_ne by exact Hne.
    destruct (parentNode (element d x)); [apply IH | reflexivity].
Qed.

Lemma contains_detach_false (d : Document) (h a x : node) :
  contains d a x = false → contains (detach h d) a x = false.
Proof.
  unfold contains. rewrite size_detach. apply inclusive_ancestor_detach_false.
Qed.


(** X7. A footnote that was destroyed stays off the page: [activate] then
    returns normally and puts the popover after the button, inside the host
    that was removed, so that the footnote reads as active while
    [isMounted] is false and [reposition] and [resize] do nothing. *)
Theorem activate_after_destroy (w : World) (p : node) :
  button elements ≠ popover elements →
  button elements ≠ host elements →
  popover elements ≠ body (document w) →
  is_Some (nodes (document w) !! popover elements) →
  contains (document w) (host elements) (button elements) = true →
  contains (document w) (host elements) (body (document w)) = false →
  parentNode (element (document w) (button elements)) = Some p →
  button elements ∈ childNodes (element (document w) p) →
  contains (document w) (popover elements) p = false →
  ∃ w1 w2 : World,
    destroy w = Ok tt w1
    ∧ activate None w1 = Ok tt w2
    ∧ nextSibling (document w2) (button elements) = Some (popover elements)
    ∧ isActive w2 = Ok true w2
    ∧ mounted w2 = false
    ∧ reposition w2 = Ok tt w2
    ∧ resize w2 = Ok tt w2.
Proof.
  intros distinct Hbh Hpb Hex Hhb Hhbody Hp Hin Hc.
  set (d0 := document w) in *.
  set (d1 := detach (host elements) d0).
  assert (Hbb : button elements ≠ body d0).
  { intros E. rewrite E in Hhb. congruence. }
  assert (Hp1 : parentNode (element d1 (button elements)) = Some p).
  { unfold d1. now rewrite parentNode_detach_ne. }
  assert (Hin1 : button elements ∈ childNodes (element d1 p)).
  { now apply childNodes_detach_keeps. }
  assert (Hc1 : contains d1 (popover elements) p = false)
    by now apply contains_detach_false.
  assert (Hex1 : is_Some (nodes d1 !! popover elements)) by now apply exists_detach.
  assert (Hexb : is_Some (nodes d1 !! button elements)).
  { unfold element in Hp1. destruct (nodes d1 !! button elements); [eauto|discriminate]. }
  destruct (insertion_legal d1 p Hp1 Hc1) as [dI HdI].
  set (w1 := mkWorld d1 (render w) (maxHeight w) (position w)
               (log w ++ [RemoveNode (host elements)])).
  exists w1, (activated w1 dI).
  split; [reflexivity|].
  split; [now rewrite (activate_runs None w1 dI HdI)|].
  destruct (insert_afterend_next _ _ _ _ p HdI) as [Hnext Hpar].
  { now rewrite parentNode_marked. }
  { now rewrite childNodes_marked. }
  { congruence. }
  { now apply (same_but_marked (popover elements)). }
  assert (Hm : mounted (activated w1 dI) = false).
  { unfold mounted, activated. cbn [document render w1].
    match goal with
    | |- context [update (popover elements) ?f dI] =>
        set (d3 := update (popover elements) f dI)
    end.
    assert (S3 : same_but (popover elements) d1 d3).
    { eapply same_but_trans; [apply same_but_marked|].
      eapply same_but_trans; [apply (same_but_insert_afterend _ _ _ _ HdI)|].
      apply same_but_update. reflexivity. }
    replace (body d3) with (body d1) by now destruct S3.
    rewrite (contains_attached distinct d1 d3 _ (button elements) p); try assumption.
    - unfold d1. rewrite body_detach. now apply contains_detach.
    - unfold d3. now rewrite (project_update parentNode) by reflexivity.
    - unfold d1. now rewrite body_detach.
    - unfold d1. rewrite body_detach. congruence. }
  split.
  { unfold activated. cbn [document]. unfold nextSibling in *.
    rewrite (project_update parentNode) by reflexivity.
    destruct (parentNode (element dI (button elements))); [|discriminate].
    now rewrite (project_update childNodes) by reflexivity. }
  split.
  { rewrite isActive_reads. f_equal.
    assert (H0 : on_document (active_is (button_has CLASS_ACTIVE w1)) w1) by now split.
    apply (activate_sets _ w1) in H0.
    rewrite (activate_runs None w1 dI HdI) in H0. cbn in H0. now destruct H0. }
  split; [exact Hm|].
  unfold mounted in Hm.
  split; [unfold reposition, isMounted; run; now rewrite Hm|].
  unfold resize, isMounted; run; now rewrite Hm.
Qed.

End Destroying.

(* ===================================================================== *)
(** * An insertion the document refuses *)
(* ===================================================================== *)

Section Rejected.
Context {builtins : Builtins} {elements : FootnoteElements}.

Lemma activate_throws_world (onActivate : option Callback) (w : World) (e : Exception) :
  insert_afterend (button elements) (popover elements) (marked (document w)) = inl e →
  activate onActivate w
  = Throw e (mkWorld (marked (document w)) (render w) (maxHeight w) (position w)
               (log w ++ [ SetAttribute (button elements) "aria-expanded" "true";
                           ClassListAdd (button elements) CLASS_CHANGING;
                           ClassListAdd (button elements) CLASS_ACTIVE;
                           InsertAdjacentAfterEnd (button elements) (popover elements) ])).
Proof.
  intros H. unfold activate, insertAdjacentElement_afterend. run.
  fold (marked (document w)). rewrite H. run.
  now rewrite <- !app_assoc.
Qed.

(** X9. When the popover contains the parent of the button, the insertion
    [activate] makes is refused: [activate] throws the hierarchy error after
    it has set [aria-expanded] and the two classes of the button, and before
    it sets the popover's [max-width], reads the maximum height or runs the
    callback.  The footnote then reads as active and as not ready, and the
    tree is as it was. *)
Theorem activate_rejected_insertion (onActivate : option Callback) (w : World) (p : node) :
  parentNode (element (document w) (button elements)) = Some p →
  contains (document w) (popover elements) p = true →
  ∃ w' : World,
    activate onActivate w = Throw HierarchyRequestError w'
    ∧ issued w w' = [ SetAttribute (button elements) "aria-expanded" "true";
                      ClassListAdd (button elements) CLASS_CHANGING;
                      ClassListAdd (button elements) CLASS_ACTIVE;
                      InsertAdjacentAfterEnd (button elements) (popover elements) ]
    ∧ isActive w' = Ok true w'
    ∧ isReady w' = Ok false w'
    ∧ (∀ n, parentNode (element (document w') n) = parentNode (element (document w) n)
            ∧ childNodes (element (document w') n) = childNodes (element (document w) n)
            ∧ style (element (document w') n) = style (element (document w) n))
    ∧ mounted w' = mounted w
    ∧ maxHeight w' = maxHeight w ∧ position w' = position w.
Proof.
  intros Hp Hc.
  assert (Hex : is_Some (nodes (document w) !! button elements)).
  { unfold element in Hp. destruct (nodes (document w) !! button elements); [eauto|discriminate]. }
  assert (Hins : insert_afterend (button elements) (popover elements) (marked (document w))
                 = inl HierarchyRequestError).
  { unfold insert_afterend. now rewrite parentNode_marked, Hp, contains_marked, Hc. }
  eexists. split; [apply (activate_throws_world _ _ _ Hins)|].
  split; [now apply issued_app|].
  assert (Hcl : ∀ c, token_contains c (classList (element (marked (document w)) (button elements)))
                = bool_decide (c = CLASS_ACTIVE) || (bool_decide (c = CLASS_CHANGING)
                  || token_contains c (classList (element (document w) (button elements))))).
  { intros c. unfold marked.
    rewrite element_update_eq by now repeat apply exists_update.
    cbn [classList set_classList]. rewrite token_contains_add.
    rewrite element_update_eq by now repeat apply exists_update.
    cbn [classList set_classList]. rewrite token_contains_add.
    now rewrite (project_update classList) by reflexivity. }
  split; [rewrite isActive_reads; unfold button_has; cbn [document]; now rewrite Hcl|].
  split; [rewrite isReady_reads; unfold button_has; cbn [document]; now rewrite Hcl|].
  cbn [document maxHeight position].
  split.
  { intros n. rewrite parentNode_marked, childNodes_marked. repeat split.
    unfold marked. now rewrite !(project_update style) by reflexivity. }
  split; [|split; reflexivity].
  unfold mounted. cbn [document]. apply contains_marked.
Qed.

End Rejected.

(* ===================================================================== *)
(** * Readiness *)
(* ===================================================================== *)

Section Readiness.
Context {builtins : Builtins} {elements : FootnoteElements}.

Implicit Types (c : string) (b : bool).

Lemma class_is_update c b n f d :
  (∀ e, classList (f e) = classList e) → class_is c b d → class_is c b (update n f d).
Proof.
  intros Hf [Hex Hb]. split; [now apply exists_update|].
  now rewrite (project_update classList).
Qed.

Lemma class_is_detach c b n d : class_is c b d → class_is c b (detach n d).
Proof.
  intros [Hex Hb]. split; [now apply exists_detach | now rewrite classList_detach].
Qed.

Lemma class_is_insert_afterend c b ref new d d' :
  insert_afterend ref new d = inr d' → class_is c b d → class_is c b d'.
Proof.
  unfold insert_afterend.
  destruct (parentNode (element d ref)) as [p|]; [|now intros [= <-]].
  destruct (contains d new p); [discriminate|].
  destruct (decide (new = ref)); intros [= <-]; [trivial|]. intros H.
  apply class_is_update; [reflexivity|].
  apply class_is_update; [reflexivity|].
  now apply class_is_detach.
Qed.

(** What a change of one class token of [n] does to the class [c] of the
    button: nothing, unless [n] is the button and the token is [c]. *)
Lemma class_is_addClass c b n c' d :
  class_is c b d →
  class_is c (bool_decide (n = button elements ∧ c' = c) || b)
    (update n (λ e, set_classList (token_add c' (classList e)) e) d).
Proof.
  intros [Hex Hb]. split; [now apply exists_update|].
  destruct (decide (n = button elements)) as [->|Hne].
  - rewrite element_update_eq by exact Hex. cbn [classList set_classList].
    rewrite token_contains_add, Hb. f_equal. apply bool_decide_ext. intuition congruence.
  - rewrite element_update_ne by exact Hne. rewrite Hb.
    now rewrite bool_decide_eq_false_2 by tauto.
Qed.

Lemma class_is_removeClass c b n c' d :
  class_is c b d →
  class_is c (negb (bool_decide (n = button elements ∧ c' = c)) && b)
    (update n (λ e, set_classList (token_remove c' (classList e)) e) d).
Proof.
  intros [Hex Hb]. split; [now apply exists_update|].
  destruct (decide (n = button elements)) as [->|Hne].
  - rewrite element_update_eq by exact Hex. cbn [classList set_classList].
    rewrite token_contains_remove, Hb. f_equal. f_equal. apply bool_decide_ext.
    intuition congruence.
  - rewrite element_update_ne by exact Hne. rewrite Hb.
    now rewrite bool_decide_eq_false_2 by tauto.
Qed.

Local Abbreviation changing b w := (class_is CLASS_CHANGING b (document w)).

Lemma repositionPopover_changing b current w :
  changing b w →
  changing b (world_of (repositionPopover (popover elements) (button elements) current w)).
Proof.
  intros H. unfold repositionPopover. run.
  destruct (getFootnotePosition (layout w) (button elements) (popover elements)) as [next room].
  destruct (decide (current ≠ next)); run; [|exact H].
  apply class_is_update; [reflexivity|].
  pose proof (class_is_removeClass CLASS_CHANGING b (popover elements)
                ("is-" +:+ Position_to_string current) _ H) as H2.
  pose proof (class_is_addClass CLASS_CHANGING _ (popover elements)
                ("is-" +:+ Position_to_string next) _ H2) as H3.
  rewrite !bool_decide_eq_false_2 in H3
    by (intros [_ E]; destruct current, next; discriminate).
  exact H3.
Qed.

Lemma activate_changing (b : bool) (w : World) :
  changing b w → changing true (world_of (call Activate w)).
Proof.
  intros H. cbn [call].
  assert (Hmarked : class_is CLASS_CHANGING true (marked (document w))).
  { unfold marked.
    pose proof (class_is_update _ _ (button elements)
                  (λ e, set_attributes (<["aria-expanded" := "true"]> (attributes e)) e)
                  _ (λ _, eq_refl) H) as H1.
    apply (class_is_addClass _ _ (button elements) CLASS_CHANGING) in H1.
    rewrite bool_decide_eq_true_2 in H1 by now split. cbn [orb] in H1.
    apply (class_is_addClass _ _ (button elements) CLASS_ACTIVE) in H1.
    now rewrite orb_true_r in H1. }
  destruct (insert_afterend (button elements) (popover elements) (marked (document w)))
    as [e|dI] eqn:E.
  - rewrite (activate_throws_world None w e E). exact Hmarked.
  - rewrite (activate_runs None w dI E). cbn [invoke]. unfold skip, activated.
    cbn [mret M_ret world_of document].
    apply class_is_update; [reflexivity|].
    now apply (class_is_insert_afterend _ _ _ _ _ _ E).
Qed.

Lemma dismiss_changing (b : bool) (w : World) :
  changing b w → changing true (world_of (call Dismiss w)).
Proof.
  intros H. cbn [call]. rewrite dismiss_runs. cbn [invoke]. unfold skip. cbn [mret M_ret world_of document].
  unfold dismissed.
  pose proof (class_is_update _ _ (button elements)
                (λ e, set_attributes (<["aria-expanded" := "false"]> (attributes e)) e)
                _ (λ _, eq_refl) H) as H1.
  apply (class_is_addClass _ _ (button elements) CLASS_CHANGING) in H1.
  rewrite bool_decide_eq_true_2 in H1 by now split. cbn [orb] in H1.
  apply (class_is_removeClass _ _ (button elements) CLASS_ACTIVE) in H1.
  rewrite bool_decide_eq_false_2 in H1 by (intros [_ E]; discriminate).
  apply (class_is_removeClass _ _ (popover elements) CLASS_ACTIVE) in H1.
  rewrite bool_decide_eq_false_2 in H1 by (intros [_ E]; discriminate).
  exact H1.
Qed.

Lemma ready_changing (b : bool) (w : World) :
  changing b w → changing false (world_of (call Ready w)).
Proof.
  intros H. cbn [call].
  (* ready *)
    unfold ready. run.
    apply (class_is_addClass _ _ (popover elements) CLASS_ACTIVE) in H.
    rewrite bool_decide_eq_false_2 in H by (intros [_ E]; discriminate).
    apply (class_is_removeClass _ _ (button elements) CLASS_CHANGING) in H.
    rewrite bool_decide_eq_true_2 in H by now split. exact H.
Qed.

Lemma remove_changing (b : bool) (w : World) :
  changing b w → changing false (world_of (call Remove w)).
Proof.
  intros H. cbn [call].
  (* remove *)
    unfold remove. run.
    apply (class_is_detach _ _ (popover elements)) in H.
    apply (class_is_removeClass _ _ (button elements) CLASS_CHANGING) in H.
    rewrite bool_decide_eq_true_2 in H by now split. exact H.
Qed.

Lemma reposition_changing (b : bool) (w : World) :
  changing b w → changing b (world_of (call Reposition w)).
Proof.
  intros H. cbn [call].
  (* reposition *)
    unfold reposition, isMounted. run.
    destruct (contains _ _ _); [|exact H].
    pose proof (repositionPopover_changing b (position w) w H) as H1.
    destruct (repositionPopover (popover elements) (button elements) (position w) w)
      as [[next height] w'|e w']; cbn [world_of] in *; [|exact H1].
    run.
    apply (class_is_update _ _ (content elements)
             (λ e, set_style (<["maxHeight" :=
                toString (Math_min (maxHeight w') height) +:+ "px"]> (style e)) e)
             _ (λ _, eq_refl)) in H1.
    destruct (num_lt _ _); run.
    + apply class_is_update; [reflexivity|].
      apply (class_is_addClass _ _ (popover elements) CLASS_SCROLLABLE) in H1.
      rewrite bool_decide_eq_false_2 in H1 by (intros [_ E]; discriminate). exact H1.
    + apply class_is_update; [reflexivity|].
      apply (class_is_removeClass _ _ (popover elements) CLASS_SCROLLABLE) in H1.
      rewrite bool_decide_eq_false_2 in H1 by (intros [_ E]; discriminate). exact H1.
Qed.

Lemma resize_changing (b : bool) (w : World) :
  changing b w → changing b (world_of (call Resize w)).
Proof.
  intros H. cbn [call].
  (* resize *)
    unfold resize, isMounted, repositionTooltip. run.
    destruct (contains _ _ _); [|exact H]. run.
    destruct (querySelector _ _ _); run; repeat (apply class_is_update; [reflexivity|]);
      exact H.
Qed.

Lemma destroy_changing (b : bool) (w : World) :
  changing b w → changing b (world_of (call Destroy w)).
Proof.
  intros H. cbn [call].
  (* destroy *)
    unfold destroy. run. now apply class_is_detach.
Qed.

Lemma call_changing (c : Call) (b : bool) (w : World) :
  changing b w →
  changing (match c with
            | Activate | Dismiss => true
            | Ready | Remove => false
            | _ => b
            end) (world_of (call c w)).
Proof.
  destruct c.
  - apply activate_changing.
  - apply dismiss_changing.
  - apply ready_changing.
  - apply remove_changing.
  - apply reposition_changing.
  - apply resize_changing.
  - apply destroy_changing.
  - trivial.
Qed.

(** X8. [isReady] reads the "changing" class of the button, which
    [activate] and [dismiss] set and [ready] and [remove] clear: after any
    sequence of calls on the footnote, [isReady] returns whether the most
    recent of these four was [ready] or [remove]; [reposition], [resize],
    [destroy] and a new rendering do not count. *)
Theorem isReady_follows_last_transition (w : World) :
  is_Some (nodes (document w) !! button elements) →
  ∀ cs : list Call,
    isReady (after_calls cs w)
    = Ok (default (negb (button_has CLASS_CHANGING w)) (last_transition cs))
        (after_calls cs w).
Proof.
  intros Hex cs. rewrite isReady_reads. f_equal.
  enough (changing (negb (default (negb (button_has CLASS_CHANGING w)) (last_transition cs)))
            (after_calls cs w)) as [_ H].
  { unfold button_has. rewrite H. apply negb_involutive. }
  induction cs as [|c cs IH] using rev_ind.
  - cbn. rewrite negb_involutive. now split.
  - unfold after_calls, last_transition in *. rewrite !fold_left_app. cbn [fold_left].
    apply (call_changing c) in IH. now destruct c.
Qed.

End Readiness.

(* ===================================================================== *)
(** * A margin that is not a number *)
(* ===================================================================== *)

Section NotANumber.
Context {builtins : Builtins}.
Local Open Scope float_scope.

Lemma SFcompare_refl (x : spec_float) : x ≠ S754_nan → SFcompare x x = Some Eq.
Proof.
  destruct x as [s|s| |s m e]; cbn; intros H; try congruence.
  - now destruct s.
  - destruct s; rewrite Z.compare_refl, ?Pos.compare_cont_refl; reflexivity.
Qed.

Lemma is_nan_spec (x : number) : PrimFloat.is_nan x = true ↔ Prim2SF x = S754_nan.
Proof.
  unfold PrimFloat.is_nan. rewrite FloatAxioms.eqb_spec. unfold SFeqb.
  split.
  - intros H. destruct (Prim2SF x) eqn:E; try reflexivity;
      rewrite SFcompare_refl in H by discriminate; discriminate.
  - now intros ->.
Qed.

Lemma is_nan_eq (x : number) : PrimFloat.is_nan x = true → x = PrimFloat.nan.
Proof. intros H%is_nan_spec. apply Prim2SF_inj. now rewrite H. Qed.

Lemma nan_add_l x : PrimFloat.nan + x = PrimFloat.nan.
Proof. apply Prim2SF_inj. rewrite FloatAxioms.add_spec. reflexivity. Qed.
Lemma nan_add_r x : x + PrimFloat.nan = PrimFloat.nan.
Proof.
  apply Prim2SF_inj. rewrite FloatAxioms.add_spec.
  change (Prim2SF PrimFloat.nan) with S754_nan. now destruct (Prim2SF x).
Qed.
Lemma nan_sub_l x : PrimFloat.nan - x = PrimFloat.nan.
Proof. apply Prim2SF_inj. rewrite FloatAxioms.sub_spec. reflexivity. Qed.
Lemma nan_sub_r x : x - PrimFloat.nan = PrimFloat.nan.
Proof.
  apply Prim2SF_inj. rewrite FloatAxioms.sub_spec.
  change (Prim2SF PrimFloat.nan) with S754_nan. now destruct (Prim2SF x).
Qed.
Lemma nan_mul_r x : x * PrimFloat.nan = PrimFloat.nan.
Proof.
  apply Prim2SF_inj. rewrite FloatAxioms.mul_spec.
  change (Prim2SF PrimFloat.nan) with S754_nan. now destruct (Prim2SF x).
Qed.
Lemma nan_ge_r x : num_ge x PrimFloat.nan = false.
Proof. unfold num_ge. rewrite FloatAxioms.leb_spec. reflexivity. Qed.
Lemma nan_opp : PrimFloat.opp PrimFloat.nan = PrimFloat.nan.
Proof. reflexivity. Qed.
Lemma nan_gt_l x : num_gt PrimFloat.nan x = false.
Proof.
  unfold num_gt. rewrite FloatAxioms.ltb_spec.
  change (Prim2SF PrimFloat.nan) with S754_nan. unfold SFltb. now destruct (Prim2SF x).
Qed.
Lemma nan_le_l x : num_le PrimFloat.nan x = false.
Proof. unfold num_le. rewrite FloatAxioms.leb_spec. reflexivity. Qed.

(** X10. When the computed [margin-top] of the popover does not start with
    a number, [parseInt] gives NaN: the popover's height is NaN, the test of
    the room below against it fails, and the position is decided by the room
    below against the room above alone.  The room returned is NaN, and so is
    the maximum height [reposition] computes from it. *)
Theorem placement_without_margin (L : Layout) (button popover : node) (limit : number) :
  PrimFloat.is_nan (parseInt (getStyle L popover "marginTop")) = true →
  let roomAbove := rect_top L button + offsetHeight L button / 2 in
  let roomBelow := innerHeight L - roomAbove in
  getFootnotePosition L button popover
  = (if num_ge roomBelow roomAbove then below else above, PrimFloat.nan)
  ∧ PrimFloat.is_nan (Math_min limit (snd (getFootnotePosition L button popover))) = true.
Proof.
  intros Hnan%is_nan_eq roomAbove roomBelow.
  assert (E : getFootnotePosition L button popover
              = (if num_ge roomBelow roomAbove then below else above, PrimFloat.nan)).
  { unfold getFootnotePosition. rewrite Hnan. fold roomAbove. fold roomBelow.
    rewrite nan_mul_r, nan_add_l, nan_ge_r, !nan_sub_r, !nan_sub_l. cbn [orb].
    now destruct (num_ge roomBelow roomAbove). }
  split; [exact E|]. rewrite E. cbn [snd]. unfold Math_min.
  destruct (PrimFloat.is_nan limit) eqn:El; [exact El | reflexivity].
Qed.

End NotANumber.

(* ===================================================================== *)
(** * The scroll handler: what it leaves alone *)
(* ===================================================================== *)

Section ScrollFrame.
Local Open Scope float_scope.

(** X11. The scroll handler always returns, with at most one write: the
    removal or the addition of the "fully scrolled" class on the popover.
    Every other element, the tree, the attributes and styles of the popover,
    its other classes and the closure's variables are as they were; an event
    whose [deltaY] is NaN changes nothing at all. *)
Theorem scrollHandler_touches_one_class (popover : node) (event : WheelEvent) (w : World) :
  ∃ w' : World,
    scrollHandler popover event w = Ok tt w'
    ∧ (length (issued w w') ≤ 1)%nat
    ∧ (∀ e, e ∈ issued w w' →
            e = ClassListRemove popover CLASS_FULLY_SCROLLED
            ∨ e = ClassListAdd popover CLASS_FULLY_SCROLLED)
    ∧ (∀ n, n ≠ popover → element (document w') n = element (document w) n)
    ∧ parentNode (element (document w') popover) = parentNode (element (document w) popover)
    ∧ childNodes (element (document w') popover) = childNodes (element (document w) popover)
    ∧ attributes (element (document w') popover) = attributes (element (document w) popover)
    ∧ style (element (document w') popover) = style (element (document w) popover)
    ∧ (∀ c, c ≠ CLASS_FULLY_SCROLLED →
            token_contains c (classList (element (document w') popover))
            = token_contains c (classList (element (document w) popover)))
    ∧ maxHeight w' = maxHeight w ∧ position w' = position w ∧ render w' = render w
    ∧ (PrimFloat.is_nan (deltaY event) = true → w' = w).
Proof.
  assert (Hsame : ∃ w', w' = w ∧ Ok tt w = Ok tt w' :> Result unit) by eauto.
  assert (Hnil : ∀ w0 : World, issued w0 w0 = []).
  { intros w0. apply issued_app. now rewrite app_nil_r. }
  assert (Hkeep :
    ∃ w1, w1 = w
      ∧ (length (issued w w1) ≤ 1)%nat
    ∧ (∀ e, e ∈ issued w w1 →
            e = ClassListRemove popover CLASS_FULLY_SCROLLED
            ∨ e = ClassListAdd popover CLASS_FULLY_SCROLLED)
    ∧ (∀ n, n ≠ popover → element (document w1) n = element (document w) n)
    ∧ parentNode (element (document w1) popover) = parentNode (element (document w) popover)
    ∧ childNodes (element (document w1) popover) = childNodes (element (document w) popover)
    ∧ attributes (element (document w1) popover) = attributes (element (document w) popover)
    ∧ style (element (document w1) popover) = style (element (document w) popover)
    ∧ (∀ c, c ≠ CLASS_FULLY_SCROLLED →
            token_contains c (classList (element (document w1) popover))
            = token_contains c (classList (element (document w) popover)))
    ∧ maxHeight w1 = maxHeight w ∧ position w1 = position w ∧ render w1 = render w).
  { exists w. split; [reflexivity|]. rewrite Hnil. cbn. split; [lia|].
    split; [intros e He; now apply elem_of_nil in He|]. now repeat split. }
  destruct Hkeep as (w1 & -> & Hkeep).
  assert (Hchange : ∀ (g : list string → list string) (e : Effect),
    (e = ClassListRemove popover CLASS_FULLY_SCROLLED
     ∨ e = ClassListAdd popover CLASS_FULLY_SCROLLED) →
    (∀ c l, c ≠ CLASS_FULLY_SCROLLED → token_contains c (g l) = token_contains c l) →
    let w1 := mkWorld (update popover (λ e, set_classList (g (classList e)) e) (document w))
                (render w) (maxHeight w) (position w) (log w ++ [e]) in
      (length (issued w w1) ≤ 1)%nat
    ∧ (∀ e, e ∈ issued w w1 →
            e = ClassListRemove popover CLASS_FULLY_SCROLLED
            ∨ e = ClassListAdd popover CLASS_FULLY_SCROLLED)
    ∧ (∀ n, n ≠ popover → element (document w1) n = element (document w) n)
    ∧ parentNode (element (document w1) popover) = parentNode (element (document w) popover)
    ∧ childNodes (element (document w1) popover) = childNodes (element (document w) popover)
    ∧ attributes (element (document w1) popover) = attributes (element (document w) popover)
    ∧ style (element (document w1) popover) = style (element (document w) popover)
    ∧ (∀ c, c ≠ CLASS_FULLY_SCROLLED →
            token_contains c (classList (element (document w1) popover))
            = token_contains c (classList (element (document w) popover)))
    ∧ maxHeight w1 = maxHeight w ∧ position w1 = position w ∧ render w1 = render w).
  { intros g e He Hg w1. subst w1. rewrite (issued_app _ _ [e]) by reflexivity.
    cbn [document maxHeight position render length].
    split; [lia|].
    split; [intros e' He'; apply list_elem_of_singleton in He'; now subst|].
    split; [intros n Hn; now apply element_update_ne|].
    rewrite (project_update parentNode), (project_update childNodes),
      (project_update attributes), (project_update style) by reflexivity.
    do 4 (split; [reflexivity|]).
    split; [|now repeat split].
    intros c Hc. unfold element, update. cbn [nodes]. rewrite lookup_alter_eq.
    destruct (nodes (document w) !! popover); cbn; [now apply Hg | reflexivity]. }
  assert (Hrem : ∀ c l, c ≠ CLASS_FULLY_SCROLLED →
            token_contains c (token_remove CLASS_FULLY_SCROLLED l) = token_contains c l).
  { intros c l Hc. rewrite token_contains_remove.
    now rewrite bool_decide_eq_false_2 by exact Hc. }
  assert (Hadd : ∀ c l, c ≠ CLASS_FULLY_SCROLLED →
            token_contains c (token_add CLASS_FULLY_SCROLLED l) = token_contains c l).
  { intros c l Hc. rewrite token_contains_add.
    now rewrite bool_decide_eq_false_2 by exact Hc. }
  unfold scrollHandler.
  destruct (num_gt (- deltaY event) 0) eqn:Egt.
  - pose proof (num_gt_zero_not_le _ Egt) as Ele.
    run. unfold layout. cbn [document render]. rewrite Ele. cbn [andb].
    eexists. split; [destruct (currentTarget event); reflexivity|].
    pose proof (Hchange (token_remove CLASS_FULLY_SCROLLED) _ (or_introl eq_refl) Hrem) as H.
    cbn zeta in H.
    repeat (split; [apply H|]).
    intros Hnan%is_nan_eq. rewrite Hnan, nan_opp, nan_gt_l in Egt. discriminate.
  - run.
    destruct (currentTarget event) as [content|]; run.
    + destruct (_ && _) eqn:Etest; run.
      * eexists. split; [reflexivity|].
        pose proof (Hchange (token_add CLASS_FULLY_SCROLLED) _ (or_intror eq_refl) Hadd) as H.
        cbn zeta in H.
        repeat (split; [apply H|]).
        intros Hnan%is_nan_eq. rewrite Hnan, nan_opp, nan_le_l in Etest. discriminate.
      * exists w. split; [now destruct w|].
        repeat (split; [apply Hkeep|]). reflexivity.
    + exists w. split; [now destruct w|].
      repeat (split; [apply Hkeep|]). reflexivity.
Qed.

End ScrollFrame.

(* ===================================================================== *)
(** * Hovering *)
(* ===================================================================== *)

Section Hovering.
Import Events.

Lemma closest_from_matches (k : nat) (d : Document) (sel : Selector) (n e : node) :
  closest_from k d sel n = Some e → matches d e sel = true.
Proof.
  revert n. induction k as [|k IH]; intros n; cbn [closest_from].
  - destruct (matches d n sel) eqn:E; [now intros [= <-] | discriminate].
  - destruct (matches d n sel) eqn:E; [now intros [= <-]|].
    destruct (parentNode (element d n)); [apply IH | discriminate].
Qed.

(** The listeners a "mouseover" or a "mouseout" reaches. *)
Lemma dispatch_hover (t : Z) (d : Document) (event : Event) :
  reaches d event = true →
  (type event = "mouseover" →
   dispatch d event (addListeners t)
   = emit (delegate SELECTOR_FOOTNOTE (hoverHandler hover) d event) (addListeners t))
  ∧ (type event = "mouseout" →
     dispatch d event (addListeners t)
     = emit (delegate SELECTOR_FOOTNOTE (hoverHandler unhover) d event) (addListeners t)).
Proof.
  intros Hre. unfold dispatch, addListeners, listens.
  cbn [listeners event_type on List.filter].
  split; intros Hty; rewrite Hty, Hre; reflexivity.
Qed.

(** X12. For a "mouseover" or a "mouseout" that bubbles from an element of
    the document, the group emits nothing when no element with a footnote
    identifier encloses the target.  When one does, the default action is
    suppressed, and [hover] (for "mouseover") or [unhover] (for "mouseout")
    is invoked on the identifier of the nearest such element, unless that
    identifier is empty: then the default action is suppressed and nothing
    is invoked.  An event that does not bubble, or whose target is an
    element outside the document, does not reach the listeners: the group
    emits nothing. *)
Theorem hover_resolution (t : Z) (d : Document) (event : Event) (n : node) :
  target event = AtElement n →
  type event = "mouseover" ∨ type event = "mouseout" →
  let action := if String.eqb (type event) "mouseover" then hover else unhover in
  let signals := emitted (dispatch d event (addListeners t)) in
  (bubbles event = true → isConnected d n = true →
   match closest d n SELECTOR_FOOTNOTE with
   | None => signals = []
   | Some marker =>
       ∃ id, attributes (element d marker) !! "data-footnote-id" = Some id
             ∧ signals = PreventDefault :: (if bool_decide (id = "") then []
                                            else [Invoke (action id)])
   end)
  ∧ (bubbles event = false ∨ isConnected d n = false → signals = []).
Proof.
  intros Ht Hty action signals. split.
  2: { intros Hno. subst signals. rewrite dispatch_unreached; [reflexivity|].
       rewrite (reaches_element _ _ _ Ht).
       destruct Hno as [-> | ->]; [reflexivity | apply andb_false_r]. }
  intros Hb Hc.
  assert (Hre : reaches d event = true)
    by (rewrite (reaches_element _ _ _ Ht), Hb, Hc; reflexivity).
  assert (Hs : signals
               = (fst (delegate SELECTOR_FOOTNOTE (hoverHandler action) d event)
                  ++ match snd (delegate SELECTOR_FOOTNOTE (hoverHandler action) d event) with
                     | Some e => [Uncaught e] | None => [] end)%list).
  { subst signals action. destruct (dispatch_hover t d event Hre) as [Hover Hout].
    destruct Hty as [Hty|Hty].
    - rewrite (Hover Hty), Hty. reflexivity.
    - rewrite (Hout Hty), Hty. reflexivity. }
  rewrite Hs. unfold delegate, hoverHandler, closestTarget. rewrite Ht.
  destruct (closest d n SELECTOR_FOOTNOTE) as [marker|] eqn:Ec; [|reflexivity].
  apply closest_from_matches in Ec. cbn in Ec. apply bool_decide_eq_true in Ec as [id Hid].
  exists id. split; [exact Hid|]. cbn [getFootnoteId]. rewrite Hid.
  destruct id as [|c s]; reflexivity.
Qed.

End Hovering.

(* ===================================================================== *)
(** * Events off the elements *)
(* ===================================================================== *)

Section OffElements.
Import Events.

(** X23. A "click", a "touchend", a "mouseover" or a "mouseout" whose
    target is the document or the window, which have no [closest] method,
    makes the listener throw a type error: nothing is invoked and the default
    action is not suppressed. *)
Theorem events_off_elements_throw (t : Z) (d : Document) (event : Event) :
  target event = AtDocument ∨ target event = AtWindow →
  reaches d event = true →
  type event = "click" ∨ type event = "touchend"
  ∨ type event = "mouseover" ∨ type event = "mouseout" →
  emitted (dispatch d event (addListeners t)) = [Uncaught TypeError]
  ∧ toggleOnTouch d event = ([], Some TypeError)
  ∧ delegate SELECTOR_FOOTNOTE (hoverHandler hover) d event = ([], Some TypeError).
Proof.
  intros Ht Hre Hty.
  assert (Htoggle : toggleOnTouch d event = ([], Some TypeError)).
  { unfold toggleOnTouch, closestTarget. now destruct Ht as [-> | ->]. }
  assert (Hdel : ∀ a, delegate SELECTOR_FOOTNOTE (hoverHandler a) d event
                      = ([], Some TypeError)).
  { intros a. unfold delegate. now destruct Ht as [-> | ->]. }
  split; [|split; [exact Htoggle | apply Hdel]].
  unfold dispatch, addListeners, listens. cbn [listeners event_type List.filter].
  destruct Hty as [Hty|[Hty|[Hty|Hty]]]; rewrite Hty, Hre;
    cbn [String.eqb Ascii.eqb Bool.eqb andb List.filter fold_left run_handler handler];
    unfold emit; cbn [emitted listeners aborted repositionThrottle resizeThrottle now];
    rewrite ?Htoggle, ?Hdel; reflexivity.
Qed.

End OffElements.

(* ===================================================================== *)
(** * Hiding the containers of the footnotes *)
(* ===================================================================== *)

Section HidingFacts.
Import Setup.
Variable tagName : node → string.

Lemma only_hidden_refl d : only_hidden d d.
Proof. repeat split; auto. Qed.

Lemma only_hidden_trans d1 d2 d3 :
  only_hidden d1 d2 → only_hidden d2 d3 → only_hidden d1 d3.
Proof.
  intros (B1 & S1 & H1) (B2 & S2 & H2). split; [congruence|]. split; [congruence|].
  intros n. destruct (H1 n) as (E1 & P1 & C1 & A1 & Y1 & T1 & V1).
  destruct (H2 n) as (E2 & P2 & C2 & A2 & Y2 & T2 & V2).
  split; [now rewrite E2|].
  repeat split; try congruence.
  - intros c Hc. now rewrite T2, T1.
  - auto.
Qed.

Lemma only_hidden_mark d n :
  only_hidden d (update n (λ e, set_classList (token_add CLASS_PRINT_ONLY (classList e)) e) d).
Proof.
  split; [reflexivity|]. split; [apply size_update|]. intros m.
  rewrite exists_update.
  rewrite (project_update parentNode), (project_update childNodes),
    (project_update attributes), (project_update style) by reflexivity.
  do 5 (split; [reflexivity|]).
  assert (Hc : ∀ c, token_contains c (classList (element (update n
             (λ e, set_classList (token_add CLASS_PRINT_ONLY (classList e)) e) d) m)) = true
             ↔ (token_contains c (classList (element d m)) = true
                ∨ (c = CLASS_PRINT_ONLY ∧ n = m ∧ is_Some (nodes d !! m)))).
  { intros c. unfold element, update. cbn [nodes]. rewrite lookup_alter.
    destruct (decide (n = m)) as [->|Hne].
    - destruct (nodes d !! m) as [e|]; cbn.
      + rewrite token_contains_add, orb_true_iff, bool_decide_eq_true. split.
        * intros [->|H]; [right; eauto | now left].
        * intros [H|(-> & _)]; [now right | now left].
      + split; [intros H; discriminate | intros [H|(_ & _ & [? H])]; discriminate].
    - split; [now left | intros [H|(_ & H & _)]; [exact H | contradiction]]. }
  split.
  - intros c Hne. apply eq_true_iff_eq. rewrite Hc. split; [|now left].
    intros [H|(H & _)]; [exact H | contradiction].
  - unfold visible. rewrite !negb_true_iff. intros H.
    destruct (token_contains CLASS_PRINT_ONLY (classList (element d m))) eqn:E; [|reflexivity].
    assert (Ht : token_contains CLASS_PRINT_ONLY (classList (element (update n
             (λ e, set_classList (token_add CLASS_PRINT_ONLY (classList e)) e) d) m)) = true)
      by (apply Hc; now left).
    congruence.
Qed.

(** What a run of [m] leaves, returned or thrown: the document only hidden,
    the closure's variables and the rendering untouched, and no write but
    marks. *)
Definition hides (m : M unit) : Prop :=
  ∀ w, let w' := world_of (m w) in
       only_hidden (document w) (document w')
       ∧ (∃ l, log w' = (log w ++ l)%list ∧ marks_only l)
       ∧ render w' = render w ∧ maxHeight w' = maxHeight w ∧ position w' = position w.

Lemma hides_skip : hides skip.
Proof.
  intros w. cbn. split; [apply only_hidden_refl|]. split; [|auto].
  exists []. split; [now rewrite app_nil_r|]. intros e He. now apply elem_of_nil in He.
Qed.

Lemma hides_throw e : hides (throw e).
Proof. apply hides_skip. Qed.

Lemma hides_seq (m k : M unit) : hides m → hides k → hides (m;; k).
Proof.
  intros Hm Hk w. unfold mbind, M_bind. specialize (Hm w). cbn zeta in *.
  destruct (m w) as [[] w1|e w1]; cbn [world_of] in *; [|exact Hm].
  specialize (Hk w1). cbn zeta in Hk.
  destruct Hm as (D1 & (l1 & L1 & M1) & R1 & X1 & P1).
  destruct Hk as (D2 & (l2 & L2 & M2) & R2 & X2 & P2).
  split; [eapply only_hidden_trans; eauto|].
  split; [|repeat split; congruence].
  exists (l1 ++ l2)%list. split; [now rewrite L2, L1, app_assoc|].
  intros e He. apply elem_of_app in He as [He|He]; auto.
Qed.

Lemma hides_addClass n : hides (addClass n CLASS_PRINT_ONLY).
Proof.
  intros w. run. split; [apply only_hidden_mark|]. split; [|auto].
  eexists. split; [reflexivity|]. intros e He.
  apply list_elem_of_singleton in He. eauto.
Qed.

Lemma hides_setAllPrintOnly (l : list node) : hides (setAllPrintOnly l).
Proof.
  unfold setAllPrintOnly. induction l as [|n l IH]; cbn [forEach]; [apply hides_skip|].
  apply hides_seq; [apply hides_addClass | exact IH].
Qed.

Lemma hides_gets {A} (f : World → A) (k : A → M unit) :
  (∀ a, hides (k a)) → hides (a ← gets f; k a).
Proof. intros H w. apply (H (f w) w). Qed.

Lemma hides_hide_from (fuel : nat) (element : node) : hides (hide_from tagName fuel element).
Proof.
  revert element. induction fuel as [|k IH]; intros element; cbn [hide_from];
    apply hides_gets; intros d;
    (destruct (parentNode (Dom.element d element)) as [container|];
       [|apply hides_throw]);
    (destruct (_ =? _)%nat; [|apply hides_skip]);
    apply hides_seq; auto using hides_setAllPrintOnly, hides_skip.
Qed.

Lemma setAllPrintOnly_runs (l : list node) (w : World) :
  ∃ w1, setAllPrintOnly l w = Ok tt w1
        ∧ only_hidden (document w) (document w1)
        ∧ ∀ n, n ∈ l → is_Some (nodes (document w) !! n) → visible (document w1) n = false.
Proof.
  unfold setAllPrintOnly. revert w. induction l as [|m l IH]; intros w; cbn [forEach].
  - exists w. split; [reflexivity|]. split; [apply only_hidden_refl|].
    intros n Hn. now apply elem_of_nil in Hn.
  - run.
    match goal with
    | |- context [forEach _ l ?w0] => destruct (IH w0) as (w1 & E & H1 & V1)
    end.
    cbn [document] in *.
    exists w1. split; [exact E|].
    split; [eapply only_hidden_trans; [apply only_hidden_mark | exact H1]|].
    intros n Hn Hex. apply elem_of_cons in Hn as [->|Hn].
    + destruct H1 as (_ & _ & H1). destruct (H1 m) as (_ & _ & _ & _ & _ & _ & Hv).
      destruct (visible (document w1) m) eqn:E1; [|reflexivity].
      specialize (Hv eq_refl). unfold visible in Hv.
      rewrite element_update_eq in Hv by exact Hex. cbn [classList set_classList] in Hv.
      rewrite token_contains_add in Hv. now rewrite bool_decide_eq_true_2 in Hv.
    + apply V1; [exact Hn | now apply exists_update].
Qed.

(** The test of the source: as many visible children as visible separators,
    that is, no visible child that is not a separator. *)
Lemma separators_only (d : Document) (container : node) :
  (length (visibleElements d container)
   =? length (visibleSeparators tagName d container))%nat = true
  ↔ ∀ x, x ∈ childNodes (element d container) → visible d x = true → tagName x = "HR".
Proof.
  unfold visibleSeparators, visibleElements.
  induction (childNodes (element d container)) as [|y l IH]; cbn [List.filter].
  - split; [intros _ x Hx; now apply elem_of_nil in Hx | reflexivity].
  - destruct (visible d y) eqn:Ey; cbn [List.filter length].
    + destruct (String.eqb (tagName y) "HR") eqn:Et; cbn [length].
      * change (S ?a =? S ?b)%nat with (a =? b)%nat.
        rewrite IH. apply String.eqb_eq in Et. split.
        -- intros H x Hx Hv. apply elem_of_cons in Hx as [->|Hx]; auto.
        -- intros H x Hx Hv. apply H; [apply elem_of_cons; now right | exact Hv].
      * apply String.eqb_neq in Et. split.
        -- intros H. apply Nat.eqb_eq in H.
           pose proof (List.filter_length_le (λ el, String.eqb (tagName el) "HR")
                         (List.filter (visible d) l)). lia.
        -- intros H. destruct Et. apply H; [apply elem_of_cons; now left | exact Ey].
    + rewrite IH. split.
      * intros H x Hx Hv. apply elem_of_cons in Hx as [->|Hx]; [congruence | auto].
      * intros H x Hx Hv. apply H; [apply elem_of_cons; now right | exact Hv].
Qed.


Lemma hide_from_step (k : nat) (element : node) (w : World) :
  hide_from tagName k element w
  = match parentNode (Dom.element (document w) element) with
    | None => Throw TypeError w
    | Some container =>
        if (length (visibleElements (document w) container)
            =? length (visibleSeparators tagName (document w) container))%nat
        then (setAllPrintOnly (visibleSeparators tagName (document w) container ++ [container]);;
              match k with O => skip | S k' => hide_from tagName k' container end) w
        else Ok tt w
    end.
Proof.
  destruct k; cbn [hide_from]; unfold mbind at 1, M_bind at 1, gets at 1;
    destruct (parentNode (Dom.element (document w) element)); try reflexivity;
    now destruct (_ =? _)%nat.
Qed.

Lemma recursiveHide_unfold (element : node) (w : World) :
  recursiveHideFootnoteContainer tagName element w
  = hide_from tagName (size (nodes (document w))) element w.
Proof. reflexivity. Qed.

(** X13. Whether it returns or throws, [recursiveHideFootnoteContainer]
    only adds the print-only class: every write is such an addition, the
    tree, the attributes, the styles and every other class of every element
    are as they were, no element that was print-only stops being so, and the
    closure's variables are untouched. *)
Theorem recursiveHide_only_marks (element : node) (w : World) :
  let w' := world_of (recursiveHideFootnoteContainer tagName element w) in
  only_hidden (document w) (document w')
  ∧ marks_only (issued w w')
  ∧ render w' = render w ∧ maxHeight w' = maxHeight w ∧ position w' = position w.
Proof.
  pose proof (hides_hide_from (size (nodes (document w))) element w) as H.
  cbn zeta in *. rewrite recursiveHide_unfold.
  destruct H as (D & (l & L & Ml) & R).
  split; [exact D|]. split; [|exact R]. now rewrite (issued_app _ _ _ L).
Qed.

(** X15. The first step.  An element without a parent makes
    [recursiveHideFootnoteContainer] throw a type error at once.  When the
    parent shows a child that is not a separator, the call returns and
    nothing has changed.  When every visible child of the parent is a
    separator, the parent and all its children are print-only afterwards,
    however the call ends. *)
Theorem recursiveHide_first_container (element : node) (w : World) :
  let d := document w in
  let r := recursiveHideFootnoteContainer tagName element w in
  match parentNode (Dom.element d element) with
  | None => r = Throw TypeError w
  | Some container =>
      (∀ x, x ∈ childNodes (Dom.element d container) →
            visible d x = true → tagName x ≠ "HR" → r = Ok tt w)
      ∧ ((∀ x, x ∈ childNodes (Dom.element d container) →
               visible d x = true → tagName x = "HR") →
         (is_Some (nodes d !! container) → visible (document (world_of r)) container = false)
         ∧ ∀ x, x ∈ childNodes (Dom.element d container) → is_Some (nodes d !! x) →
                visible (document (world_of r)) x = false)
  end.
Proof.
  intros d r. subst r. rewrite recursiveHide_unfold. fold d.
  generalize (size (nodes d)). intros k.
  rewrite hide_from_step. fold d.
  destruct (parentNode (Dom.element d element)) as [container|]; [|reflexivity].
  split.
  - intros x Hx Hv Ht.
    destruct (_ =? _)%nat eqn:E; [|reflexivity].
    destruct Ht. revert x Hx Hv. now apply separators_only.
  - intros Hall. pose proof Hall as Htest. apply separators_only in Htest. rewrite Htest.
    unfold mbind, M_bind.
    destruct (setAllPrintOnly_runs (visibleSeparators tagName d container ++ [container]) w)
      as (w1 & E1 & H1 & V1).
    rewrite E1.
    set (rest := match k with O => skip | S k' => hide_from tagName k' container end).
    assert (Hrest : only_hidden (document w1) (document (world_of (rest w1)))).
    { subst rest. destruct k; [apply hides_skip | apply hides_hide_from]. }
    assert (Hmono : ∀ n, visible (document w1) n = false →
                         visible (document (world_of (rest w1))) n = false).
    { intros n Hn. destruct Hrest as (_ & _ & Hr).
      destruct (Hr n) as (_ & _ & _ & _ & _ & _ & Hv).
      destruct (visible (document (world_of (rest w1))) n); [|reflexivity].
      rewrite Hv in Hn; [discriminate | reflexivity]. }
    split.
    + intros Hex. apply Hmono, V1; [|exact Hex].
      apply elem_of_app. right. now apply list_elem_of_singleton.
    + intros x Hx Hex. apply Hmono.
      destruct (visible d x) eqn:Ev.
      * apply V1; [|exact Hex]. apply elem_of_app. left.
        unfold visibleSeparators, visibleElements.
        apply list_elem_of_In, List.filter_In. split.
        -- apply List.filter_In. split; [now apply list_elem_of_In | exact Ev].
        -- apply String.eqb_eq. now apply Hall.
      * destruct H1 as (_ & _ & H1). destruct (H1 x) as (_ & _ & _ & _ & _ & _ & Hv).
        destruct (visible (document w1) x); [|reflexivity].
        fold d in Hv. rewrite Hv in Ev; [discriminate | reflexivity].
Qed.

(** Marks leave the chain of ancestors as it is. *)
Lemma ancestors_only_hidden d d' x l :
  only_hidden d d' → ancestors d x l → ancestors d' x l.
Proof.
  intros (_ & _ & H) Ha. induction Ha as [x Hx|x p l Hx _ IH].
  - apply ancestors_root. destruct (H x) as (_ & P & _). congruence.
  - apply ancestors_parent with (p := p); [|exact IH].
    destruct (H x) as (_ & P & _). congruence.
Qed.



End HidingFacts.

(* ===================================================================== *)
(** * Templates *)
(* ===================================================================== *)

Section TemplateFacts.
Import Setup.

Variable inherited : string → option string.

Implicit Types (s key after rest : string) (c : ascii).

Lemma append_cons c s1 s2 : String c s1 +:+ s2 = String c (s1 +:+ s2).
Proof. reflexivity. Qed.

Lemma append_empty s : "" +:+ s = s.
Proof. reflexivity. Qed.

Lemma strip_prefix_length p s r :
  strip_prefix p s = Some r → String.length s = (String.length p + String.length r)%nat.
Proof.
  revert s. induction p as [|a p IH]; intros s; cbn.
  - now intros [= ->].
  - destruct s as [|c s]; [discriminate|]. destruct (Ascii.eqb a c); [|discriminate].
    intros H%IH. cbn. now rewrite H.
Qed.

Lemma strip_prefix_append p s : strip_prefix p (p +:+ s) = Some s.
Proof.
  induction p as [|a p IH]; [reflexivity|].
  rewrite append_cons. cbn [strip_prefix]. now rewrite Ascii.eqb_refl.
Qed.

Lemma skip_white_space_length_le (n : nat) s :
  (String.length s ≤ n)%nat →
  (String.length (skip_white_space s) ≤ String.length s)%nat.
Proof.
  revert s. induction n as [|n IH]; intros s Hn.
  - destruct s; [cbn; lia | cbn in Hn; lia].
  - destruct s as [|c1 rest1]; [cbn; lia|].
    cbn [skip_white_space]. cbn [String.length] in Hn.
    destruct (is_white_space c1).
    { specialize (IH rest1). cbn [String.length]. lia. }
    destruct (_ <? _)%nat; [lia|].
    destruct rest1 as [|c2 rest2]; [lia|]. cbn [String.length] in Hn.
    destruct (_ && _).
    { specialize (IH rest2). cbn [String.length]. lia. }
    destruct rest2 as [|c3 rest3]; [lia|]. cbn [String.length] in Hn.
    destruct (wide_space c1 c2 c3); [|lia].
    specialize (IH rest3). cbn [String.length]. lia.
Qed.

Lemma skip_white_space_length s :
  (String.length (skip_white_space s) ≤ String.length s)%nat.
Proof. now apply (skip_white_space_length_le (String.length s)). Qed.

Lemma take_word_length s :
  (String.length (snd (take_word s)) ≤ String.length s)%nat.
Proof.
  induction s as [|c s IH]; cbn; [lia|].
  destruct (is_word c); [|cbn; lia].
  destruct (take_word s) as [w r]. cbn in *. lia.
Qed.

(** A match is not empty. *)
Lemma match_tag_length s key after :
  match_tag s = Some (key, after) → (String.length after < String.length s)%nat.
Proof.
  unfold match_tag.
  destruct (strip_prefix "<%" s) as [s1|] eqn:E1; [|discriminate].
  apply strip_prefix_length in E1. cbn [String.length] in E1.
  set (s2 := default s1 (strip_prefix "=" s1)).
  assert (H2 : (String.length s2 ≤ String.length s1)%nat).
  { subst s2. destruct (strip_prefix "=" s1) as [r|] eqn:E; cbn; [|lia].
    apply strip_prefix_length in E. lia. }
  pose proof (skip_white_space_length s2) as H3.
  pose proof (take_word_length (skip_white_space s2)) as H4.
  destruct (take_word (skip_white_space s2)) as [[|k ks] s3]; [discriminate|].
  cbn [snd] in H4.
  pose proof (skip_white_space_length s3) as H5.
  destruct (strip_prefix "%>" (skip_white_space s3)) as [r|] eqn:E6; [|discriminate].
  apply strip_prefix_length in E6. intros [= _ <-]. lia.
Qed.

(** The length of the template is fuel enough. *)
Lemma replace_tags_fuel (f : string → string) (k k' : nat) s :
  (String.length s ≤ k)%nat → (String.length s ≤ k')%nat →
  replace_tags k f s = replace_tags k' f s.
Proof.
  revert k' s. induction k as [|k IH]; intros k' s Hk Hk'.
  - destruct s; [|cbn in Hk; lia]. now destruct k'.
  - destruct k' as [|k'].
    + destruct s; [reflexivity | cbn in Hk'; lia].
    + cbn [replace_tags]. destruct s as [|c rest]; [reflexivity|].
      destruct (match_tag (String c rest)) as [[key after]|] eqn:E.
      * apply match_tag_length in E. f_equal. apply IH; lia.
      * f_equal. cbn in Hk, Hk'. apply IH; lia.
Qed.

Lemma interpolate_step (replacement : TemplateValues) c rest :
  interpolate inherited (String c rest) replacement
  = match match_tag (String c rest) with
    | Some (key, after) =>
        lookup inherited replacement key +:+ interpolate inherited after replacement
    | None => String c (interpolate inherited rest replacement)
    end.
Proof.
  unfold interpolate. cbn [String.length replace_tags].
  destruct (match_tag (String c rest)) as [[key after]|] eqn:E.
  - f_equal. apply replace_tags_fuel; [|lia]. apply match_tag_length in E. cbn in E. lia.
  - reflexivity.
Qed.

(** ** Text *)

Lemma match_tag_other c rest : c ≠ "<"%char → match_tag (String c rest) = None.
Proof.
  intros Hc. unfold match_tag. cbn [strip_prefix].
  destruct (Ascii.eqb_spec "<" c) as [<-|]; [now destruct Hc | reflexivity].
Qed.

(** X16. [interpolate] copies text: the empty template gives the empty
    text; a character other than [<], and any character at which no tag
    starts, is copied and the rest is interpolated; a template without [<]
    is returned as it is. *)
Theorem interpolate_copies_text (replacement : TemplateValues) :
  interpolate inherited "" replacement = ""
  ∧ (∀ c rest, c ≠ "<"%char →
       interpolate inherited (String c rest) replacement
       = String c (interpolate inherited rest replacement))
  ∧ (∀ c rest, match_tag (String c rest) = None →
       interpolate inherited (String c rest) replacement
       = String c (interpolate inherited rest replacement))
  ∧ (∀ s, all_chars (λ c, negb (Ascii.eqb c "<")) s = true →
       interpolate inherited s replacement = s).
Proof.
  split; [reflexivity|].
  assert (Hnone : ∀ c rest, match_tag (String c rest) = None →
            interpolate inherited (String c rest) replacement
            = String c (interpolate inherited rest replacement)).
  { intros c rest H. now rewrite interpolate_step, H. }
  assert (Hother : ∀ c rest, c ≠ "<"%char →
            interpolate inherited (String c rest) replacement
            = String c (interpolate inherited rest replacement)).
  { intros c rest Hc. now apply Hnone, match_tag_other. }
  split; [exact Hother|]. split; [exact Hnone|].
  induction s as [|c s IH]; cbn [all_chars]; [reflexivity|].
  intros [Hc Hs]%andb_true_iff. rewrite Hother, IH; [reflexivity | exact Hs|].
  intros ->. discriminate.
Qed.

(** ** Tags *)

Lemma is_word_ascii c :
  is_word c = true → is_white_space c = false ∧ (nat_of_ascii c <? 194)%nat = true
                     ∧ c ≠ "="%char ∧ c ≠ "%"%char.
Proof.
  unfold is_word, is_white_space.
  assert (H61 : nat_of_ascii "=" = 61%nat) by reflexivity.
  assert (H37 : nat_of_ascii "%" = 37%nat) by reflexivity.
  intros H. repeat split.
  - apply not_true_is_false. intros H'.
    rewrite !orb_true_iff, !andb_true_iff, !Nat.leb_le, !Nat.eqb_eq in *. lia.
  - apply Nat.ltb_lt.
    rewrite !orb_true_iff, !andb_true_iff, !Nat.leb_le, !Nat.eqb_eq in *. lia.
  - intros ->. rewrite H61 in H. discriminate.
  - intros ->. rewrite H37 in H. discriminate.
Qed.

Lemma skip_white_space_spaces ws s :
  all_chars is_white_space ws = true →
  skip_white_space (ws +:+ s) = skip_white_space s.
Proof.
  induction ws as [|c ws IH]; cbn [all_chars]; [reflexivity|].
  intros [Hc Hws]%andb_true_iff. rewrite append_cons. cbn [skip_white_space].
  rewrite Hc. now apply IH.
Qed.

Lemma skip_white_space_stops c rest :
  is_white_space c = false → (nat_of_ascii c <? 194)%nat = true →
  skip_white_space (String c rest) = String c rest.
Proof. intros H1 H2. cbn [skip_white_space]. now rewrite H1, H2. Qed.

Lemma take_word_append key s :
  all_chars is_word key = true →
  (∀ c rest, s = String c rest → is_word c = false) →
  take_word (key +:+ s) = (key, s).
Proof.
  intros Hkey Hs. induction key as [|c key IH]; cbn [all_chars] in *.
  - rewrite append_empty. destruct s as [|c rest]; [reflexivity|].
    cbn [take_word]. now rewrite (Hs c rest).
  - apply andb_true_iff in Hkey as [Hc Hkey]. rewrite append_cons. cbn [take_word].
    rewrite Hc, IH by exact Hkey. reflexivity.
Qed.

Lemma match_tag_well_formed (eq ws1 key ws2 rest : string) :
  eq = "" ∨ eq = "=" →
  all_chars is_white_space ws1 = true →
  key ≠ "" → all_chars is_word key = true →
  all_chars is_white_space ws2 = true →
  match_tag ("<%" +:+ eq +:+ ws1 +:+ key +:+ ws2 +:+ "%>" +:+ rest) = Some (key, rest).
Proof.
  intros Heq Hws1 Hne Hkey Hws2. unfold match_tag.
  rewrite strip_prefix_append.
  assert (Htail : skip_white_space (ws2 +:+ "%>" +:+ rest) = "%>" +:+ rest).
  { rewrite skip_white_space_spaces by exact Hws2. reflexivity. }
  assert (Hword : take_word (key +:+ ws2 +:+ "%>" +:+ rest) = (key, ws2 +:+ "%>" +:+ rest)).
  { apply take_word_append; [exact Hkey|]. intros c r E.
    destruct ws2 as [|w ws2]; rewrite ?append_cons, ?append_empty in E.
    - now injection E as <- _.
    - injection E as <- _. cbn [all_chars] in Hws2.
      apply andb_true_iff in Hws2 as [Hw _].
      destruct (is_word w) eqn:Ew; [|reflexivity].
      apply is_word_ascii in Ew as [Ew _]. congruence. }
  assert (Hhead : skip_white_space (ws1 +:+ key +:+ ws2 +:+ "%>" +:+ rest)
                  = key +:+ ws2 +:+ "%>" +:+ rest).
  { rewrite skip_white_space_spaces by exact Hws1.
    destruct key as [|k key]; [now destruct Hne|]. cbn [all_chars] in Hkey.
    apply andb_true_iff in Hkey as [Hk _]. apply is_word_ascii in Hk as (H1 & H2 & _).
    rewrite append_cons. now apply skip_white_space_stops. }
  assert (Hs2 : default (eq +:+ ws1 +:+ key +:+ ws2 +:+ "%>" +:+ rest)
                  (strip_prefix "=" (eq +:+ ws1 +:+ key +:+ ws2 +:+ "%>" +:+ rest))
                = ws1 +:+ key +:+ ws2 +:+ "%>" +:+ rest).
  { destruct Heq as [-> | ->].
    - rewrite append_empty.
      destruct ws1 as [|w ws1].
      + rewrite append_empty.
        destruct key as [|k key]; [now destruct Hne|]. cbn [all_chars] in Hkey.
        apply andb_true_iff in Hkey as [Hk _]. apply is_word_ascii in Hk as (_ & _ & H3 & _).
        rewrite append_cons. cbn [strip_prefix].
        destruct (Ascii.eqb_spec "=" k) as [<-|]; [now destruct H3 | reflexivity].
      + cbn [all_chars] in Hws1. apply andb_true_iff in Hws1 as [Hw _].
        rewrite append_cons. cbn [strip_prefix].
        destruct (Ascii.eqb_spec "=" w) as [<-|]; [discriminate | reflexivity].
    - rewrite append_cons, append_empty. cbn [strip_prefix].
      now rewrite Ascii.eqb_refl. }
  rewrite Hs2, Hhead, Hword.
  destruct key as [|k key]; [now destruct Hne|].
  now rewrite Htail, strip_prefix_append.
Qed.

(** X17. A tag at the head of a template, [<%] or [<%=], a key of word
    characters and [%>], with any white space around the key, is replaced by
    the value of the key, and the rest of the template is interpolated on
    its own: the value is not searched for tags.  The value is the decimal
    form of [number], or [id], [content] or [reference]; any other key gives
    what the object inherits under that name, and the empty text when it
    inherits nothing. *)
Theorem interpolate_replaces_tag (replacement : TemplateValues)
    (eq ws1 key ws2 rest : string) :
  eq = "" ∨ eq = "=" →
  all_chars is_white_space ws1 = true →
  key ≠ "" → all_chars is_word key = true →
  all_chars is_white_space ws2 = true →
  interpolate inherited ("<%" +:+ eq +:+ ws1 +:+ key +:+ ws2 +:+ "%>" +:+ rest) replacement
  = lookup inherited replacement key +:+ interpolate inherited rest replacement
  ∧ lookup inherited replacement key
    = (if String.eqb key "number" then pretty (number replacement)
       else if String.eqb key "id" then id replacement
       else if String.eqb key "content" then content replacement
       else if String.eqb key "reference" then reference replacement
       else default "" (inherited key)).
Proof.
  intros Heq Hws1 Hne Hkey Hws2. split; [|reflexivity].
  pose proof (match_tag_well_formed eq ws1 key ws2 rest Heq Hws1 Hne Hkey Hws2) as H.
  rewrite !append_cons, append_empty in *.
  now rewrite interpolate_step, H.
Qed.

End TemplateFacts.

(* ===================================================================== *)
(** * Numbers and references *)
(* ===================================================================== *)

Section PageFacts.
Import Setup.

Variable closest_by : string → node → option node.
Variable href : node → string.
Variable element_id : node → string.
Variable by_id : string → list node.

(** ** Numbering *)

Section Numbers.

Variable resetSelector : string.

Local Abbreviation parent item := (closest_by resetSelector (fst (fst item))).
Local Abbreviation numbered st items :=
  (map_with (resetNumbers closest_by resetSelector) st items).
Local Abbreviation next st a :=
  (if decide (previousParent st = parent a) then S (count st) else 1%nat).

Lemma numbered_cons st a items :
  numbered st (a :: items)
  = (fst (fst a), snd (fst a), set_number (next st a) (snd a))
    :: numbered (mkNumbering (next st a) (parent a)) items.
Proof. destruct a as [[r b] v]. reflexivity. Qed.

Lemma numbered_length st items : length (numbered st items) = length items.
Proof.
  revert st. induction items as [|a items IH]; intros st; [reflexivity|].
  rewrite numbered_cons. cbn [length]. now rewrite IH.
Qed.

Lemma numbered_keeps st items i a b :
  items !! i = Some a → numbered st items !! i = Some b →
  fst (fst b) = fst (fst a) ∧ snd (fst b) = snd (fst a)
  ∧ id (snd b) = id (snd a) ∧ content (snd b) = content (snd a)
  ∧ reference (snd b) = reference (snd a).
Proof.
  revert st i. induction items as [|x items IH]; intros st i; [discriminate|].
  rewrite numbered_cons. destruct i as [|i]; cbn [lookup list_lookup].
  - intros [= ->] [= <-]. now repeat split.
  - apply IH.
Qed.

Lemma numbered_first st a items b :
  numbered st (a :: items) !! 0%nat = Some b → number (snd b) = next st a.
Proof. rewrite numbered_cons. now intros [= <-]. Qed.

Lemma numbered_next st items i a a' b b' :
  items !! i = Some a → items !! S i = Some a' →
  numbered st items !! i = Some b → numbered st items !! S i = Some b' →
  number (snd b')
  = if decide (parent a = parent a') then S (number (snd b)) else 1%nat.
Proof.
  revert st i. induction items as [|x items IH]; intros st i; [discriminate|].
  rewrite numbered_cons. destruct i as [|i]; cbn [lookup list_lookup].
  - intros [= ->] Ha' [= <-]. destruct items as [|y items]; [discriminate|].
    injection Ha' as ->. rewrite numbered_cons. now intros [= <-].
  - apply IH.
Qed.

Lemma numbered_run st items p :
  previousParent st = p ∨ count st = 0%nat →
  (∀ a, a ∈ items → parent a = p) →
  map (λ b, number (snd b)) (numbered st items) = seq (S (count st)) (length items).
Proof.
  revert st. induction items as [|a items IH]; intros st Hst Hall; [reflexivity|].
  rewrite numbered_cons. cbn [map length seq snd number set_number].
  assert (Ha : parent a = p) by (apply Hall, elem_of_cons; now left).
  assert (Hn : next st a = S (count st)).
  { destruct (decide (previousParent st = parent a)); [reflexivity|].
    destruct Hst as [Hst|Hst]; [congruence | now rewrite Hst]. }
  rewrite Hn. f_equal.
  rewrite (IH (mkNumbering (S (count st)) (parent a))); [reflexivity | now left|].
  intros x Hx. apply Hall, elem_of_cons. now right.
Qed.

(** X18. With an empty reset selector the footnotes keep their numbers.
    Otherwise [resetNumbers] changes the numbers only: the first footnote
    gets 1, and every other one gets one more than the footnote before it
    when the references of the two have the same nearest ancestor matching
    the selector (or both have none), and 1 when they do not.  When all the
    references share that ancestor the numbers are 1, 2, 3, ... *)
Theorem resetNumbers_counts_runs (items : list Prepared) :
  let out := number_footnotes closest_by resetSelector items in
  (resetSelector = "" → out = items)
  ∧ (resetSelector ≠ "" →
     length out = length items
     ∧ (∀ i a b, items !! i = Some a → out !! i = Some b →
          fst (fst b) = fst (fst a) ∧ snd (fst b) = snd (fst a)
          ∧ id (snd b) = id (snd a) ∧ content (snd b) = content (snd a)
          ∧ reference (snd b) = reference (snd a))
     ∧ (∀ b, out !! 0%nat = Some b → number (snd b) = 1%nat)
     ∧ (∀ i a a' b b',
          items !! i = Some a → items !! S i = Some a' →
          out !! i = Some b → out !! S i = Some b' →
          number (snd b')
          = if decide (closest_by resetSelector (fst (fst a))
                       = closest_by resetSelector (fst (fst a')))
            then S (number (snd b)) else 1%nat)
     ∧ ((∀ a a', a ∈ items → a' ∈ items →
           closest_by resetSelector (fst (fst a)) = closest_by resetSelector (fst (fst a'))) →
        map (λ b, number (snd b)) out = seq 1 (length items))).
Proof.
  intros out. subst out. unfold number_footnotes. split.
  - now intros ->.
  - intros Hne. destruct resetSelector as [|c s] eqn:E; [now destruct Hne|].
    cbn [truthy]. rewrite <- E.
    split; [apply numbered_length|].
    split; [apply numbered_keeps|].
    split.
    { destruct items as [|a items]; [discriminate|]. intros b Hb.
      rewrite (numbered_first _ _ _ _ Hb). cbn. now destruct (decide _). }
    split; [apply numbered_next|].
    intros Hall. destruct items as [|a items]; [reflexivity|].
    apply (numbered_run (mkNumbering 0 None) (a :: items) (parent a)); [now right|].
    intros x Hx. apply Hall; [exact Hx | apply elem_of_cons; now left].
Qed.

End Numbers.

(** ** References *)

Section References.

Variables (anchorParentSelector footnoteSelector : string).

Local Abbreviation find_ allowDuplicates :=
  (findReference closest_by href element_id by_id allowDuplicates
     anchorParentSelector footnoteSelector).

Lemma before_hash_clean s :
  all_chars (λ c, negb (Ascii.eqb c "#")) s = true → before_hash s = s.
Proof.
  induction s as [|c s IH]; cbn; [reflexivity|].
  intros [Hc Hs]%andb_true_iff. apply negb_true_iff in Hc. rewrite Hc. now rewrite IH.
Qed.

Lemma before_hash_stops s rest :
  all_chars (λ c, negb (Ascii.eqb c "#")) s = true →
  before_hash (s +:+ String "#" rest) = s.
Proof.
  induction s as [|c s IH]; [reflexivity|]. cbn [all_chars].
  intros [Hc Hs]%andb_true_iff. apply negb_true_iff in Hc.
  rewrite append_cons. cbn [before_hash]. rewrite Hc. now rewrite IH.
Qed.

Lemma after_hash_clean s :
  all_chars (λ c, negb (Ascii.eqb c "#")) s = true → after_hash s = None.
Proof.
  induction s as [|c s IH]; cbn; [reflexivity|].
  intros [Hc Hs]%andb_true_iff. apply negb_true_iff in Hc. rewrite Hc. now apply IH.
Qed.

Lemma after_hash_first s rest :
  all_chars (λ c, negb (Ascii.eqb c "#")) s = true →
  after_hash (s +:+ String "#" rest) = Some rest.
Proof.
  induction s as [|c s IH]; [reflexivity|]. cbn [all_chars].
  intros [Hc Hs]%andb_true_iff. apply negb_true_iff in Hc.
  rewrite append_cons. cbn [after_hash]. rewrite Hc. now apply IH.
Qed.

(** What [findReference] returns, and what it does to [processed]. *)
Lemma findReference_cases (allowDuplicates : bool) (processed : list node) (link : node) :
  (find_ allowDuplicates processed link = (processed, None))
  ∨ ∃ fragment footnote body,
      fragment_of (href link) = Some fragment ∧ fragment ≠ ""
      ∧ footnote ∈ by_id fragment
      ∧ (allowDuplicates = false → footnote ∉ processed)
      ∧ closest_by footnoteSelector footnote = Some body
      ∧ find_ allowDuplicates processed link
        = ((processed ++ [body])%list,
           Some (if truthy (Some (element_id (default link (closest_by anchorParentSelector link))))
                 then element_id (default link (closest_by anchorParentSelector link))
                 else element_id link,
                 default link (closest_by anchorParentSelector link), body)).
Proof.
  unfold findReference.
  destruct (fragment_of (href link)) as [fragment|]; [|now left].
  destruct fragment as [|c s]; [now left|]. cbn [truthy negb].
  destruct (List.find _ _) as [footnote|] eqn:Ef; [|now left].
  destruct (closest_by footnoteSelector footnote) as [body|] eqn:Eb; [|now left].
  right. exists (String c s), footnote, body.
  apply List.find_some in Ef as [Hin Hp].
  split; [reflexivity|]. split; [discriminate|].
  split; [now apply list_elem_of_In|].
  split.
  { intros ->. cbn in Hp. apply negb_true_iff, bool_decide_eq_false in Hp. exact Hp. }
  split; [exact Eb | reflexivity].
Qed.

Lemma references_distinct (processed : list node) (links : list node) :
  (∀ fragment n, n ∈ by_id fragment → closest_by footnoteSelector n = Some n) →
  NoDup processed →
  NoDup (processed ++ map snd (omap (λ x, x) (map_with (find_ false) processed links))).
Proof.
  intros Hown. revert processed. induction links as [|link links IH]; intros processed Hnd.
  - cbn. now rewrite app_nil_r.
  - cbn [map_with].
    destruct (findReference_cases false processed link)
      as [E|(fragment & footnote & body & _ & _ & Hin & Hfresh & Hbody & E)]; rewrite E.
    + cbn [omap list_omap]. now apply IH.
    + cbn [omap list_omap map snd].
      rewrite (Hown _ _ Hin) in Hbody. injection Hbody as <-.
      specialize (IH (processed ++ [footnote])%list).
      rewrite <- app_assoc in IH. apply IH.
      apply NoDup_app. split; [exact Hnd|]. split; [|apply NoDup_singleton].
      intros x Hx Hx'. apply list_elem_of_singleton in Hx' as ->. now apply Hfresh.
Qed.

(** X19. Without duplicates allowed, and when every element a link points
    to is itself the footnote body the selector finds, no body is returned
    for two links. *)
Theorem references_never_repeat_a_body (links : list node) :
  (∀ fragment n, n ∈ by_id fragment → closest_by footnoteSelector n = Some n) →
  NoDup (map snd (references closest_by href element_id by_id false
                    anchorParentSelector footnoteSelector links)).
Proof.
  intros Hown. apply (references_distinct [] links Hown). constructor.
Qed.

(** X20. A link whose address has no [#], or nothing between the first
    [#] and the next, gives no reference and leaves [processed] as it is.
    The fragment is the text between the first [#] and the next one, or the
    end.  With duplicates allowed, what a link gives does not depend on the
    links processed before. *)
Theorem findReference_without_fragment (allowDuplicates : bool)
    (processed : list node) (link : node) :
  (fragment_of (href link) = None ∨ fragment_of (href link) = Some "" →
   find_ allowDuplicates processed link = (processed, None))
  ∧ (all_chars (λ c, negb (Ascii.eqb c "#")) (href link) = true →
     fragment_of (href link) = None)
  ∧ (∀ base fragment rest,
       all_chars (λ c, negb (Ascii.eqb c "#")) base = true →
       all_chars (λ c, negb (Ascii.eqb c "#")) fragment = true →
       (href link = base +:+ "#" +:+ fragment
        ∨ href link = base +:+ "#" +:+ fragment +:+ "#" +:+ rest) →
       fragment_of (href link) = Some fragment)
  ∧ snd (find_ true processed link) = snd (find_ true [] link).
Proof.
  split; [|split; [|split]].
  - unfold find_, findReference. now intros [-> | ->].
  - intros H. unfold fragment_of. now rewrite after_hash_clean.
  - intros base fragment rest Hb Hf [-> | ->]; unfold fragment_of;
      rewrite ?append_cons, ?append_empty, after_hash_first by exact Hb; cbn [fmap option_fmap option_map].
    + now rewrite before_hash_clean.
    + rewrite before_hash_stops by exact Hf. reflexivity.
  - unfold find_, findReference.
    destruct (fragment_of (href link)) as [fragment|]; [|reflexivity].
    destruct (negb _); [reflexivity|]. cbn [orb].
    destruct (List.find _ _) as [footnote|]; [|reflexivity].
    now destruct (closest_by footnoteSelector footnote).
Qed.

End References.

End PageFacts.

(* ===================================================================== *)
(** * Backlinks *)
(* ===================================================================== *)

Section BacklinkFacts.
Import Setup.

Variable innerHTML : Document → node → string.

Lemma only_removed_refl stop d : only_removed stop d d.
Proof. repeat split; auto. Qed.

Lemma only_removed_trans stop d1 d2 d3 :
  only_removed stop d1 d2 → only_removed stop d2 d3 → only_removed stop d1 d3.
Proof.
  intros (B1 & S1 & P1 & H1) (B2 & S2 & P2 & H2).
  split; [congruence|]. split; [congruence|]. split; [congruence|].
  intros n. destruct (H1 n) as (E1 & Q1 & C1 & A1 & Y1).
  destruct (H2 n) as (E2 & Q2 & C2 & A2 & Y2).
  split; [now rewrite E2|]. split.
  - destruct Q2 as [Q2|Q2]; [|now right]. rewrite Q2. exact Q1.
  - repeat split; congruence.
Qed.

Lemma attributes_detach n d m :
  attributes (element (detach n d) m) = attributes (element d m).
Proof.
  unfold detach. destruct (parentNode (element d n)); [|reflexivity].
  now rewrite !(project_update attributes).
Qed.

Lemma style_detach n d m : style (element (detach n d) m) = style (element d m).
Proof.
  unfold detach. destruct (parentNode (element d n)); [|reflexivity].
  now rewrite !(project_update style).
Qed.

Lemma only_removed_detach stop n d : n ≠ stop → only_removed stop d (detach n d).
Proof.
  intros Hne. split; [apply body_detach|]. split; [apply size_detach|].
  split; [now apply parentNode_detach_ne|].
  intros m. split; [apply exists_detach|]. split.
  - destruct (decide (m = n)) as [->|Hm].
    + right. apply parentNode_detach_eq.
    + left. now apply parentNode_detach_ne.
  - now rewrite classList_detach, attributes_detach, style_detach.
Qed.

(** What a run from [element] leaves when [element] is not [stop]. *)
Lemma unmount_from_runs (fuel : nat) (element stop : node) (w : World) :
  element ≠ stop →
  ∃ w' : World,
    unmount_from innerHTML fuel element stop w = Ok tt w'
    ∧ only_removed stop (document w) (document w')
    ∧ parentNode (Dom.element (document w') element) = None
    ∧ (∃ l, log w' = (log w ++ RemoveNode element :: l)%list
            ∧ ∀ e, e ∈ l → ∃ n, e = RemoveNode n ∧ n ≠ stop)
    ∧ render w' = render w ∧ maxHeight w' = maxHeight w ∧ position w' = position w.
Proof.
  revert element w. induction fuel as [|k IH]; intros element w Hne;
    cbn [unmount_from]; run.
  - set (w0 := mkWorld (detach element (document w)) (render w) (maxHeight w) (position w)
                 (log w ++ [RemoveNode element])).
    assert (H0 : ∃ w', Ok tt w0 = Ok tt w' :> Result unit
        ∧ only_removed stop (document w) (document w')
        ∧ parentNode (Dom.element (document w') element) = None
        ∧ (∃ l, log w' = (log w ++ RemoveNode element :: l)%list
                ∧ ∀ e, e ∈ l → ∃ n, e = RemoveNode n ∧ n ≠ stop)
        ∧ render w' = render w ∧ maxHeight w' = maxHeight w ∧ position w' = position w).
    { exists w0. split; [reflexivity|]. split; [now apply only_removed_detach|].
      split; [apply parentNode_detach_eq|]. split; [|now repeat split].
      exists []. split; [reflexivity|]. intros e He. now apply elem_of_nil in He. }
    destruct (parentNode (Dom.element (document w) element)) as [p|]; [|exact H0].
    now destruct (_ && _).
  - set (w0 := mkWorld (detach element (document w)) (render w) (maxHeight w) (position w)
                 (log w ++ [RemoveNode element])).
    assert (H0 : ∃ w', Ok tt w0 = Ok tt w' :> Result unit
        ∧ only_removed stop (document w) (document w')
        ∧ parentNode (Dom.element (document w') element) = None
        ∧ (∃ l, log w' = (log w ++ RemoveNode element :: l)%list
                ∧ ∀ e, e ∈ l → ∃ n, e = RemoveNode n ∧ n ≠ stop)
        ∧ render w' = render w ∧ maxHeight w' = maxHeight w ∧ position w' = position w).
    { exists w0. split; [reflexivity|]. split; [now apply only_removed_detach|].
      split; [apply parentNode_detach_eq|]. split; [|now repeat split].
      exists []. split; [reflexivity|]. intros e He. now apply elem_of_nil in He. }
    destruct (parentNode (Dom.element (document w) element)) as [p|]; [|exact H0].
    destruct (bool_decide (p = stop)) eqn:Ep; cbn [negb andb]; [exact H0|].
    apply bool_decide_eq_false in Ep.
    destruct (is_blank _); [|exact H0].
    destruct (IH p w0 Ep) as (w' & E & R & P & (l & L & Hl) & V).
    exists w'. split; [exact E|].
    split.
    { eapply only_removed_trans; [now apply (only_removed_detach stop element)|exact R]. }
    split.
    { destruct R as (_ & _ & _ & R). destruct (R element) as (_ & [Q|Q] & _); [|exact Q].
      rewrite Q. apply parentNode_detach_eq. }
    split; [|exact V].
    exists (RemoveNode p :: l). split.
    { rewrite L. cbn [log w0]. now rewrite <- app_assoc. }
    intros e He. apply elem_of_cons in He as [->|He]; [eauto | now apply Hl].
Qed.

Lemma unmount_from_step (fuel : nat) (element stop : node) (w : World) :
  let w0 := mkWorld (detach element (document w)) (render w) (maxHeight w) (position w)
              (log w ++ [RemoveNode element]) in
  unmount_from innerHTML fuel element stop w
  = match parentNode (Dom.element (document w) element) with
    | Some p =>
        if negb (bool_decide (p = stop)) && is_blank (innerHTML (document w0) p)
        then match fuel with
             | O => Ok tt w0
             | S fuel' => unmount_from innerHTML fuel' p stop w0
             end
        else Ok tt w0
    | None => Ok tt w0
    end.
Proof.
  destruct fuel; cbn [unmount_from]; run;
    destruct (parentNode (Dom.element (document w) element)); try reflexivity;
    now destruct (_ && _).
Qed.

(** Taking [x] off its parent leaves the chain above its parent alone. *)
Lemma ancestors_detach (d : Document) (x p : node) (l : list node) :
  ancestors d p l → x ∉ p :: l → ancestors (detach x d) p l.
Proof.
  intros H. induction H as [y Hy|y q l Hy _ IH]; intros Hx.
  - apply ancestors_root. rewrite parentNode_detach_ne; [exact Hy|].
    intros ->. apply Hx, elem_of_cons. now left.
  - apply ancestors_parent with (p := q).
    + rewrite parentNode_detach_ne; [exact Hy|].
      intros ->. apply Hx, elem_of_cons. now left.
    + apply IH. intros Hin. apply Hx, elem_of_cons. now right.
Qed.

(** The number of ancestors is fuel enough. *)
Lemma unmount_from_fuel (l : list node) (element stop : node) (w : World) :
  ancestors (document w) element l →
  ∀ k k', (length l ≤ k)%nat → (length l ≤ k')%nat →
          unmount_from innerHTML k element stop w
          = unmount_from innerHTML k' element stop w.
Proof.
  revert element w. induction l as [|p l IH]; intros element w H k k' Hk Hk';
    rewrite !unmount_from_step; cbn zeta.
  - inversion H as [x Hx|]; subst. now rewrite Hx.
  - pose proof (ancestors_not_in _ _ _ H) as Hfresh.
    inversion H as [|x q l' Hx Hq]; subst. rewrite Hx.
    destruct (_ && _); [|reflexivity].
    destruct k as [|k]; [cbn in Hk; lia|]. destruct k' as [|k']; [cbn in Hk'; lia|].
    cbn [length] in *. apply IH; [|lia|lia]. cbn [document].
    now apply ancestors_detach.
Qed.

(** X24. [recursiveUnmount] of an element other than the stop element
    always returns.  The element is off its parent afterwards and the stop
    element is never removed; every write is the removal of a node other
    than the stop element, a node keeps its parent or has none, and classes,
    attributes and styles are as they were.  The parent is removed in turn
    exactly when it is not the stop element and its markup, once the element
    is gone, is blank.  The number of ancestors is fuel enough. *)
Theorem recursiveUnmount_spares_stop (element stopElement : node) (w : World) :
  element ≠ stopElement →
  ∃ w' : World,
    recursiveUnmount innerHTML element stopElement w = Ok tt w'
    ∧ parentNode (Dom.element (document w') element) = None
    ∧ parentNode (Dom.element (document w') stopElement)
      = parentNode (Dom.element (document w) stopElement)
    ∧ (∀ e, e ∈ issued w w' → ∃ n, e = RemoveNode n ∧ n ≠ stopElement)
    ∧ (∀ n, (parentNode (Dom.element (document w') n)
             = parentNode (Dom.element (document w) n)
             ∨ parentNode (Dom.element (document w') n) = None)
            ∧ classList (Dom.element (document w') n) = classList (Dom.element (document w) n)
            ∧ attributes (Dom.element (document w') n)
              = attributes (Dom.element (document w) n)
            ∧ style (Dom.element (document w') n) = style (Dom.element (document w) n))
    ∧ (∀ p, parentNode (Dom.element (document w) element) = Some p →
            let emptied := is_blank (innerHTML (detach element (document w)) p) in
            (p = stopElement ∨ emptied = false → issued w w' = [RemoveNode element])
            ∧ (p ≠ stopElement → emptied = true →
               parentNode (Dom.element (document w') p) = None
               ∧ ∃ l, issued w w' = RemoveNode element :: RemoveNode p :: l))
    ∧ (∀ l k, ancestors (document w) element l → (length l ≤ k)%nat →
              unmount_from innerHTML k element stopElement w
              = recursiveUnmount innerHTML element stopElement w).
Proof.
  intros Hne.
  destruct (unmount_from_runs (size (nodes (document w))) element stopElement w Hne)
    as (w' & E & R & P & (l & L & Hl) & V).
  exists w'. split; [exact E|]. split; [exact P|].
  pose proof R as (_ & _ & Pstop & R'). split; [exact Pstop|].
  split.
  { rewrite (issued_app _ _ _ L). intros e He.
    apply elem_of_cons in He as [->|He]; [eauto | now apply Hl]. }
  split; [intros n; destruct (R' n) as (_ & Q & K); split; [exact Q | exact K]|].
  split.
  - intros p Hp emptied.
    assert (Hex : is_Some (nodes (document w) !! element)).
    { unfold Dom.element in Hp. destruct (nodes (document w) !! element); [eauto|discriminate]. }
    assert (Hsize : ∃ k, size (nodes (document w)) = S k).
    { destruct (size (nodes (document w))) eqn:Es; [|eauto].
      apply map_size_empty_inv in Es. rewrite Es, lookup_empty in Hex. now destruct Hex. }
    destruct Hsize as [k Hk]. unfold recursiveUnmount in E.
    change ((d ← gets document; unmount_from innerHTML (size (nodes d)) element stopElement) w)
      with (unmount_from innerHTML (size (nodes (document w))) element stopElement w) in E.
    rewrite Hk, unmount_from_step in E. cbn zeta in E. rewrite Hp in E.
    cbn [document] in E. fold emptied in E.
    split.
    + intros Hstop.
      assert (Htest : negb (bool_decide (p = stopElement)) && emptied = false).
      { destruct Hstop as [-> | ->]; [now rewrite bool_decide_eq_true_2 | apply andb_false_r]. }
      rewrite Htest in E. injection E as <-. now apply issued_app.
    + intros Hp' Hemptied. rewrite Hemptied, bool_decide_eq_false_2 in E by exact Hp'.
      cbn [negb andb] in E.
      match type of E with
      | unmount_from _ _ _ _ ?w0 = _ =>
          destruct (unmount_from_runs k p stopElement w0 Hp')
            as (w2 & E2 & _ & P2 & (l2 & L2 & _) & _)
      end.
      rewrite E2 in E. injection E as <-. split; [exact P2|].
      exists l2. apply issued_app. rewrite L2. cbn [log]. now rewrite <- app_assoc.
  - intros l0 k Ha Hk. unfold recursiveUnmount.
    change ((d ← gets document; unmount_from innerHTML (size (nodes d)) element stopElement) w)
      with (unmount_from innerHTML (size (nodes (document w))) element stopElement w).
    apply (unmount_from_fuel l0); [exact Ha | exact Hk|].
    pose proof (ancestors_length (document w) element l0 ∅ Ha) as Hlen.
    rewrite size_empty, Nat.add_0_r in Hlen. apply Hlen; set_solver.
Qed.

(** ** Blank markup *)

(** The length of the text is fuel enough. *)
Lemma is_blank_from_fuel (k k' : nat) (html : string) :
  (String.length html ≤ k)%nat → (String.length html ≤ k')%nat →
  is_blank_from k html = is_blank_from k' html.
Proof.
  revert k' html. induction k as [|k IH]; intros k' html Hk Hk'.
  - destruct html; [now destruct k' | cbn in Hk; lia].
  - destruct html as [|c rest]; [now destruct k'|].
    destruct k' as [|k']; [cbn in Hk'; lia|].
    cbn [is_blank_from].
    destruct (strip_prefix "[]" (String c rest)) as [r|] eqn:E1.
    { apply strip_prefix_length in E1. cbn [String.length] in *. apply IH; lia. }
    destruct (strip_prefix "&nbsp;" (String c rest)) as [r|] eqn:E2.
    { apply strip_prefix_length in E2. cbn [String.length] in *. apply IH; lia. }
    destruct (_ <? _)%nat eqn:E3; [|reflexivity].
    apply Nat.ltb_lt in E3. cbn [String.length] in *. apply IH; lia.
Qed.

Lemma blank_step (c : ascii) (rest : string) :
  let html := String c rest in
  is_blank html
  = match strip_prefix "[]" html with
    | Some after => is_blank after
    | None =>
        match strip_prefix "&nbsp;" html with
        | Some after => is_blank after
        | None =>
            if (String.length (skip_white_space html) <? String.length html)%nat
            then is_blank (skip_white_space html)
            else false
        end
    end.
Proof.
  cbn zeta. unfold is_blank at 1. cbn [String.length is_blank_from].
  destruct (strip_prefix "[]" (String c rest)) as [r|] eqn:E1.
  { apply strip_prefix_length in E1. cbn [String.length] in *.
    apply is_blank_from_fuel; lia. }
  destruct (strip_prefix "&nbsp;" (String c rest)) as [r|] eqn:E2.
  { apply strip_prefix_length in E2. cbn [String.length] in *.
    apply is_blank_from_fuel; lia. }
  destruct (_ <? _)%nat eqn:E3; [|reflexivity].
  apply Nat.ltb_lt in E3. cbn [String.length] in *. apply is_blank_from_fuel; lia.
Qed.

(** X25. The test [recursiveUnmount] makes on the markup of a parent: the
    markup is blank when it is empty; a leading [[]], [&nbsp;] or white
    space character does not count; any other leading character makes it
    not blank.  The pattern is applied once from left to right, so [[[]]],
    which leaves [[]], is not blank. *)
Theorem blank_markup_test (c : ascii) (rest : string) :
  is_blank "" = true
  ∧ is_blank ("[]" +:+ rest) = is_blank rest
  ∧ is_blank ("&nbsp;" +:+ rest) = is_blank rest
  ∧ (is_white_space c = true → is_blank (String c rest) = is_blank (skip_white_space rest))
  ∧ (is_white_space c = false → (nat_of_ascii c <? 194)%nat = true →
     c ≠ "["%char → c ≠ "&"%char → is_blank (String c rest) = false)
  ∧ is_blank "[[]]" = false.
Proof.
  assert (Hother : ∀ x, x ≠ "["%char → x ≠ "&"%char →
            strip_prefix "[]" (String x rest) = None
            ∧ strip_prefix "&nbsp;" (String x rest) = None).
  { intros x H1 H2. cbn [strip_prefix].
    destruct (Ascii.eqb_spec "[" x) as [<-|]; [now destruct H1|].
    destruct (Ascii.eqb_spec "&" x) as [<-|]; [now destruct H2|]. now split. }
  split; [reflexivity|].
  split.
  { rewrite !append_cons, append_empty.
    rewrite (blank_step "[" (String "]" rest)). reflexivity. }
  split.
  { rewrite !append_cons, append_empty.
    rewrite (blank_step "&" (String "n" (String "b" (String "s" (String "p" (String ";" rest)))))).
    reflexivity. }
  split.
  { intros Hc. rewrite blank_step. cbn zeta.
    destruct (Hother c) as [-> ->]; [intros ->; discriminate | intros ->; discriminate|].
    cbn [skip_white_space]. rewrite Hc.
    pose proof (skip_white_space_length rest) as Hlen. cbn [String.length].
    now rewrite (proj2 (Nat.ltb_lt _ _)) by lia. }
  split; [|reflexivity].
  intros Hc Hn H1 H2. rewrite blank_step. cbn zeta.
  destruct (Hother c H1 H2) as [-> ->].
  cbn [skip_white_space]. rewrite Hc, Hn. now rewrite Nat.ltb_irrefl.
Qed.

End BacklinkFacts.

(* ===================================================================== *)
(** * Taking the footnotes off the page *)
(* ===================================================================== *)

Section Unmounting.
Import Setup.







(** ** [getByClassName] *)




End Unmounting.
(* ===================================================================== *)
(** * The sample page, worked *)
(* ===================================================================== *)

Section Worked.

#[local] Existing Instance sample_builtins.
#[local] Existing Instance sample_elements.

Import Events.

Example sample_position : getFootnotePosition (layout sample_world) 2 3 = (below, 265%float).
Proof. vm_compute. reflexivity. Qed.

(** Room above 300 and room below 300, for a popover that needs 420: the tie
    goes to [below]; one pixel less below, and the popover goes [above]. *)
Example placement_tie : placement 290 20 400 10 600 = below.
Proof. reflexivity. Qed.
Example placement_above : placement 291 20 400 10 600 = above.
Proof. reflexivity. Qed.
Example placement_fits : placement 500 20 60 10 600 = below.
Proof. reflexivity. Qed.

Example sample_activate_log :
  log (world_of (activate None sample_world))
  = [ SetAttribute 2 "aria-expanded" "true"; ClassListAdd 2 "is-changing";
      ClassListAdd 2 "is-active"; InsertAdjacentAfterEnd 2 3;
      SetStyle 3 "maxWidth" "800px"; AssignMaxHeight 240%float ].
Proof. vm_compute. reflexivity. Qed.

Example sample_reposition_log :
  issued sample_world_open (world_of (reposition sample_world_open))
  = [ AssignPosition below; SetStyle 5 "maxHeight" "240px";
      ClassListAdd 3 "is-scrollable"; SetAttribute 5 "tabindex" "0" ].
Proof. vm_compute. reflexivity. Qed.

Example sample_hover :
  emitted (dispatch sample_page
             (mkEvent "mouseover" (AtElement 2) true None None) (addListeners 1000))
  = [PreventDefault; Invoke (hover "1")].
Proof. vm_compute. reflexivity. Qed.

(** The content [5] of the popover while the popover is off the page: an
    event dispatched on it stays in the tree of the popover. *)
Example sample_detached :
  isConnected sample_page 5 = false
  ∧ emitted (dispatch sample_page
               (mkEvent "mouseover" (AtElement 5) true None None) (addListeners 1000))
    = []
  ∧ emitted (dispatch sample_page (click 5) (addListeners 1000)) = []
  ∧ emitted (dispatch sample_page_open (click 5) (addListeners 1000)) = [].
Proof. repeat split; vm_compute; reflexivity. Qed.

Example sample_escape :
  emitted (dispatch sample_page
             (mkEvent "keyup" AtDocument true (Some 27%Z) None) (addListeners 1000))
  = [Invoke dismissAll].
Proof. vm_compute. reflexivity. Qed.

(** A burst of three scrolls within one window: one call at once, and one
    when the window ends. *)
Example sample_throttle :
  emitted (run [ Dispatch sample_page scroll; Advance 1004; Dispatch sample_page scroll;
                 Advance 1009; Dispatch sample_page scroll; Advance 1016; Advance 1100 ]
             (addListeners 1000))
  = [Invoke repositionAll; Invoke repositionAll].
Proof. vm_compute. reflexivity. Qed.

(** The handler run after its event was dispatched, when the event has no
    current target any more, clears the class and never sets it. *)
Example sample_scroll_late :
  issued sample_world_open
    (world_of (scrollHandler 3 (mkWheelEvent None 50%float) sample_world_open)) = []
  ∧ issued sample_world_open
      (world_of (scrollHandler 3 (mkWheelEvent None (-50)%float) sample_world_open))
    = [ClassListRemove 3 "is-fully-scrolled"].
Proof. split; vm_compute; reflexivity. Qed.

(** C4: the content region [5] scrolled to its end, and a wheel event with
    [deltaY = 50] that the handler of the popover [3] is run on once the
    dispatch is over, as a call the throttle held back is: both tests of the
    claim hold for the region, and the class is not added. *)
Lemma scroll_claim_refuted :
  ¬ scroll_claim 3 5 (mkWheelEvent None 50%float) sample_world_scrolled.
Proof.
  intros [_ H].
  assert (E : reached_bottom (layout sample_world_scrolled) (- 50)%float 5 = true)
    by (vm_compute; reflexivity).
  apply H in E.
  assert (I : issued sample_world_scrolled
                (world_of (scrollHandler 3 (mkWheelEvent None 50%float)
                             sample_world_scrolled)) = [])
    by (vm_compute; reflexivity).
  rewrite I in E. now apply elem_of_nil in E.
Qed.

(** The same event while it is dispatched, with the region for its current
    target, adds the class. *)
Example sample_scroll_bottom :
  issued sample_world_scrolled
    (world_of (scrollHandler 3 (mkWheelEvent (Some 5) 50%float) sample_world_scrolled))
  = [ClassListAdd 3 "is-fully-scrolled"].
Proof. vm_compute. reflexivity. Qed.


Example sample_reactivation :
  maxHeight (after_calls [Activate] (initial_world sample_page cascading_layout))
  = 240%float
  ∧ maxHeight (after_calls [Activate; Reposition; Dismiss; Remove; Activate]
                 (initial_world sample_page cascading_layout))
    = 165%float
  ∧ natural_maxHeight
      (after_calls [Activate; Reposition; Dismiss; Remove; Activate]
         (initial_world sample_page cascading_layout))
    = 240%float.
Proof. repeat split; vm_compute; reflexivity. Qed.

(** C3: a scroll handled at once at 1000, a second one at 1005 held back
    until 1016, the teardown, and then the call the throttle held back. *)
Lemma teardown_leaves_pending_call :
  ¬ quiet_after_teardown 1000
      [Dispatch sample_page scroll; Advance 1005; Dispatch sample_page scroll]
      [Advance 1016].
Proof. unfold quiet_after_teardown. vm_compute. discriminate. Qed.

(** C8: a click that does not bubble, dispatched on the button of footnote
    "1" while the group listens: the listeners are on the window, the event
    stops at its target, and [toggle "1"] is not invoked. *)
Lemma toggle_claim_refuted :
  ¬ toggle_claim 1000 sample_page (plain_click 2) 2.
Proof.
  intros (H1 & _). specialize (H1 2 "1").
  assert (E : emitted (dispatch sample_page (plain_click 2) (addListeners 1000)) = [])
    by (vm_compute; reflexivity).
  rewrite E in H1. discriminate H1; vm_compute; reflexivity.
Qed.

(** The same click on the same button, bubbling. *)
Lemma toggle_resolution_witness :
  emitted (dispatch sample_page (click 2) (addListeners 1000))
  = [PreventDefault; Invoke (toggle "1")]
  ∧ emitted (dispatch sample_page (plain_click 2) (addListeners 1000)) = [].
Proof.
  split.
  - destruct (toggle_resolution 1000 sample_page (click 2) 2) as [H _].
    + reflexivity.
    + left. reflexivity.
    + destruct H as [H _]; [reflexivity | vm_compute; reflexivity|].
      apply (H "1"); [vm_compute; reflexivity | discriminate].
  - destruct (toggle_resolution 1000 sample_page (plain_click 2) 2) as [_ H].
    + reflexivity.
    + left. reflexivity.
    + apply H. left. reflexivity.
Defined.

Lemma sample_distinct : button sample_elements ≠ popover sample_elements.
Proof. discriminate. Defined.

Lemma detached_reposition_resize_noop_witness :
  reposition sample_world = Ok tt sample_world ∧ resize sample_world = Ok tt sample_world.
Proof.
  apply detached_reposition_resize_noop. vm_compute. reflexivity.
Defined.

Lemma isActive_follows_last_toggle_witness :
  isActive (after_calls [Activate; Ready; Reposition; Dismiss; Ready; Resize] sample_world)
  = Ok false (after_calls [Activate; Ready; Reposition; Dismiss; Ready; Resize] sample_world).
Proof.
  destruct (isActive_follows_last_toggle sample_distinct sample_world) as [_ H].
  - vm_compute. eexists. reflexivity.
  - exact (H [Activate; Ready; Reposition; Dismiss; Ready; Resize]).
Defined.


Lemma reposition_marks_overflow_witness :
  ∃ w1, reposition sample_world_open = Ok tt w1
        ∧ position w1 = below
        ∧ issued sample_world_open w1
          = [ AssignPosition below; SetStyle 5 "maxHeight" "240px";
              ClassListAdd 3 "is-scrollable"; SetAttribute 5 "tabindex" "0" ]
        ∧ attributes (element (document w1) 5) !! "tabindex" = Some "0".
Proof.
  destruct (reposition_marks_overflow sample_world_open)
    as (w1 & Hrun & Hpos & _ & _ & Hissued & _ & Htab).
  - vm_compute. reflexivity.
  - exists w1. split; [exact Hrun|].
    split; [rewrite Hpos; vm_compute; reflexivity|].
    split; [rewrite Hissued; vm_compute; reflexivity|].
    etransitivity; [apply Htab; eexists; reflexivity|].
    vm_compute. reflexivity.
Defined.

Lemma dismiss_remove_activate_witness :
  ∃ w1 w2 w3,
    dismiss None sample_world_open = Ok tt w1
    ∧ mounted w1 = true
    ∧ remove w1 = Ok tt w2
    ∧ mounted w2 = false
    ∧ isReady w2 = Ok true w2
    ∧ activate None w2 = Ok tt w3
    ∧ nextSibling (document w3) 2 = Some 3
    ∧ mounted w3 = true.
Proof.
  destruct (dismiss_remove_activate sample_distinct sample_world_open 1)
    as (w1 & w2 & w3 & Hd & _ & Hm1 & Hr & Hm2 & Hready & Ha & Hnext & _ & Hm3 & _).
  - discriminate.
  - discriminate.
  - vm_compute. eexists. reflexivity.
  - vm_compute. reflexivity.
  - vm_compute. apply elem_of_cons. left. reflexivity.
  - vm_compute. reflexivity.
  - exists w1, w2, w3. repeat split; assumption.
Defined.

(** ** The further properties, on the sample pages *)

Lemma resize_writes_styles_only_witness :
  ∃ w3, resize sample_world_open = Ok tt w3
        ∧ issued sample_world_open w3
          = [ SetStyle 3 "left" "-31.25px"; SetStyle 4 "maxWidth" "300px" ]
        ∧ same_but_styles sample_page_open (document w3)
        ∧ mounted w3 = true.
Proof.
  destruct (resize_writes_styles_only sample_world_open)
    as (w3 & Hrun & Hissued & _ & _ & Hsame & _ & _ & _ & Hm).
  - vm_compute. reflexivity.
  - exists w3. split; [exact Hrun|].
    split; [rewrite Hissued; vm_compute; reflexivity|].
    split; [exact Hsame | exact Hm].
Defined.


Lemma activate_after_destroy_witness :
  ∃ w1 w2, destroy sample_world_open = Ok tt w1
           ∧ activate None w1 = Ok tt w2
           ∧ isActive w2 = Ok true w2
           ∧ mounted w2 = false.
Proof.
  destruct (activate_after_destroy sample_world_open 1)
    as (w1 & w2 & Hd & Ha & _ & Hactive & Hm & _).
  - discriminate.
  - discriminate.
  - discriminate.
  - vm_compute. eexists. reflexivity.
  - vm_compute. reflexivity.
  - vm_compute. reflexivity.
  - vm_compute. reflexivity.
  - vm_compute. apply elem_of_cons. left. reflexivity.
  - vm_compute. reflexivity.
  - exists w1, w2. split; [exact Hd|]. split; [exact Ha|]. split; [exact Hactive | exact Hm].
Defined.

Lemma isReady_follows_last_transition_witness :
  isReady (after_calls [Activate; Reposition; Ready; Dismiss; Resize] sample_world)
  = Ok false (after_calls [Activate; Reposition; Ready; Dismiss; Resize] sample_world).
Proof.
  assert (H : is_Some (nodes (document sample_world) !! button sample_elements))
    by (vm_compute; eexists; reflexivity).
  exact (isReady_follows_last_transition sample_world H
           [Activate; Reposition; Ready; Dismiss; Resize]).
Defined.

Lemma activate_rejected_insertion_witness :
  ∃ w', @activate sample_builtins nested_elements None sample_world
        = Throw HierarchyRequestError w'
        ∧ @isActive nested_elements w' = Ok true w'
        ∧ @isReady nested_elements w' = Ok false w'.
Proof.
  destruct (@activate_rejected_insertion sample_builtins nested_elements None sample_world 4)
    as (w' & Hrun & _ & Hactive & Hready & _).
  - vm_compute. reflexivity.
  - vm_compute. reflexivity.
  - exists w'. split; [exact Hrun|]. split; [exact Hactive | exact Hready].
Defined.

Lemma placement_without_margin_witness :
  fst (getFootnotePosition (unstyled_layout sample_page) 2 3) = above
  ∧ PrimFloat.is_nan (snd (getFootnotePosition (unstyled_layout sample_page) 2 3)) = true.
Proof.
  destruct (placement_without_margin (unstyled_layout sample_page) 2 3 240%float) as [E _].
  - vm_compute. reflexivity.
  - rewrite E. split; vm_compute; reflexivity.
Defined.

Lemma hover_resolution_witness :
  emitted (dispatch sample_page
             (mkEvent "mouseover" (AtElement 2) true None None) (addListeners 1000))
  = [PreventDefault; Invoke (hover "1")].
Proof.
  pose proof (hover_resolution 1000 sample_page
                (mkEvent "mouseover" (AtElement 2) true None None) 2
                eq_refl (or_introl eq_refl)) as H.
  cbn zeta in H. destruct H as [H _].
  assert (Hc : isConnected sample_page 2 = true) by (vm_compute; reflexivity).
  specialize (H eq_refl Hc).
  assert (E : closest sample_page 2 SELECTOR_FOOTNOTE = Some 2) by (vm_compute; reflexivity).
  rewrite E in H. destruct H as (id & Hid & Hs).
  vm_compute in Hid. injection Hid as <-. exact Hs.
Defined.


Lemma interpolate_replaces_tag_witness :
  Setup.interpolate (λ _, None) "<%= id %>." (Setup.mkTemplateValues 3 "7" "note" "lf-fn1")
  = "7.".
Proof.
  destruct (interpolate_replaces_tag (λ _, None)
              (Setup.mkTemplateValues 3 "7" "note" "lf-fn1") "=" " " "id" " " ".")
    as [H _].
  - right. reflexivity.
  - reflexivity.
  - discriminate.
  - reflexivity.
  - reflexivity.
  - exact H.
Defined.

Lemma references_never_repeat_a_body_witness :
  NoDup (map snd (Setup.references notes_closest_by notes_href notes_element_id notes_by_id
                    false "sup" "li" [10; 11])).
Proof.
  apply references_never_repeat_a_body.
  intros fragment n Hn. unfold notes_by_id in Hn.
  destruct (String.eqb fragment "fn1"); [|now apply elem_of_nil in Hn].
  apply list_elem_of_singleton in Hn as ->. reflexivity.
Defined.


Lemma events_off_elements_throw_witness :
  emitted (dispatch sample_page (mkEvent "click" AtDocument true None None)
             (addListeners 1000))
  = [Uncaught TypeError].
Proof.
  destruct (events_off_elements_throw 1000 sample_page
              (mkEvent "click" AtDocument true None None)) as [H _].
  - left. reflexivity.
  - reflexivity.
  - left. reflexivity.
  - exact H.
Defined.

Lemma recursiveUnmount_spares_stop_witness :
  ∃ w', Setup.recursiveUnmount note_innerHTML 3 0 (initial_world note_body sample_layout)
        = Ok tt w'
        ∧ parentNode (element (document w') 3) = None
        ∧ parentNode (element (document w') 2) = None.
Proof.
  destruct (recursiveUnmount_spares_stop note_innerHTML 3 0
              (initial_world note_body sample_layout))
    as (w' & Hrun & H3 & _ & _ & _ & Hparent & _).
  - discriminate.
  - exists w'. split; [exact Hrun|]. split; [exact H3|].
    destruct (Hparent 2) as [_ H2]; [vm_compute; reflexivity|].
    destruct H2 as [H2 _]; [discriminate | vm_compute; reflexivity|].
    exact H2.
Defined.

End Worked.
